(** * eolearn.io.processing_api: the SentinelHubProcessingInput task

    A shallow embedding of [SentinelHubProcessingInput] (date discovery and
    cleaning, per-date request specialisation, evalscript generation and
    response assembly) together with the properties of it that the
    specification states. *)

From Stdlib Require Import ZArith Lia Ascii String Sorted.
From Stdlib Require Import PrimFloat FloatOps SpecFloat.
From stdpp Require Import base tactics option list sets sorting strings pretty gmap.

Open Scope Z_scope.
Set Warnings "-register-all,-inexact-float".

(** ** Outcomes of Python code *)

(** The exceptions the task and the library calls it makes can raise. *)
Inductive exn : Type :=
  | ValueError (msg : string)
  | TypeError (msg : string)
  | KeyError (key : string)
  | IndexError (msg : string)
  | UnboundLocalError (name : string)
  | AttributeError (msg : string)
  | OverflowError (msg : string)
  | ZeroDivisionError (msg : string)
  | RecursionError
  | SystemError (msg : string)
  | ServiceError (msg : string).

Inductive result (A : Type) : Type :=
  | Ok (a : A)
  | Raise (e : exn).
Arguments Ok {A} a.
Arguments Raise {A} e.

Definition result_bind {A B} (f : A → result B) (r : result A) : result B :=
  match r with
  | Ok a => f a
  | Raise e => Raise e
  end.

Global Instance result_ret : MRet result := λ A a, Ok a.
Global Instance result_mbind : MBind result := λ A B f r, result_bind f r.

(** [[f(x) for x in l]] where [f] can raise. *)
Fixpoint result_mapM {A B} (f : A → result B) (l : list A) : result (list B) :=
  match l with
  | [] => Ok []
  | x :: l' => y ← f x; ys ← result_mapM f l'; Ok (y :: ys)
  end.

(** ** Characters that cannot be written inside a string literal *)

Definition squote : string := String "039"%char EmptyString.
Definition dquote : string := String "034"%char EmptyString.
Definition backslash : string := String "092"%char EmptyString.

(** ** datetime.datetime and datetime.timedelta

    A naive [datetime] is a point of the proleptic Gregorian time line at
    microsecond resolution; it is represented by the number of microseconds
    elapsed since 0001-01-01T00:00:00, which is what Python's own datetime
    arithmetic goes through. A [timedelta] is a signed number of
    microseconds. *)
Abbreviation datetime := Z (only parsing).
Abbreviation timedelta := Z (only parsing).

Module Datetime.

Definition us_per_second : Z := 1000000.
Definition us_per_day : Z := 86400 * us_per_second.
Definition MAXORDINAL : Z := 3652059.

(** [timedelta(seconds=n)] *)
Definition seconds (n : Z) : timedelta := n * us_per_second.

(** [d2 - d1] *)
Definition sub (d2 d1 : datetime) : timedelta := d2 - d1.

(** [date + delta]; outside year 1..9999 Python raises OverflowError. *)
Definition add (d : datetime) (delta : timedelta) : result datetime :=
  let r := d + delta in
  if decide (0 ≤ r < MAXORDINAL * us_per_day) then Ok r
  else Raise (OverflowError "date value out of range").

Definition DAYS_IN_MONTH : list Z := [-1; 31; 28; 31; 30; 31; 30; 31; 31; 30; 31; 30; 31].
Definition DAYS_BEFORE_MONTH : list Z :=
  [-1; 0; 31; 59; 90; 120; 151; 181; 212; 243; 273; 304; 334].

Definition is_leap (year : Z) : bool :=
  (year mod 4 =? 0) && (negb (year mod 100 =? 0) || (year mod 400 =? 0)).

Definition days_before_year (year : Z) : Z :=
  let y := year - 1 in y * 365 + y / 4 - y / 100 + y / 400.

Definition days_before_month (year month : Z) : Z :=
  DAYS_BEFORE_MONTH !!! Z.to_nat month
  + (if (2 <? month) && is_leap year then 1 else 0).

(** [_ymd2ord]: the ordinal of a calendar day, 0001-01-01 being day 1. *)
Definition ymd2ord (year month day : Z) : Z :=
  days_before_year year + days_before_month year month + day.

(** [datetime(year, month, day, hour, minute, second)] *)
Definition make (year month day hour minute second : Z) : datetime :=
  (ymd2ord year month day - 1) * us_per_day
  + ((hour * 60 + minute) * 60 + second) * us_per_second.

(** [_ord2ymd]: the calendar day of an ordinal. *)
Definition ord2ymd (ordinal : Z) : Z * Z * Z :=
  let n := ordinal - 1 in
  let n400 := n / 146097 in
  let n := n mod 146097 in
  let year := n400 * 400 + 1 in
  let n100 := n / 36524 in
  let n := n mod 36524 in
  let n4 := n / 1461 in
  let n := n mod 1461 in
  let n1 := n / 365 in
  let n := n mod 365 in
  let year := year + n100 * 100 + n4 * 4 + n1 in
  if (n1 =? 4) || (n100 =? 4) then (year - 1, 12, 31)
  else
    let leapyear := (n1 =? 3) && (negb (n4 =? 24) || (n100 =? 3)) in
    let month := Z.shiftr (n + 50) 5 in
    let preceding :=
      DAYS_BEFORE_MONTH !!! Z.to_nat month
      + (if (2 <? month) && leapyear then 1 else 0) in
    if n <? preceding then
      let month := month - 1 in
      let preceding :=
        preceding - (DAYS_IN_MONTH !!! Z.to_nat month
                     + (if (month =? 2) && leapyear then 1 else 0)) in
      (year, month, n - preceding + 1)
    else (year, month, n - preceding + 1).

(** The format [%0<width>d] for a number that is not negative. *)
Definition zero_padded (width : nat) (n : Z) : string :=
  let digits := pretty n in
  String.concat EmptyString (replicate (width - String.length digits) "0") +:+ digits.

(** The calendar date [YYYY-MM-DD] of a datetime. *)
Definition iso_date (d : datetime) : string :=
  let '(year, month, day) := ord2ymd (d / us_per_day + 1) in
  zero_padded 4 year +:+ "-" +:+ zero_padded 2 month +:+ "-" +:+ zero_padded 2 day.

(** The time of day [HH:MM:SS], seconds being the finest unit printed. *)
Definition iso_time (d : datetime) : string :=
  let secs := (d mod us_per_day) / us_per_second in
  zero_padded 2 (secs / 3600) +:+ ":" +:+ zero_padded 2 (secs mod 3600 / 60)
  +:+ ":" +:+ zero_padded 2 (secs mod 60).

Definition microsecond (d : datetime) : Z := d mod us_per_second.

(** [date.isoformat()]: the fraction is printed only when it is not zero. *)
Definition isoformat (d : datetime) : string :=
  iso_date d +:+ "T" +:+ iso_time d
  +:+ (if microsecond d =? 0 then EmptyString
       else "." +:+ zero_padded 6 (microsecond d)).

End Datetime.

(** ** Python numbers and floats *)

(** A number decoded from JSON or written as a literal: an [int] or a
    [float] (IEEE binary64, the kernel's primitive floats). *)
Inductive pynumber : Type :=
  | PyInt (n : Z)
  | PyFloat (x : float).

(** [int(x)] for a float: truncation towards zero; infinities and NaN raise. *)
Definition int_of_float (x : float) : result Z :=
  match Prim2SF x with
  | S754_zero _ => Ok 0
  | S754_finite s m e =>
      let a := if 0 <=? e then Z.shiftl (Z.pos m) e else Z.shiftr (Z.pos m) (- e) in
      Ok (if s then - a else a)
  | S754_infinity _ => Raise (OverflowError "cannot convert float infinity to integer")
  | S754_nan => Raise (ValueError "cannot convert float NaN to integer")
  end.

(** The float literal [100.0], which the int [100] becomes in [maxcc * 100]. *)
Definition float_100 : float := 100%float.

(** [x / y] on floats: a zero divisor raises. *)
Definition float_div (x y : float) : result float :=
  if PrimFloat.eqb y 0%float then Raise (ZeroDivisionError "float division by zero")
  else Ok (PrimFloat.div x y).

(** ** numpy arrays

    An array is its shape and its items in row-major (C) order. *)
Record ndarray (A : Type) : Type := {
  shape : list nat;
  items : list A
}.
Arguments shape {A} _.
Arguments items {A} _.

Definition prod_shape (dims : list nat) : nat := foldr Nat.mul 1%nat dims.

(** [count] consecutive chunks of [width] items. *)
Fixpoint chunks {A} (count width : nat) (l : list A) : list (list A) :=
  match count with
  | O => []
  | S count' => take width l :: chunks count' width (drop width l)
  end.

(** [np.atleast_3d(a)] *)
Definition atleast_3d {A} (a : ndarray A) : ndarray A :=
  match shape a with
  | [] => {| shape := [1; 1; 1]%nat; items := items a |}
  | [n] => {| shape := [1; n; 1]%nat; items := items a |}
  | [m; n] => {| shape := [m; n; 1]%nat; items := items a |}
  | _ => a
  end.

(** [a[..., idx]] for an index that is not negative. *)
Definition index_last {A} (idx : nat) (a : ndarray A) : result (ndarray A) :=
  match shape a with
  | [] => Raise (IndexError "too many indices for array")
  | _ :: _ =>
      let outer := removelast (shape a) in
      let width := List.last (shape a) 0%nat in
      if decide (idx < width)%nat then
        Ok {| shape := outer;
              items := omap (λ row, row !! idx) (chunks (prod_shape outer) width (items a)) |}
      else Raise (IndexError "index is out of bounds")
  end.

(** [a[..., slice(k)]], the first [k] entries of the last axis. *)
Definition slice_last {A} (k : nat) (a : ndarray A) : result (ndarray A) :=
  match shape a with
  | [] => Raise (IndexError "too many indices for array")
  | _ :: _ =>
      let outer := removelast (shape a) in
      let width := List.last (shape a) 0%nat in
      Ok {| shape := outer ++ [Nat.min k width];
            items := concat (take k <$> chunks (prod_shape outer) width (items a)) |}
  end.

(** [a.astype(t)], [a * x] and [np.round(a, n)] act item by item. *)
Definition amap {A B} (f : A → B) (a : ndarray A) : ndarray B :=
  {| shape := shape a; items := f <$> items a |}.

(** [np.asarray(arrays)] for a list of arrays: they are stacked along a new
    first axis; arrays of different shapes do not form an array. *)
Definition asarray {A} (arrays : list (ndarray A)) : result (ndarray A) :=
  match arrays with
  | [] => Ok {| shape := [0%nat]; items := [] |}
  | a :: rest =>
      if forallb (λ b, bool_decide (shape b = shape a)) rest then
        Ok {| shape := length arrays :: shape a; items := concat (items <$> arrays) |}
      else Raise (ValueError "setting an array element with a sequence")
  end.

(** [a.reshape] to the dimensions [dims]: one dimension may be [-1] and is
    then inferred. *)
Definition reshape {A} (dims : list Z) (a : ndarray A) : result (ndarray A) :=
  let total := Z.of_nat (length (items a)) in
  let known := filter (λ d, d ≠ -1) dims in
  let unknowns := (length dims - length known)%nat in
  let p := foldr Z.mul 1 known in
  let bad := Raise (ValueError "cannot reshape array") in
  if forallb (λ d, 0 <=? d) known then
    match unknowns with
    | O =>
        if p =? total then Ok {| shape := Z.to_nat <$> dims; items := items a |}
        else bad
    | S O =>
        if (0 <? p) && (total mod p =? 0) then
          Ok {| shape := (λ d, Z.to_nat (if d =? -1 then total / p else d)) <$> dims;
                items := items a |}
        else bad
    | _ => Raise (ValueError "can only specify one unknown dimension")
    end
  else Raise (ValueError "negative dimensions not allowed").

(** numpy's 32-bit floats: the conversion from an unsigned 16-bit sample, the
    product with a Python scalar and the rounding to a number of decimals.
    Their numeric results are numpy's business; the task only chooses which
    of them is applied to which sample. *)
Class Float32 : Type := {
  f32 : Type;
  f32_of_uint16 : Z → f32;
  f32_mul : f32 → pynumber → f32;
  f32_round : Z → f32 → f32
}.

(** An array stored in an EOPatch, by its dtype. *)
Inductive array `{Float32} : Type :=
  | BoolArray (a : ndarray bool)
  | Float32Array (a : ndarray f32).

Definition array_shape `{Float32} (a : array) : list nat :=
  match a with
  | BoolArray a => shape a
  | Float32Array a => shape a
  end.

(** ** The configuration of the task *)

(** The feature types that hold numpy arrays ([FeatureType.is_raster]). *)
Inductive FeatureType : Type :=
  | DATA | MASK | SCALAR | LABEL | DATA_TIMELESS | MASK_TIMELESS
  | SCALAR_TIMELESS | LABEL_TIMELESS.

Global Instance FeatureType_eq_dec : EqDecision FeatureType.
Proof. solve_decision. Defined.

Global Instance FeatureType_countable : Countable FeatureType.
Proof.
  refine (inj_countable'
    (λ t, match t with
          | DATA => 0 | MASK => 1 | SCALAR => 2 | LABEL => 3
          | DATA_TIMELESS => 4 | MASK_TIMELESS => 5
          | SCALAR_TIMELESS => 6 | LABEL_TIMELESS => 7
          end%nat)
    (λ n, match n with
          | 0 => DATA | 1 => MASK | 2 => SCALAR | 3 => LABEL
          | 4 => DATA_TIMELESS | 5 => MASK_TIMELESS
          | 6 => SCALAR_TIMELESS | _ => LABEL_TIMELESS
          end%nat) _).
  by intros [].
Defined.

(** [FeatureType.ndim()]: the number of axes an array of the type has. *)
Definition feature_ndim (t : FeatureType) : nat :=
  match t with
  | DATA | MASK => 4
  | SCALAR | LABEL => 2
  | DATA_TIMELESS | MASK_TIMELESS => 3
  | SCALAR_TIMELESS | LABEL_TIMELESS => 1
  end.

(** [str(feature_type)] *)
Definition str_feature_type (t : FeatureType) : string :=
  "FeatureType."
  +:+ match t with
      | DATA => "DATA" | MASK => "MASK" | SCALAR => "SCALAR" | LABEL => "LABEL"
      | DATA_TIMELESS => "DATA_TIMELESS" | MASK_TIMELESS => "MASK_TIMELESS"
      | SCALAR_TIMELESS => "SCALAR_TIMELESS" | LABEL_TIMELESS => "LABEL_TIMELESS"
      end.

Abbreviation feature := (FeatureType * string)%type.

Record BBox : Type := {
  min_x : float; min_y : float; max_x : float; max_y : float;
  crs_opengis_string : string
}.

(** [list(bbox)] *)
Definition bbox_list (bbox : BBox) : list float :=
  [min_x bbox; min_y bbox; max_x bbox; max_y bbox].

Record DataSource : Type := {
  ds_bands : list string;
  ds_api_identifier : string
}.

(** The query window, a pair of date strings ([tuple(str, str)]). *)
Definition TimeInterval : Type := string * string.

(** [time_difference] is documented as an [int] and defaults to [-1]; a caller
    can also pass a [datetime.timedelta]. *)
Inductive time_diff : Type :=
  | TdInt (n : Z)
  | TdTimedelta (delta : timedelta).

(** The arguments of [__init__]. The attributes [__init__] assigns from them
    are never assigned again, so the object is its arguments; the three
    attributes that [__init__] computes are the functions below. *)
Record SentinelHubProcessingInput : Type := {
  data_source : DataSource;
  size : option (Z * Z);
  resolution : option float;
  bands_feature : option feature;
  bands_arg : option (list string);
  additional_data_arg : option (list feature);
  maxcc : float;
  time_difference : time_diff;
  cache_folder : option string;
  max_threads : Z
}.

(** [self.bands = bands or data_source.bands() if bands_feature else []],
    which parses as [(bands or data_source.bands()) if bands_feature else []];
    an empty list is falsy, like [None]. *)
Definition bands (self : SentinelHubProcessingInput) : list string :=
  match bands_feature self with
  | Some _ =>
      match bands_arg self with
      | Some (b :: bs) => b :: bs
      | _ => ds_bands (data_source self)
      end
  | None => []
  end.

(** [self.additional_data = additional_data or []] *)
Definition additional_data (self : SentinelHubProcessingInput) : list feature :=
  match additional_data_arg self with
  | Some l => l
  | None => []
  end.

(** [self.all_bands = self.bands + [f_name for _, f_name in self.additional_data]] *)
Definition all_bands (self : SentinelHubProcessingInput) : list string :=
  bands self ++ (snd <$> additional_data self).

(** ** The object store

    Request bodies are Python dictionaries and lists: mutable objects that
    are reached through references and may be shared. The store maps an
    address to the object allocated there; allocation appends to it. *)

Abbreviation addr := nat (only parsing).

Inductive value : Type :=
  | VNone
  | VBool (b : bool)
  | VInt (n : Z)
  | VFloat (x : float)
  | VStr (s : string)
  | VRef (a : addr).

(** A [dict] with string keys keeps its items in insertion order. *)
Inductive object : Type :=
  | ODict (entries : list (string * value))
  | OList (elems : list value).

Abbreviation heap := (list object) (only parsing).

(** A request body as a tree, the form in which the download client
    serialises it. *)
Inductive json : Type :=
  | JNull
  | JBool (b : bool)
  | JInt (n : Z)
  | JFloat (x : float)
  | JStr (s : string)
  | JList (elems : list json)
  | JDict (entries : list (string * json)).

(** ** Collaborators and the world the task runs in *)

(** One decoded response of the download client: the image under
    ['default.tif'] and the optional metadata under ['userdata.json']. *)
Record response : Type := {
  default_tif : ndarray Z;
  userdata_json : option (list (string * pynumber))
}.

(** The outside services: the WFS date query, the download client, the
    request builders of [sentinelhub.sentinelhub_request] (pure constructors
    of dictionaries), the interpreter's recursion limit and its Unicode
    database: [unicode_printable] is [str.isprintable] of a code point, read
    for the code points from U+0080 on. *)
Record services : Type := {
  wfs_get_dates : BBox → TimeInterval → DataSource → float → result (list datetime);
  client_download : list json → result (list response);
  shr_response : string → string → json;
  shr_bounds : string → list float → json;
  shr_data : string → json;
  shr_output : Z → Z → list json → json;
  shr_body : json → list json → json → string → json;
  recursion_limit : nat;
  unicode_printable : N → bool
}.

(** The calls that leave the process. *)
Inductive event : Type :=
  | WfsQuery (bbox : BBox) (time_interval : TimeInterval)
      (data_source : DataSource) (maxcc : float)
  | Download (payloads : list json).

Record world : Type := {
  store : heap;
  log : list event
}.

Definition M (A : Type) : Type := world → world * result A.

Definition M_ret {A} (a : A) : M A := λ w, (w, Ok a).
Definition M_bind {A B} (f : A → M B) (m : M A) : M B :=
  λ w, match m w with
       | (w', Ok a) => f a w'
       | (w', Raise e) => (w', Raise e)
       end.
Global Instance M_mret : MRet M := @M_ret.
Global Instance M_mbind : MBind M := @M_bind.

Definition raise {A} (e : exn) : M A := λ w, (w, Raise e).
Definition lift {A} (r : result A) : M A := λ w, (w, r).
Definition emit (ev : event) : M unit :=
  λ w, ({| store := store w; log := log w ++ [ev] |}, Ok tt).

(** [[f(x) for x in l]] in the world. *)
Fixpoint mapM {A B} (f : A → M B) (l : list A) : M (list B) :=
  match l with
  | [] => mret []
  | x :: l' => y ← f x; ys ← mapM f l'; mret (y :: ys)
  end.

(** [for x in l: body(x)] *)
Fixpoint for_each {A} (l : list A) (body : A → M unit) : M unit :=
  match l with
  | [] => mret tt
  | x :: l' => _ ← body x; for_each l' body
  end.

(** ** Objects in the store *)

Definition alloc (o : object) : M addr :=
  λ w, ({| store := store w ++ [o]; log := log w |}, Ok (length (store w))).

Definition load (a : addr) : M object :=
  λ w, (w, match store w !! a with
           | Some o => Ok o
           | None => Raise (SystemError "dangling reference")
           end).

Definition save (a : addr) (o : object) : M unit :=
  λ w, ({| store := <[a:=o]> (store w); log := log w |}, Ok tt).

Fixpoint dict_get (entries : list (string * value)) (key : string) : option value :=
  match entries with
  | [] => None
  | (k, v) :: rest => if decide (k = key) then Some v else dict_get rest key
  end.

(** Assignment to a key keeps the position of a key that is present and
    appends a new one. *)
Fixpoint dict_set (entries : list (string * value)) (key : string) (v : value)
    : list (string * value) :=
  match entries with
  | [] => [(key, v)]
  | (k, v') :: rest =>
      if decide (k = key) then (k, v) :: rest else (k, v') :: dict_set rest key v
  end.

(** [obj[key]] for a string key. *)
Definition getitem (obj : value) (key : string) : M value :=
  match obj with
  | VRef a =>
      o ← load a;
      match o with
      | ODict entries =>
          match dict_get entries key with
          | Some v => mret v
          | None => raise (KeyError key)
          end
      | OList _ => raise (TypeError "list indices must be integers or slices, not str")
      end
  | VStr _ => raise (TypeError "string indices must be integers")
  | _ => raise (TypeError "object is not subscriptable")
  end.

(** [obj[key] = v] for a string key. *)
Definition setitem (obj : value) (key : string) (v : value) : M unit :=
  match obj with
  | VRef a =>
      o ← load a;
      match o with
      | ODict entries => save a (ODict (dict_set entries key v))
      | OList _ => raise (TypeError "list indices must be integers or slices, not str")
      end
  | _ => raise (TypeError "object does not support item assignment")
  end.

(** The items a [for] loop over [obj] visits: the elements of a list, the
    keys of a dict, the characters of a string. The loop of
    [request_from_date] assigns to dictionaries only, so the list it walks
    is the one it started with. *)
Definition iterate (obj : value) : M (list value) :=
  match obj with
  | VRef a =>
      o ← load a;
      match o with
      | OList elems => mret elems
      | ODict entries => mret ((λ e, VStr e.1) <$> entries)
      end
  | VStr s => mret ((λ c, VStr (String c EmptyString)) <$> list_ascii_of_string s)
  | _ => raise (TypeError "object is not iterable")
  end.

(** *** copy.deepcopy

    [memo] maps the address of an object already met to the address of its
    copy, so sharing and cycles are copied as they are. The copy of a
    container is allocated first (and entered in [memo]), its items are
    copied next and stored in it. Each nesting level costs one level of
    recursion; running out of them raises RecursionError. *)
Fixpoint copy_items {K} (copy : value → gmap addr addr → M (value * gmap addr addr))
    (entries : list (K * value)) (memo : gmap addr addr)
    : M (list (K * value) * gmap addr addr) :=
  match entries with
  | [] => mret ([], memo)
  | (k, v) :: rest =>
      r ← copy v memo;
      rs ← copy_items copy rest r.2;
      mret ((k, r.1) :: rs.1, rs.2)
  end.

Fixpoint deepcopy_memo (limit : nat) (x : value) (memo : gmap addr addr)
    : M (value * gmap addr addr) :=
  match limit with
  | O => raise RecursionError
  | S limit' =>
      match x with
      | VRef a =>
          match memo !! a with
          | Some a' => mret (VRef a', memo)
          | None =>
              o ← load a;
              match o with
              | OList elems =>
                  a' ← alloc (OList []);
                  r ← copy_items (deepcopy_memo limit') ((λ v, (tt, v)) <$> elems)
                                 (<[a:=a']> memo);
                  _ ← save a' (OList (snd <$> r.1));
                  mret (VRef a', r.2)
              | ODict entries =>
                  a' ← alloc (ODict []);
                  r ← copy_items (deepcopy_memo limit') entries (<[a:=a']> memo);
                  _ ← save a' (ODict r.1);
                  mret (VRef a', r.2)
              end
          end
      | _ => mret (x, memo)
      end
  end.

Definition deepcopy (limit : nat) (x : value) : M value :=
  r ← deepcopy_memo limit x ∅;
  mret r.1.

(** Allocates a tree of dictionaries and lists, children first. *)
Fixpoint alloc_json (j : json) : M value :=
  match j with
  | JNull => mret VNone
  | JBool b => mret (VBool b)
  | JInt n => mret (VInt n)
  | JFloat x => mret (VFloat x)
  | JStr s => mret (VStr s)
  | JList elems =>
      vs ← (fix go (l : list json) : M (list value) :=
              match l with
              | [] => mret []
              | e :: l' => v ← alloc_json e; vs ← go l'; mret (v :: vs)
              end) elems;
      a ← alloc (OList vs);
      mret (VRef a)
  | JDict entries =>
      vs ← (fix go (l : list (string * json)) : M (list (string * value)) :=
              match l with
              | [] => mret []
              | (k, e) :: l' => v ← alloc_json e; vs ← go l'; mret ((k, v) :: vs)
              end) entries;
      a ← alloc (ODict vs);
      mret (VRef a)
  end.

(** The tree a value unfolds to, which is what serialising it to JSON reads. *)
Fixpoint reify (limit : nat) (h : heap) (v : value) : result json :=
  match limit with
  | O => Raise RecursionError
  | S limit' =>
      match v with
      | VNone => Ok JNull
      | VBool b => Ok (JBool b)
      | VInt n => Ok (JInt n)
      | VFloat x => Ok (JFloat x)
      | VStr s => Ok (JStr s)
      | VRef a =>
          match h !! a with
          | None => Raise (SystemError "dangling reference")
          | Some (OList elems) =>
              js ← result_mapM (reify limit' h) elems;
              Ok (JList js)
          | Some (ODict entries) =>
              js ← result_mapM (λ e, j ← reify limit' h e.2; Ok (e.1, j)) entries;
              Ok (JDict js)
          end
      end
  end.

(** ** request_from_date *)

(** One turn of the loop [for data in request['input']['data']]. The right
    side of the last assignment is evaluated before its target. *)
Definition specialise_data (time_from time_to : string) (maxcc : float)
    (data : value) : M unit :=
  data_filter ← getitem data "dataFilter";
  time_range ← getitem data_filter "timeRange";
  _ ← setitem time_range "from" (VStr time_from);
  _ ← setitem time_range "to" (VStr time_to);
  cc ← lift (int_of_float (maxcc * float_100)%float);
  data_filter ← getitem data "dataFilter";
  setitem data_filter "maxCloudCoverage" (VInt cc).

Definition request_from_date (limit : nat) (request : value) (date : datetime)
    (maxcc : float) : M value :=
  date_to ← lift (Datetime.add date (Datetime.seconds 1));
  let date_from := date in
  let time_from := Datetime.isoformat date_from +:+ "Z" in
  let time_to := Datetime.isoformat date_to +:+ "Z" in
  request ← deepcopy limit request;
  input ← getitem request "input";
  datas ← getitem input "data";
  datas ← iterate datas;
  _ ← for_each datas (specialise_data time_from time_to maxcc);
  mret request.

(** ** String formatting *)

(** ** Python strings

    A [str] is a sequence of Unicode code points. The model holds it as its
    UTF-8 encoding, one byte per character of a [string]; [code_points]
    decodes it, each code point with the bytes that encode it. A byte that
    is not part of a UTF-8 sequence stands for the lone surrogate
    U+DC00 + byte, as under Python's [surrogateescape], so every string of
    the model is one [str]. *)

Definition has_char (c : ascii) (s : string) : bool :=
  existsb (λ c', bool_decide (c' = c)) (list_ascii_of_string s).

Definition hex_digit (n : N) : ascii :=
  ascii_of_N (if (n <? 10)%N then 48 + n else 87 + n).

Definition hex2 (n : N) : string :=
  String (hex_digit (n / 16)) (String (hex_digit (n mod 16)) EmptyString).

Definition hex4 (n : N) : string := hex2 (n / 256) +:+ hex2 (n mod 256).

Definition continuation (b : N) : bool := ((128 <=? b) && (b <? 192))%N.

(** The second byte of a sequence of three: no overlong form (E0) and no
    surrogate (ED). *)
Definition second_of_3 (b0 b1 : N) : bool :=
  (if b0 =? 224 then (160 <=? b1) && (b1 <? 192)
   else if b0 =? 237 then (128 <=? b1) && (b1 <? 160)
   else continuation b1)%N.

(** The second byte of a sequence of four: no overlong form (F0) and
    nothing above U+10FFFF (F4). *)
Definition second_of_4 (b0 b1 : N) : bool :=
  (if b0 =? 240 then (144 <=? b1) && (b1 <? 192)
   else if b0 =? 244 then (128 <=? b1) && (b1 <? 144)
   else continuation b1)%N.

Fixpoint code_points (s : string) : list (N * string) :=
  match s with
  | EmptyString => []
  | String c0 r0 =>
      let b0 := N_of_ascii c0 in
      let escaped := ((56320 + b0)%N, String c0 EmptyString) :: code_points r0 in
      if (b0 <? 128)%N then (b0, String c0 EmptyString) :: code_points r0
      else if (b0 <? 194)%N then escaped
      else if (b0 <? 224)%N then
        match r0 with
        | String c1 r1 =>
            let b1 := N_of_ascii c1 in
            if continuation b1
            then (((b0 - 192) * 64 + (b1 - 128))%N, String c0 (String c1 EmptyString))
                 :: code_points r1
            else escaped
        | EmptyString => escaped
        end
      else if (b0 <? 240)%N then
        match r0 with
        | String c1 (String c2 r2) =>
            let b1 := N_of_ascii c1 in
            let b2 := N_of_ascii c2 in
            if second_of_3 b0 b1 && continuation b2
            then (((b0 - 224) * 4096 + (b1 - 128) * 64 + (b2 - 128))%N,
                  String c0 (String c1 (String c2 EmptyString)))
                 :: code_points r2
            else escaped
        | _ => escaped
        end
      else if (b0 <? 245)%N then
        match r0 with
        | String c1 (String c2 (String c3 r3)) =>
            let b1 := N_of_ascii c1 in
            let b2 := N_of_ascii c2 in
            let b3 := N_of_ascii c3 in
            if second_of_4 b0 b1 && continuation b2 && continuation b3
            then (((b0 - 240) * 262144 + (b1 - 128) * 4096 + (b2 - 128) * 64
                   + (b3 - 128))%N,
                  String c0 (String c1 (String c2 (String c3 EmptyString))))
                 :: code_points r3
            else escaped
        | _ => escaped
        end
      else escaped
  end.

(** [repr] of a string, one code point at a time; [q] is the quote in use
    and [printable] is [str.isprintable] beyond ASCII. A code point that is
    not printable is written [\xhh], [\uhhhh] or [\Uhhhhhhhh], a printable
    one as it is. *)
Definition repr_char (printable : N → bool) (q : ascii) (cp : N * string) : string :=
  let n := cp.1 in
  if (n =? N_of_ascii q)%N then backslash +:+ String q EmptyString
  else if (n =? 92)%N then backslash +:+ backslash
  else if (n =? 9)%N then backslash +:+ "t"
  else if (n =? 10)%N then backslash +:+ "n"
  else if (n =? 13)%N then backslash +:+ "r"
  else if ((n <? 32) || (n =? 127))%N then backslash +:+ "x" +:+ hex2 n
  else if (n <? 127)%N then cp.2
  else if printable n then cp.2
  else if (n <? 256)%N then backslash +:+ "x" +:+ hex2 n
  else if (n <? 65536)%N then backslash +:+ "u" +:+ hex4 n
  else backslash +:+ "U00" +:+ hex2 (n / 65536) +:+ hex4 (n mod 65536).

(** The quote is the single one, unless the string holds a single quote
    and no double one. *)
Definition repr_str (printable : N → bool) (s : string) : string :=
  let q := if has_char "039" s && negb (has_char "034" s)
           then "034"%char else "039"%char in
  String q EmptyString
  +:+ String.concat EmptyString (repr_char printable q <$> code_points s)
  +:+ String q EmptyString.

(** [str((a, b))] for a pair of strings. *)
Definition str_time_interval (printable : N → bool) (ti : TimeInterval) : string :=
  "(" +:+ repr_str printable ti.1 +:+ ", " +:+ repr_str printable ti.2 +:+ ")".

(** [json.dumps] of a string, with [ensure_ascii] as it is by default: the
    double quote, the backslash and every code point outside the printable
    ASCII range are escaped, a code point above U+FFFF as a surrogate
    pair. *)
Definition json_escape (n : N) : string :=
  if (n =? 34)%N then backslash +:+ dquote
  else if (n =? 92)%N then backslash +:+ backslash
  else if (n =? 10)%N then backslash +:+ "n"
  else if (n =? 13)%N then backslash +:+ "r"
  else if (n =? 9)%N then backslash +:+ "t"
  else if (n =? 8)%N then backslash +:+ "b"
  else if (n =? 12)%N then backslash +:+ "f"
  else if ((32 <=? n) && (n <=? 126))%N then String (ascii_of_N n) EmptyString
  else if (n <? 65536)%N then backslash +:+ "u" +:+ hex4 n
  else backslash +:+ "u" +:+ hex4 (55296 + (n - 65536) / 1024)
       +:+ backslash +:+ "u" +:+ hex4 (56320 + (n - 65536) mod 1024).

Definition json_dumps_str (s : string) : string :=
  dquote +:+ String.concat EmptyString ((λ cp, json_escape cp.1) <$> code_points s)
  +:+ dquote.

(** [json.dumps] of a list of strings, with the default separator. *)
Definition json_dumps (l : list string) : string :=
  "[" +:+ String.concat ", " (json_dumps_str <$> l) +:+ "]".

(** [template.format] with positional [args] and keyword [kwargs], for
    replacement fields that are plain names or empty (filled from [args] in
    turn); doubled braces stand for a
    brace. [field] is the name being read while inside a field. *)
Fixpoint format_go (template : string) (field : option string)
    (args : list string) (kwargs : list (string * string)) : result string :=
  match field, template with
  | None, EmptyString => Ok EmptyString
  | None, String c rest =>
      if bool_decide (c = "{"%char) then
        match rest with
        | String "{"%char rest' =>
            s ← format_go rest' None args kwargs; Ok (String c s)
        | _ => format_go rest (Some EmptyString) args kwargs
        end
      else if bool_decide (c = "}"%char) then
        match rest with
        | String "}"%char rest' =>
            s ← format_go rest' None args kwargs; Ok (String c s)
        | _ => Raise (ValueError "Single '}' encountered in format string")
        end
      else s ← format_go rest None args kwargs; Ok (String c s)
  | Some name, EmptyString => Raise (ValueError "expected '}' before end of string")
  | Some name, String c rest =>
      if bool_decide (c = "}"%char) then
        if bool_decide (name = EmptyString) then
          match args with
          | a :: args' => s ← format_go rest None args' kwargs; Ok (a +:+ s)
          | [] => Raise (IndexError "Replacement index out of range")
          end
        else
          match list_find (λ kv, kv.1 = name) kwargs with
          | Some (_, (_, v)) => s ← format_go rest None args kwargs; Ok (v +:+ s)
          | None => Raise (KeyError name)
          end
      else format_go rest (Some (name +:+ String c EmptyString)) args kwargs
  end.

Definition format (template : string) (args : list string)
    (kwargs : list (string * string)) : result string :=
  format_go template None args kwargs.

(** ** Date discovery and cleaning *)

(** [sorted(dates)] *)
Definition sorted (dates : list datetime) : list datetime := merge_sort Z.le dates.

(** [delta > self.time_difference]: a timedelta is ordered against
    timedeltas only. *)
Definition timedelta_gt (delta : timedelta) (td : time_diff) : result bool :=
  match td with
  | TdTimedelta t => Ok (bool_decide (t < delta))
  | TdInt _ =>
      Raise (TypeError "'>' not supported between instances of 'datetime.timedelta' and 'int'")
  end.

(** [[d2 for d1, d2 in pairs if d2 - d1 > td]] *)
Fixpoint later_dates (pairs : list (datetime * datetime)) (td : time_diff)
    : result (list datetime) :=
  match pairs with
  | [] => Ok []
  | (d1, d2) :: rest =>
      keep ← timedelta_gt (Datetime.sub d2 d1) td;
      kept ← later_dates rest td;
      Ok (if keep : bool then d2 :: kept else kept)
  end.

(** [dates[0]] *)
Definition first_item {A} (l : list A) : result A :=
  match l with
  | x :: _ => Ok x
  | [] => Raise (IndexError "list index out of range")
  end.

Definition get_dates (env : services) (self : SentinelHubProcessingInput)
    (bbox : BBox) (time_interval : TimeInterval) : M (list datetime) :=
  _ ← emit (WfsQuery bbox time_interval (data_source self) (maxcc self));
  dates ← lift (wfs_get_dates env bbox time_interval (data_source self) (maxcc self));
  if decide (length dates = 0%nat) then
    raise (ValueError ("No available images for requested time range: "
                       +:+ str_time_interval (unicode_printable env) time_interval))
  else
    let dates := sorted dates in
    d0 ← lift (first_item dates);
    later ← lift (later_dates (zip (removelast dates) (tail dates))
                              (time_difference self));
    mret ([d0] ++ later).

(** ** The evalscript *)

Definition evalscript_template : string :=
  "
            function setup() {{
                return {{
                    input: [{{
                        bands: {bands},
                        units: " +:+ dquote +:+
  "DN" +:+ dquote +:+
  "
                    }}],
                    output: {{
                        id:" +:+ dquote +:+
  "default" +:+ dquote +:+
  ",
                        bands: {num_bands},
                        sampleType: SampleType.UINT16
                    }}
                }}
            }}

            function updateOutputMetadata(scenes, inputMetadata, outputMetadata) {{
                outputMetadata.userData = {{ " +:+ dquote +:+
  "norm_factor" +:+ dquote +:+
  ":  inputMetadata.normalizationFactor }}
            }}

            function evaluatePixel(sample) {{
                return {samples}
            }}
        ".

Definition generate_evalscript (self : SentinelHubProcessingInput) : result string :=
  samples_items ← result_mapM (λ band, format "sample.{}" [band] []) (all_bands self);
  let samples := String.concat ", " samples_items in
  samples ← format "[{}]" [samples] [];
  format evalscript_template []
    [("bands", json_dumps (all_bands self));
     ("num_bands", pretty (length (all_bands self)));
     ("samples", samples)].

(** ** The output container *)

Inductive meta_value : Type :=
  | MetaStr (s : string)
  | MetaInt (n : Z)
  | MetaFloat (x : float)
  | MetaInterval (ti : TimeInterval)
  | MetaTimeDiff (td : time_diff).

Record EOPatch `{Float32} : Type := {
  timestamp : list datetime;
  patch_bbox : option BBox;
  features : gmap feature array;
  meta_info : gmap string meta_value
}.

(** [EOPatch()] *)
Definition empty_patch `{Float32} : EOPatch :=
  {| timestamp := []; patch_bbox := None; features := ∅; meta_info := ∅ |}.

Definition set_timestamp `{Float32} (dates : list datetime) (p : EOPatch) : EOPatch :=
  {| timestamp := dates; patch_bbox := patch_bbox p;
     features := features p; meta_info := meta_info p |}.

Definition set_bbox `{Float32} (bbox : BBox) (p : EOPatch) : EOPatch :=
  {| timestamp := timestamp p; patch_bbox := Some bbox;
     features := features p; meta_info := meta_info p |}.

(** The container with the array [a] under the feature [ft]. *)
Definition with_feature `{Float32} (ft : feature) (a : array) (p : EOPatch) : EOPatch :=
  {| timestamp := timestamp p; patch_bbox := patch_bbox p;
     features := <[ft:=a]> (features p); meta_info := meta_info p |}.

(** [eopatch[ft] = a]: the container takes an array only under a feature
    type of as many axes as the array has. *)
Definition set_feature `{Float32} (ft : feature) (a : array) (p : EOPatch)
    : result EOPatch :=
  if decide (length (array_shape a) = feature_ndim ft.1) then Ok (with_feature ft a p)
  else
    Raise (ValueError ("Numpy array of " +:+ str_feature_type ft.1
                       +:+ " feature has to have " +:+ pretty (feature_ndim ft.1)
                       +:+ " dimension"
                       +:+ (if decide (1 < feature_ndim ft.1)%nat then "s" else ""))).

(** [eopatch.meta_info[key] = v] *)
Definition set_meta `{Float32} (key : string) (v : meta_value) (p : EOPatch) : EOPatch :=
  {| timestamp := timestamp p; patch_bbox := patch_bbox p;
     features := features p; meta_info := <[key:=v]> (meta_info p) |}.

(** ** execute *)

(** [size_from_resolution]; [list(bbox)] fails when there is no bbox. *)
Definition size_from_resolution (bbox : option BBox) (resolution : float)
    : result (Z * Z) :=
  match bbox with
  | None => Raise (TypeError "'NoneType' object is not iterable")
  | Some b =>
      qx ← float_div (max_x b - min_x b)%float resolution;
      size_x ← int_of_float qx;
      qy ← float_div (max_y b - min_y b)%float resolution;
      size_y ← int_of_float qy;
      Ok (size_x, size_y)
  end.

(** [if self.size is not None: ... elif self.resolution is not None: ...]:
    there is no [else], so with neither of them [size_x] and [size_y] stay
    unbound ([None] here). *)
Definition resolve_size (self : SentinelHubProcessingInput) (bbox : option BBox)
    : result (option (Z * Z)) :=
  match size self with
  | Some xy => Ok (Some xy)
  | None =>
      match resolution self with
      | Some res => xy ← size_from_resolution bbox res; Ok (Some xy)
      | None => Ok None
      end
  end.

(** [l.index(x)]: the first position of [x]. *)
Definition list_index (l : list string) (x : string) : result nat :=
  match list_find (λ y, y = x) l with
  | Some (i, _) => Ok i
  | None => Raise (ValueError "value is not in list")
  end.

(** [meta.get('norm_factor', 0) if meta else 0]: an absent or empty
    dictionary is falsy. *)
Definition norm_factor_of (meta : option (list (string * pynumber))) : pynumber :=
  match meta with
  | Some ((k, v) :: rest) =>
      match list_find (λ kv, kv.1 = "norm_factor") ((k, v) :: rest) with
      | Some (_, (_, x)) => x
      | None => PyInt 0
      end
  | _ => PyInt 0
  end.

(** One turn of the loop over [self.additional_data]. *)
Definition store_additional `{Float32} (self : SentinelHubProcessingInput)
    (images : list (ndarray Z * pynumber)) (dims : list Z)
    (ft : feature) (eopatch : EOPatch) : result EOPatch :=
  let '(f_type, f_name) := ft in
  idx ← list_index (all_bands self) f_name;
  feature_arrays ← result_mapM (λ im, index_last idx (atleast_3d im.1)) images;
  stacked ← asarray feature_arrays;
  reshaped ← reshape (dims ++ [1]) stacked;
  set_feature (f_type, f_name)
    (BoolArray (amap (λ sample, negb (sample =? 0)) reshaped)) eopatch.

(** [for f_type, f_name in self.additional_data: ...] *)
Fixpoint store_all_additional `{Float32} (self : SentinelHubProcessingInput)
    (images : list (ndarray Z * pynumber)) (dims : list Z)
    (fts : list feature) (eopatch : EOPatch) : result EOPatch :=
  match fts with
  | [] => Ok eopatch
  | ft :: rest =>
      eopatch ← store_additional self images dims ft eopatch;
      store_all_additional self images dims rest eopatch
  end.

(** [if self.bands: ...] *)
Definition store_bands `{Float32} (self : SentinelHubProcessingInput)
    (images : list (ndarray Z * pynumber)) (dims : list Z)
    (eopatch : EOPatch) : result EOPatch :=
  match bands self with
  | [] => Ok eopatch
  | _ :: _ =>
      let img_bands := length (bands self) in
      img_arrays ← result_mapM (λ im,
          sliced ← slice_last img_bands im.1;
          Ok (amap (λ x, f32_mul x im.2) (amap f32_of_uint16 sliced))) images;
      stacked ← asarray img_arrays;
      reshaped ← reshape (dims ++ [Z.of_nat img_bands]) stacked;
      match bands_feature self with
      | Some ft => set_feature ft (Float32Array (amap (f32_round 4) reshaped)) eopatch
      | None => Raise (TypeError "an EOPatch is indexed by a feature")
      end
  end.

Definition execute `{Float32} (env : services) (self : SentinelHubProcessingInput)
    (eopatch : option EOPatch) (bbox : option BBox) (time_interval : TimeInterval)
    : M EOPatch :=
  sizes ← lift (resolve_size self bbox);
  let responses := [shr_response env "default" "image/tiff";
                    shr_response env "userdata" "application/json"] in
  (* the arguments of shr.body, in the order they are evaluated *)
  bb ← match bbox with
       | Some b => mret b
       | None => raise (AttributeError "'NoneType' object has no attribute 'crs'")
       end;
  let request_bounds := shr_bounds env (crs_opengis_string bb) (bbox_list bb) in
  let request_data := [shr_data env (ds_api_identifier (data_source self))] in
  (* size_x is read here for the first time *)
  xy ← match sizes with
       | Some xy => mret xy
       | None => raise (UnboundLocalError "size_x")
       end;
  let '(size_x, size_y) := xy : Z * Z in
  let request_output := shr_output env size_x size_y responses in
  evalscript ← lift (generate_evalscript self);
  request ← alloc_json (shr_body env request_bounds request_data request_output evalscript);
  (* request_args (url, headers, cache folder, POST, tar) are handed to every
     DownloadRequest as they are *)
  dates ← get_dates env self bb time_interval;
  requests ← mapM (λ date, request_from_date (recursion_limit env) request date (maxcc self))
                  dates;
  (* client.download(requests): the payloads leave the process serialised *)
  payloads ← (λ w, (w, result_mapM (reify (recursion_limit env) (store w)) requests));
  _ ← emit (Download payloads);
  images ← lift (client_download env payloads);
  let images := (λ r, (default_tif r, norm_factor_of (userdata_json r))) <$> images in
  let eopatch := default empty_patch eopatch in
  let eopatch := set_timestamp dates eopatch in
  let eopatch := set_bbox bb eopatch in
  let dims := [Z.of_nat (length dates); size_y; size_x] in
  eopatch ← lift (store_all_additional self images dims (additional_data self) eopatch);
  eopatch ← lift (store_bands self images dims eopatch);
  let eopatch := set_meta "service_type" (MetaStr "processing") eopatch in
  let eopatch := set_meta "size_x" (MetaInt size_x) eopatch in
  let eopatch := set_meta "size_y" (MetaInt size_y) eopatch in
  let eopatch := set_meta "maxcc" (MetaFloat (maxcc self)) eopatch in
  let eopatch := set_meta "time_interval" (MetaInterval time_interval) eopatch in
  let eopatch := set_meta "time_difference" (MetaTimeDiff (time_difference self)) eopatch in
  mret eopatch.

(** ** A concrete setting

    Services and inputs on which the definitions above can be run: request
    builders that produce the dictionaries of [sentinelhub_request], a WFS
    answer and a download client given as data, and 32-bit floats kept as
    the expressions that numpy would evaluate. *)
Module Example.

Inductive f32_expr : Type :=
  | AsFloat32 (sample : Z)
  | Times (x : f32_expr) (factor : pynumber)
  | Rounded (decimals : Z) (x : f32_expr).

Global Instance symbolic_float32 : Float32 :=
  {| f32 := f32_expr; f32_of_uint16 := AsFloat32; f32_mul := Times; f32_round := Rounded |}.

Definition response_dict (identifier response_format : string) : json :=
  JDict [("identifier", JStr identifier);
         ("format", JDict [("type", JStr response_format)])].

Definition bounds_dict (crs : string) (bbox : list float) : json :=
  JDict [("properties", JDict [("crs", JStr crs)]);
         ("bbox", JList (JFloat <$> bbox))].

Definition data_dict (data_type : string) : json :=
  JDict [("type", JStr data_type);
         ("dataFilter",
          JDict [("timeRange", JDict [("from", JStr EmptyString);
                                      ("to", JStr EmptyString)])])].

Definition output_dict (size_x size_y : Z) (responses : list json) : json :=
  JDict [("width", JInt size_x); ("height", JInt size_y);
         ("responses", JList responses)].

Definition body_dict (request_bounds : json) (request_data : list json)
    (request_output : json) (evalscript : string) : json :=
  JDict [("input", JDict [("bounds", request_bounds); ("data", JList request_data)]);
         ("evalscript", JStr evalscript);
         ("output", request_output)].

(** A WFS that finds [dates] and a download client that returns [images]. *)
(** The rows of the Unicode database for U+0080 to U+00FF: the C1 controls,
    the no-break space and the soft hyphen are not printable. The examples
    hold no code point beyond them. *)
Definition latin1_printable (n : N) : bool :=
  negb ((n <=? 160) || (n =? 173))%N.

Definition env_with (dates : list datetime) (images : list response) : services :=
  {| wfs_get_dates := λ _ _ _ _, Ok dates;
     client_download := λ _, Ok images;
     shr_response := response_dict;
     shr_bounds := bounds_dict;
     shr_data := data_dict;
     shr_output := output_dict;
     shr_body := body_dict;
     recursion_limit := 1000;
     unicode_printable := latin1_printable |}.

Definition S2L1C : DataSource :=
  {| ds_bands := ["B01"; "B02"; "B03"; "B04"; "B05"; "B06"; "B07"; "B08"; "B8A";
                  "B09"; "B10"; "B11"; "B12"];
     ds_api_identifier := "S2L1C" |}.

Definition bbox : BBox :=
  {| min_x := 14%float; min_y := 45.8%float; max_x := 14.2%float; max_y := 46%float;
     crs_opengis_string := "http://www.opengis.net/def/crs/EPSG/0/4326" |}.

Definition january : TimeInterval := ("2020-01-01", "2020-01-31").

(** [SentinelHubProcessingInput(S2L1C, size=(2, 1), bands_feature=(DATA, 'BANDS'),
    bands=bands, additional_data=masks, time_difference=td)] *)
Definition task (band_names : option (list string)) (masks : option (list feature))
    (td : time_diff) : SentinelHubProcessingInput :=
  {| data_source := S2L1C; size := Some (2, 1); resolution := None;
     bands_feature := Some (DATA, "BANDS"); bands_arg := band_names;
     additional_data_arg := masks; maxcc := 1%float; time_difference := td;
     cache_folder := None; max_threads := 5 |}.

(** The constructor called with its defaults, but for the size. *)
Definition default_task : SentinelHubProcessingInput :=
  {| data_source := S2L1C; size := Some (2, 1); resolution := None;
     bands_feature := None; bands_arg := None; additional_data_arg := None;
     maxcc := 1%float; time_difference := TdInt (-1);
     cache_folder := None; max_threads := 5 |}.

Definition start : world := {| store := []; log := [] |}.

Definition day (n : Z) : datetime := Datetime.make 2020 1 n 10 0 0.

(** Three acquisitions five seconds apart. *)
Definition close_dates : list datetime :=
  [day 1; day 1 + Datetime.seconds 5; day 1 + Datetime.seconds 10].

(** A decoded image of one row and two columns with three channels. *)
Definition image3 (a b c d e f : Z) : ndarray Z :=
  {| shape := [1; 2; 3]%nat; items := [a; b; c; d; e; f] |}.

(** A decoded image of one row and two columns with a single channel, which
    the decoder returns as a two-dimensional array. *)
Definition image1 (a b : Z) : ndarray Z :=
  {| shape := [1; 2]%nat; items := [a; b] |}.

Definition with_factor (img : ndarray Z) (factor : pynumber) : response :=
  {| default_tif := img; userdata_json := Some [("norm_factor", factor)] |}.

(** A request body as [execute] builds it, and the world it is allocated in. *)
Definition template : json :=
  body_dict (bounds_dict (crs_opengis_string bbox) (bbox_list bbox))
    [data_dict "S2L1C"]
    (output_dict 2 1 [response_dict "default" "image/tiff";
                      response_dict "userdata" "application/json"])
    "return [sample.B04]".

Definition template_world : world := (alloc_json template start).1.

Definition template_ref : value :=
  match (alloc_json template start).2 with
  | Ok v => v
  | Raise _ => VNone
  end.

(** [request['input']['data'][0]['dataFilter']] *)
Definition first_data_filter (request : value) : M value :=
  input ← getitem request "input";
  datas ← getitem input "data";
  datas ← iterate datas;
  data ← lift (first_item datas);
  getitem data "dataFilter".

(** The field [field] of the time range of the request specialised for
    [date] from the template. *)
Definition specialised_time (date : datetime) (maxcc : float) (field : string)
    : result value :=
  ((request ← request_from_date 1000 template_ref date maxcc;
    data_filter ← first_data_filter request;
    time_range ← getitem data_filter "timeRange";
    getitem time_range field) template_world).2.

(** The cloud coverage of the request specialised for [date]. *)
Definition specialised_coverage (date : datetime) (maxcc : float) : result value :=
  ((request ← request_from_date 1000 template_ref date maxcc;
    data_filter ← first_data_filter request;
    getitem data_filter "maxCloudCoverage") template_world).2.

End Example.

(** ** Definitions used to state the properties *)

(** The date-cleaning rule as the specification words it: after the first
    date, a date is kept when its gap to the previously kept date exceeds
    the threshold. *)
Fixpoint spec_keep_from (last : datetime) (rest : list datetime) (gap : timedelta)
    : list datetime :=
  match rest with
  | [] => []
  | d :: rest' =>
      if bool_decide (gap < d - last) then d :: spec_keep_from d rest' gap
      else spec_keep_from last rest' gap
  end.

Definition spec_select_dates (dates : list datetime) (gap : timedelta) : list datetime :=
  match sorted dates with
  | [] => []
  | d0 :: rest => d0 :: spec_keep_from d0 rest gap
  end.

(** What the comprehension of [get_dates] computes on a sorted list whose
    head is [prev]: each date is compared with the date just before it. *)
Fixpoint keep_adjacent (prev : datetime) (rest : list datetime) (gap : timedelta)
    : list datetime :=
  match rest with
  | [] => []
  | d :: rest' =>
      if bool_decide (gap < d - prev) then d :: keep_adjacent d rest' gap
      else keep_adjacent d rest' gap
  end.

(** The text of the evalscript around its three holes, braces as the
    remote service reads them. *)
Definition script_until_bands : string :=
  "
            function setup() {
                return {
                    input: [{
                        bands: ".

Definition script_until_count : string :=
  ",
                        units: " +:+ dquote +:+ "DN" +:+ dquote +:+ "
                    }],
                    output: {
                        id:" +:+ dquote +:+ "default" +:+ dquote +:+ ",
                        bands: ".

Definition script_until_samples : string :=
  ",
                        sampleType: SampleType.UINT16
                    }
                }
            }

            function updateOutputMetadata(scenes, inputMetadata, outputMetadata) {
                outputMetadata.userData = { " +:+ dquote +:+ "norm_factor" +:+ dquote +:+ ":  inputMetadata.normalizationFactor }
            }

            function evaluatePixel(sample) {
                return ".

Definition script_end : string :=
  "
            }
        ".

(** A string of printable ASCII characters other than the double quote, the
    single quote and the backslash, such as a band name or a date. *)
Definition plain_char (c : ascii) : bool :=
  let n := N_of_ascii c in
  ((32 <=? n) && (n <=? 126) && negb (n =? 34) && negb (n =? 39) && negb (n =? 92))%N.

Definition plain_ascii (s : string) : bool :=
  forallb plain_char (list_ascii_of_string s).

(** The length of an array along its first axis, the date axis of the
    arrays that [execute] stores. *)
Definition date_axis `{Float32} (a : array) : option nat := head (array_shape a).

(** The dictionary at [a] holds [v] under the key [k]. *)
Definition has_key (h : heap) (a : addr) (k : string) (v : value) : Prop :=
  ∃ entries, h !! a = Some (ODict entries) ∧ dict_get entries k = Some v.

(** A data source of a request whose time filter runs from [time_from] to
    [time_to] and whose cloud coverage is capped at [cc] percent. *)
Definition specialised (h : heap) (data : value) (time_from time_to : string)
    (cc : Z) : Prop :=
  ∃ d f t,
    data = VRef d
    ∧ has_key h d "dataFilter" (VRef f)
    ∧ has_key h f "timeRange" (VRef t)
    ∧ has_key h t "from" (VStr time_from)
    ∧ has_key h t "to" (VStr time_to)
    ∧ has_key h f "maxCloudCoverage" (VInt cc).

(** [round(x)] for a float, as the specification words the percentage:
    to the nearest integer, a tie to the even one. *)
Definition spec_round (x : float) : result Z :=
  match Prim2SF x with
  | S754_zero _ => Ok 0
  | S754_finite s m e =>
      let a :=
        if 0 <=? e then Z.shiftl (Z.pos m) e
        else
          let q := Z.shiftr (Z.pos m) (- e) in
          let twice_rest := 2 * (Z.pos m - Z.shiftl q (- e)) in
          let one := Z.shiftl 1 (- e) in
          if one <? twice_rest then q + 1
          else if twice_rest <? one then q
          else if Z.even q then q else q + 1 in
      Ok (if s then - a else a)
  | S754_infinity _ => Raise (OverflowError "cannot convert float infinity to integer")
  | S754_nan => Raise (ValueError "cannot convert float NaN to integer")
  end.

(** Values and objects that refer to nothing below the address [base]. *)
Definition fresh_value (base : nat) (v : value) : Prop :=
  match v with
  | VRef a => (base ≤ a)%nat
  | _ => True
  end.

Definition fresh_object (base : nat) (o : object) : Prop :=
  match o with
  | ODict entries => Forall (λ e, fresh_value base e.2) entries
  | OList elems => Forall (fresh_value base) elems
  end.

(** The store [h] is the store [h0] followed by objects that refer to
    each other only. *)
Definition grown_from (h0 h : heap) : Prop :=
  h0 `prefix_of` h
  ∧ ∀ a o, (length h0 ≤ a)%nat → h !! a = Some o → fresh_object (length h0) o.

(** Two stores that hold the same objects but for the values found under
    the keys ["from"] and ["to"] of their dictionaries. *)
Definition time_key (k : string) : Prop := k = "from" ∨ k = "to".

Definition same_but_time_object (o1 o2 : object) : Prop :=
  match o1, o2 with
  | ODict e1, ODict e2 =>
      Forall2 (λ x y : string * value, x.1 = y.1 ∧ (x.2 = y.2 ∨ time_key x.1)) e1 e2
  | OList l1, OList l2 => l1 = l2
  | _, _ => False
  end.

Definition same_but_time (h1 h2 : heap) : Prop :=
  Forall2 same_but_time_object h1 h2.

(** [m] leaves the objects of [h0] alone: run in a store grown from [h0] it
    ends in a store grown from [h0], calls no service, and its result, when
    there is one, satisfies [post]. *)
Definition keeps {A} (h0 : heap) (post : A → Prop) (m : M A) : Prop :=
  ∀ w, grown_from h0 (store w) →
       grown_from h0 (store (m w).1)
       ∧ log (m w).1 = log w
       ∧ ∀ a, (m w).2 = Ok a → post a.

(** Two worlds that differ in time fields only, and two computations that
    keep them so while returning the same result. *)
Definition related (w1 w2 : world) : Prop :=
  same_but_time (store w1) (store w2) ∧ log w1 = log w2.

Definition lockstep {A} (m1 m2 : M A) : Prop :=
  ∀ w1 w2, related w1 w2 →
           related (m1 w1).1 (m2 w2).1 ∧ (m1 w1).2 = (m2 w2).2.

(** Every copy recorded in the memo lies at or above [base]. *)
Definition memo_fresh (base : nat) (memo : gmap nat nat) : Prop :=
  map_Forall (λ _ a', (base ≤ a')%nat) memo.

(** Induction on request trees, through their lists. *)
Fixpoint json_rect' (P : json → Prop)
    (Hnull : P JNull) (Hbool : ∀ b, P (JBool b)) (Hint : ∀ n, P (JInt n))
    (Hfloat : ∀ x, P (JFloat x)) (Hstr : ∀ s, P (JStr s))
    (Hlist : ∀ l, Forall P l → P (JList l))
    (Hdict : ∀ l, Forall (λ e, P e.2) l → P (JDict l))
    (j : json) : P j :=
  match j with
  | JNull => Hnull
  | JBool b => Hbool b
  | JInt n => Hint n
  | JFloat x => Hfloat x
  | JStr s => Hstr s
  | JList l =>
      Hlist l ((fix go (l : list json) : Forall P l :=
                  match l with
                  | [] => Forall_nil_2 P
                  | e :: l' =>
                      Forall_cons_2 P e l'
                        (json_rect' P Hnull Hbool Hint Hfloat Hstr Hlist Hdict e) (go l')
                  end) l)
  | JDict l =>
      Hdict l ((fix go (l : list (string * json)) : Forall (λ e, P e.2) l :=
                  match l with
                  | [] => Forall_nil_2 _
                  | e :: l' =>
                      Forall_cons_2 (λ e, P e.2) e l'
                        (json_rect' P Hnull Hbool Hint Hfloat Hstr Hlist Hdict e.2) (go l')
                  end) l)
  end.

(** The values the loop writes, and the entries it cannot change. *)
Definition loop_stable (time_from time_to : string) (cc : Z)
    (k : string) (v : value) : Prop :=
  (k = "from" → v = VStr time_from)
  ∧ (k = "to" → v = VStr time_to)
  ∧ (k = "maxCloudCoverage" → v = VInt cc).

Definition writes_only (time_from time_to : string) (cc : Z) (h h' : heap) : Prop :=
  (∀ a k v, loop_stable time_from time_to cc k v →
     has_key h a k v → has_key h' a k v)
  ∧ (∀ a elems, h !! a = Some (OList elems) → h' !! a = Some (OList elems)).

(** A decoded image of [h] rows, [w] columns and [c] channels. *)
Definition three_dimensional (h w c : nat) (img : ndarray Z) : Prop :=
  shape img = [h; w; c] ∧ length (items img) = (h * w * c)%nat.

(** The samples of the first [k] channels of every pixel, pixel by pixel. *)
Definition leading_channels (h w c k : nat) (img : ndarray Z) : list Z :=
  concat (take k <$> chunks (h * w) c (items img)).

(** The sample of channel [idx] of every pixel, pixel by pixel. *)
Definition channel (h w c idx : nat) (img : ndarray Z) : list Z :=
  omap (λ row, row !! idx) (chunks (h * w) c (items img)).

(** ** Requests as trees

    A request built from a JSON body, and every deep copy of it, is a tree
    in the store: each dictionary and list is reached through one reference
    only. [tree] is such a request with the address of every container. *)

Inductive tree : Type :=
  | TNull
  | TBool (b : bool)
  | TInt (n : Z)
  | TFloat (x : float)
  | TStr (s : string)
  | TList (a : nat) (elems : list tree)
  | TDict (a : nat) (entries : list (string * tree)).

(** The value that refers to the tree. *)
Definition root (t : tree) : value :=
  match t with
  | TNull => VNone
  | TBool b => VBool b
  | TInt n => VInt n
  | TFloat x => VFloat x
  | TStr s => VStr s
  | TList a _ => VRef a
  | TDict a _ => VRef a
  end.

Definition root_entry (e : string * tree) : string * value := (e.1, root e.2).

(** The tree without its addresses. *)
Fixpoint erase (t : tree) : json :=
  match t with
  | TNull => JNull
  | TBool b => JBool b
  | TInt n => JInt n
  | TFloat x => JFloat x
  | TStr s => JStr s
  | TList _ elems => JList (erase <$> elems)
  | TDict _ entries => JDict ((λ e, (e.1, erase e.2)) <$> entries)
  end.

(** The addresses of its containers, parents first. *)
Fixpoint addrs (t : tree) : list nat :=
  match t with
  | TList a elems => a :: concat (addrs <$> elems)
  | TDict a entries => a :: concat ((λ e, addrs e.2) <$> entries)
  | _ => []
  end.

(** The store holds the tree: every container is at its address, with the
    roots of its children as items. *)
Fixpoint in_heap (h : heap) (t : tree) : Prop :=
  match t with
  | TList a elems =>
      h !! a = Some (OList (root <$> elems))
      ∧ foldr (λ e P, in_heap h e ∧ P) True elems
  | TDict a entries =>
      h !! a = Some (ODict (root_entry <$> entries))
      ∧ foldr (λ e P, in_heap h e.2 ∧ P) True entries
  | _ => True
  end.

(** Induction on trees, through their lists. *)
Fixpoint tree_rect' (P : tree → Prop)
    (Hnull : P TNull) (Hbool : ∀ b, P (TBool b)) (Hint : ∀ n, P (TInt n))
    (Hfloat : ∀ x, P (TFloat x)) (Hstr : ∀ s, P (TStr s))
    (Hlist : ∀ a l, Forall P l → P (TList a l))
    (Hdict : ∀ a l, Forall (λ e, P e.2) l → P (TDict a l))
    (t : tree) : P t :=
  match t with
  | TNull => Hnull
  | TBool b => Hbool b
  | TInt n => Hint n
  | TFloat x => Hfloat x
  | TStr s => Hstr s
  | TList a l =>
      Hlist a l ((fix go (l : list tree) : Forall P l :=
                    match l with
                    | [] => Forall_nil_2 P
                    | e :: l' =>
                        Forall_cons_2 P e l'
                          (tree_rect' P Hnull Hbool Hint Hfloat Hstr Hlist Hdict e) (go l')
                    end) l)
  | TDict a l =>
      Hdict a l ((fix go (l : list (string * tree)) : Forall (λ e, P e.2) l :=
                    match l with
                    | [] => Forall_nil_2 _
                    | e :: l' =>
                        Forall_cons_2 (λ e, P e.2) e l'
                          (tree_rect' P Hnull Hbool Hint Hfloat Hstr Hlist Hdict e.2)
                          (go l')
                    end) l)
  end.

(** *** request_from_date on a tree

    What the statements of [request_from_date] do to a request that shares
    nothing: [d[k]] reads the first entry under [k], [d[k] = x] replaces it
    in place or appends one, and a change made through [d[k]] is a change of
    that entry. *)

Fixpoint entries_get {A} (k : string) (es : list (string * A)) : option A :=
  match es with
  | [] => None
  | (k', x) :: rest => if decide (k' = k) then Some x else entries_get k rest
  end.

Fixpoint entries_set {A} (k : string) (x : A) (es : list (string * A))
    : list (string * A) :=
  match es with
  | [] => [(k, x)]
  | (k', x') :: rest =>
      if decide (k' = k) then (k', x) :: rest else (k', x') :: entries_set k x rest
  end.

Fixpoint entries_update {A} (k : string) (f : A → A) (es : list (string * A))
    : list (string * A) :=
  match es with
  | [] => []
  | (k', x) :: rest =>
      if decide (k' = k) then (k', f x) :: rest else (k', x) :: entries_update k f rest
  end.

Definition json_set (k : string) (x : json) (j : json) : json :=
  match j with
  | JDict es => JDict (entries_set k x es)
  | _ => j
  end.

Definition json_update (k : string) (f : json → json) (j : json) : json :=
  match j with
  | JDict es => JDict (entries_update k f es)
  | _ => j
  end.

Definition json_each (f : json → json) (j : json) : json :=
  match j with
  | JList l => JList (f <$> l)
  | _ => j
  end.

(** One turn of the loop: [data['dataFilter']['timeRange']] gets its two
    ends, then [data['dataFilter']] its cloud coverage. *)
Definition json_specialise (time_from time_to : string) (cc : Z) : json → json :=
  json_update "dataFilter"
    (λ data_filter,
       json_set "maxCloudCoverage" (JInt cc)
         (json_update "timeRange"
            (λ time_range,
               json_set "to" (JStr time_to) (json_set "from" (JStr time_from) time_range))
            data_filter)).

(** The request of one date: the body with every element of
    [body['input']['data']] specialised. *)
Definition json_request_from_date (date : datetime) (cc : Z) : json → json :=
  json_update "input"
    (json_update "data"
       (json_each
          (json_specialise (Datetime.isoformat date +:+ "Z")
             (Datetime.isoformat (date + Datetime.seconds 1) +:+ "Z") cc))).

Definition tree_set (k : string) (x : tree) (t : tree) : tree :=
  match t with
  | TDict a es => TDict a (entries_set k x es)
  | _ => t
  end.

Definition tree_update (k : string) (f : tree → tree) (t : tree) : tree :=
  match t with
  | TDict a es => TDict a (entries_update k f es)
  | _ => t
  end.

Definition tree_each (f : tree → tree) (t : tree) : tree :=
  match t with
  | TList a l => TList a (f <$> l)
  | _ => t
  end.

Definition tree_specialise (time_from time_to : string) (cc : Z) : tree → tree :=
  tree_update "dataFilter"
    (λ data_filter,
       tree_set "maxCloudCoverage" (TInt cc)
         (tree_update "timeRange"
            (λ time_range,
               tree_set "to" (TStr time_to) (tree_set "from" (TStr time_from) time_range))
            data_filter)).

(** The store went from [h] to [h'] while the tree [t] became [t']: [t']
    is in [h'] at the root of [t], within the addresses of [t], and
    nothing outside them changed. *)
Definition evolves (h h' : heap) (t t' : tree) : Prop :=
  in_heap h' t'
  ∧ root t' = root t
  ∧ addrs t' `sublist_of` addrs t
  ∧ ∀ a, a ∉ addrs t → h' !! a = h !! a.

(** Between the worlds [w] and [w'] the trees [src] were deep-copied to
    [dst]: the copies are equal trees at new addresses, the objects that
    were in the store are as they were, and the memo has grown by addresses
    of [src] only. *)
Definition copied (w w' : world) (memo memo' : gmap nat nat) (src dst : list tree)
    : Prop :=
  erase <$> dst = erase <$> src
  ∧ Forall (in_heap (store w')) dst
  ∧ NoDup (concat (addrs <$> dst))
  ∧ (∀ a, a ∈ concat (addrs <$> dst) → (length (store w) ≤ a < length (store w'))%nat)
  ∧ (∀ a, memo' !! a ≠ memo !! a → a ∈ concat (addrs <$> src))
  ∧ (∀ a, (a < length (store w))%nat → store w' !! a = store w !! a)
  ∧ (length (store w) ≤ length (store w'))%nat
  ∧ log w' = log w.

(** Between the worlds [w] and [w'] the trees [ts] were allocated: they are
    in the store at new addresses, each container at one of its own, after
    the objects that were there. *)
Definition allocated (w w' : world) (ts : list tree) : Prop :=
  Forall (in_heap (store w')) ts
  ∧ NoDup (concat (addrs <$> ts))
  ∧ (∀ a, a ∈ concat (addrs <$> ts) → (length (store w) ≤ a < length (store w'))%nat)
  ∧ store w `prefix_of` store w'
  ∧ log w' = log w.

(** *** Requests that can be specialised *)

(** The levels of recursion that copying or serialising a request takes:
    one for a scalar, one more than its deepest item for a container. *)
Fixpoint json_depth (j : json) : nat :=
  match j with
  | JList l => S (foldr (λ e n, Nat.max (json_depth e) n) 0%nat l)
  | JDict es => S (foldr (λ e n, Nat.max (json_depth e.2) n) 0%nat es)
  | _ => 1%nat
  end.

Definition json_get (k : string) (j : json) : option json :=
  match j with
  | JDict es => entries_get k es
  | _ => None
  end.

(** [data['dataFilter']['timeRange']] is a dictionary. *)
Definition specialisable (data : json) : bool :=
  match json_get "dataFilter" data with
  | Some data_filter =>
      match json_get "timeRange" data_filter with
      | Some (JDict _) => true
      | _ => false
      end
  | None => false
  end.

(** [body['input']['data']] is a list of elements that can be specialised,
    which is what [shr.body] builds from [shr.data] elements. *)
Definition well_formed_body (body : json) : bool :=
  match json_get "input" body with
  | Some input =>
      match json_get "data" input with
      | Some (JList datas) => forallb specialisable datas
      | _ => false
      end
  | None => false
  end.
(** * Properties *)

(** Unfolds the monadic plumbing of [M]. *)
Ltac msimpl :=
  repeat (progress (unfold mbind, M_mbind, M_bind, mret, M_mret, M_ret,
                      emit, lift, raise in *;
                    cbn beta iota)).

(** ** Date cleaning *)

Lemma zip_removelast_tail (d0 : Z) (rest : list Z) :
  zip (removelast (d0 :: rest)) (tail (d0 :: rest))
  = match rest with
    | [] => []
    | d :: rest' => (d0, d) :: zip (removelast (d :: rest')) (tail (d :: rest'))
    end.
Proof. destruct rest; reflexivity. Qed.

Lemma later_dates_timedelta (gap : Z) (rest : list Z) (d0 : Z) :
  later_dates (zip (removelast (d0 :: rest)) (tail (d0 :: rest))) (TdTimedelta gap)
  = Ok (keep_adjacent d0 rest gap).
Proof.
  revert d0. induction rest as [|d rest IH]; intros d0; [reflexivity|].
  rewrite zip_removelast_tail. cbn [later_dates keep_adjacent timedelta_gt].
  unfold Datetime.sub. cbn [mbind result_mbind result_bind].
  rewrite IH. cbn. reflexivity.
Qed.

Lemma keep_adjacent_subseteq gap rest prev :
  keep_adjacent prev rest gap ⊆ rest.
Proof.
  revert prev. induction rest as [|d rest IH]; intros prev; cbn; [done|].
  specialize (IH d). intros x Hx. case_bool_decide.
  - apply elem_of_cons in Hx as [->|Hx]; [by left | right; by apply IH].
  - right. by apply IH.
Qed.

Lemma keep_adjacent_sublist gap rest prev :
  sublist (keep_adjacent prev rest gap) rest.
Proof.
  revert prev. induction rest as [|d rest IH]; intros prev; cbn; [constructor|].
  case_bool_decide; [apply sublist_skip | apply sublist_cons]; apply IH.
Qed.

Lemma keep_adjacent_iff gap rest prev i (d1 d2 : Z) :
  StronglySorted Z.lt (prev :: rest) →
  (prev :: rest) !! i = Some d1 →
  (prev :: rest) !! S i = Some d2 →
  d2 ∈ keep_adjacent prev rest gap ↔ gap < d2 - d1.
Proof.
  revert prev i. induction rest as [|d rest IH]; intros prev i Hs H1 H2.
  { destruct i; discriminate. }
  apply StronglySorted_cons in Hs as [Hall Hs].
  pose proof Hs as Hs'. apply StronglySorted_cons in Hs' as [Hall' _].
  assert (Hnot : d ∉ keep_adjacent d rest gap).
  { intros Hin. apply keep_adjacent_subseteq in Hin.
    rewrite Forall_forall in Hall'. specialize (Hall' _ Hin). lia. }
  destruct i as [|i]; cbn in H1, H2.
  - simplify_eq. cbn. case_bool_decide; [split; [done | by left]|]. split; [done | lia].
  - assert (d < d2).
    { rewrite Forall_forall in Hall'. apply Hall'. by eapply list_elem_of_lookup_2. }
    rewrite <- (IH d i Hs H1 H2). cbn. case_bool_decide; [|done].
    rewrite elem_of_cons. split; [intros [?|?]; [lia|done] | auto].
Qed.

Lemma keep_adjacent_gaps gap rest prev last :
  last ≤ prev →
  StronglySorted Z.lt (prev :: rest) →
  Sorted (λ a b, gap < b - a) (keep_adjacent prev rest gap)
  ∧ HdRel (λ a b, gap < b - a) last (keep_adjacent prev rest gap).
Proof.
  revert prev last. induction rest as [|d rest IH]; intros prev last Hle Hs.
  { cbn. split; constructor. }
  apply StronglySorted_cons in Hs as [Hall Hs].
  assert (prev < d) by (by apply Forall_cons in Hall as [? _]).
  cbn. case_bool_decide.
  - destruct (IH d d ltac:(lia) Hs) as [? ?]. split; constructor; [done|done|lia].
  - apply IH; [lia | done].
Qed.

Lemma keep_adjacent_StronglySorted gap rest prev :
  StronglySorted Z.lt (prev :: rest) →
  StronglySorted Z.lt (prev :: keep_adjacent prev rest gap).
Proof.
  revert prev. induction rest as [|d rest IH]; intros prev Hs; [done|].
  apply StronglySorted_cons in Hs as [Hall Hs].
  apply StronglySorted_cons. split.
  - rewrite Forall_forall in Hall |- *. intros x Hx.
    apply Hall. by apply (keep_adjacent_subseteq gap (d :: rest) prev).
  - specialize (IH d Hs). cbn. case_bool_decide; [done|].
    by apply StronglySorted_cons in IH as [_ ?].
Qed.

Lemma sorted_StronglySorted_lt (dates : list Z) :
  NoDup dates → StronglySorted Z.lt (sorted dates).
Proof.
  intros Hnd. unfold sorted.
  assert (Hs : StronglySorted Z.le (merge_sort Z.le dates))
    by apply (StronglySorted_merge_sort Z.le).
  assert (Hnd' : NoDup (merge_sort Z.le dates))
    by (by rewrite merge_sort_Permutation).
  induction Hs as [|x l Hs IH Hall]; [constructor|].
  apply NoDup_cons in Hnd' as [Hx Hnd']. constructor; [by apply IH|].
  rewrite Forall_forall in Hall |- *. intros y Hy.
  specialize (Hall y Hy). assert (x ≠ y) by (intros ->; done). lia.
Qed.

Lemma get_dates_timedelta (env : services)
    self bbox ti w dates gap :
  wfs_get_dates env bbox ti (data_source self) (maxcc self) = Ok dates →
  dates ≠ [] →
  time_difference self = TdTimedelta gap →
  ∃ d0 rest,
    sorted dates = d0 :: rest
    ∧ get_dates env self bbox ti w
      = ({| store := store w;
            log := log w ++ [WfsQuery bbox ti (data_source self) (maxcc self)] |},
         Ok (d0 :: keep_adjacent d0 rest gap)).
Proof.
  intros Hwfs Hne Htd.
  destruct (sorted dates) as [|d0 rest] eqn:Hsorted.
  { exfalso. apply Hne. apply Permutation_nil_r.
    rewrite <- Hsorted. unfold sorted. by rewrite merge_sort_Permutation. }
  exists d0, rest. split; [done|].
  unfold get_dates. msimpl. rewrite Hwfs.
  destruct (decide (length dates = 0%nat)) as [Hlen|_].
  { destruct dates; [done | discriminate]. }
  msimpl. rewrite Hsorted, Htd. cbn [first_item].
  by rewrite later_dates_timedelta.
Qed.

(** C1, as amended: with a timedelta threshold, [get_dates] keeps the
    earliest date, and keeps each later date exactly when its gap to the
    date just before it in the sorted list (kept or not) exceeds the
    threshold; the output is strictly ascending and every kept date is more
    than the threshold after the kept date before it. *)
Theorem get_dates_adjacent_gap (env : services)
    self bbox ti w dates gap :
  wfs_get_dates env bbox ti (data_source self) (maxcc self) = Ok dates →
  dates ≠ [] →
  NoDup dates →
  time_difference self = TdTimedelta gap →
  ∃ out,
    (get_dates env self bbox ti w).2 = Ok out
    ∧ (∃ d0, out !! 0%nat = Some d0 ∧ d0 ∈ dates ∧ ∀ d, d ∈ dates → d0 ≤ d)
    ∧ (∀ i d1 d2,
         sorted dates !! i = Some d1 → sorted dates !! S i = Some d2 →
         d2 ∈ out ↔ gap < d2 - d1)
    ∧ sublist out (sorted dates)
    ∧ StronglySorted Z.lt out
    ∧ Sorted (λ a b, gap < b - a) out.
Proof.
  intros Hwfs Hne Hnd Htd.
  destruct (get_dates_timedelta env self bbox ti w dates gap Hwfs Hne Htd)
    as (d0 & rest & Hsorted & Hrun).
  pose proof (sorted_StronglySorted_lt dates Hnd) as Hs. rewrite Hsorted in Hs.
  assert (Hperm : d0 :: rest ≡ₚ dates)
    by (rewrite <- Hsorted; apply merge_sort_Permutation).
  exists (d0 :: keep_adjacent d0 rest gap). rewrite Hrun, Hsorted.
  split; [done|]. split; [|split; [|split; [|split]]].
  - exists d0. split; [done|]. split.
    + rewrite <- Hperm. by left.
    + intros d Hd. rewrite <- Hperm in Hd.
      apply StronglySorted_cons in Hs as [Hall _].
      apply elem_of_cons in Hd as [->|Hd]; [lia|].
      rewrite Forall_forall in Hall. specialize (Hall d Hd). lia.
  - intros i d1 d2 H1 H2.
    rewrite <- (keep_adjacent_iff gap rest d0 i d1 d2 Hs H1 H2).
    rewrite elem_of_cons. split; [|auto]. intros [->|?]; [|done].
    apply StronglySorted_cons in Hs as [Hall _].
    rewrite Forall_forall in Hall.
    assert (d0 < d0); [|lia]. apply Hall.
    by eapply (list_elem_of_lookup_2 rest i).
  - apply sublist_skip, keep_adjacent_sublist.
  - by apply keep_adjacent_StronglySorted.
  - destruct (keep_adjacent_gaps gap rest d0 d0 ltac:(lia) Hs). by constructor.
Qed.

Lemma get_dates_adjacent_gap_witness :
  ∃ out,
    (get_dates (Example.env_with [Example.day 3; Example.day 1; Example.day 2] [])
       (Example.task None None (TdTimedelta (Datetime.seconds 3600)))
       Example.bbox Example.january Example.start).2 = Ok out
    ∧ StronglySorted Z.lt out
    ∧ Sorted (λ a b, Datetime.seconds 3600 < b - a) out.
Proof.
  destruct (get_dates_adjacent_gap
              (Example.env_with [Example.day 3; Example.day 1; Example.day 2] [])
              (Example.task None None (TdTimedelta (Datetime.seconds 3600)))
              Example.bbox Example.january Example.start
              [Example.day 3; Example.day 1; Example.day 2]
              (Datetime.seconds 3600))
    as (out & Hout & _ & _ & _ & Hasc & Hgap).
  - reflexivity.
  - discriminate.
  - apply (bool_decide_unpack _). vm_compute. exact I.
  - reflexivity.
  - exists out. auto.
Defined.

(** C1 as stated fails: with dates 0s, 5s and 10s and a threshold of 7s the
    rule of the specification keeps the third date (10s after the date kept
    before it), while [get_dates] compares it with the second date, 5s
    before it, and drops it. *)
Lemma get_dates_not_previous_kept :
  (get_dates (Example.env_with Example.close_dates [])
     (Example.task None None (TdTimedelta (Datetime.seconds 7)))
     Example.bbox Example.january Example.start).2
  = Ok [Example.day 1]
  ∧ spec_select_dates Example.close_dates (Datetime.seconds 7)
    = [Example.day 1; Example.day 1 + Datetime.seconds 10]
  ∧ (get_dates (Example.env_with Example.close_dates [])
       (Example.task None None (TdTimedelta (Datetime.seconds 7)))
       Example.bbox Example.january Example.start).2
    ≠ Ok (spec_select_dates Example.close_dates (Datetime.seconds 7)).
Proof. split; [|split]; [by vm_compute | by vm_compute | vm_compute; discriminate]. Qed.

(** With a timedelta threshold that is zero or negative no date is dropped. *)
Lemma keep_adjacent_all gap rest prev :
  gap ≤ 0 →
  StronglySorted Z.lt (prev :: rest) →
  keep_adjacent prev rest gap = rest.
Proof.
  intros Hgap. revert prev. induction rest as [|d rest IH]; intros prev Hs; [done|].
  apply StronglySorted_cons in Hs as [Hall Hs].
  apply Forall_cons in Hall as [? _].
  cbn. rewrite bool_decide_true by lia. by rewrite IH.
Qed.

Lemma get_dates_nonpositive_timedelta (env : services) self bbox ti w dates gap :
  wfs_get_dates env bbox ti (data_source self) (maxcc self) = Ok dates →
  dates ≠ [] →
  NoDup dates →
  time_difference self = TdTimedelta gap →
  gap ≤ 0 →
  (get_dates env self bbox ti w).2 = Ok (sorted dates)
  ∧ sorted dates ≡ₚ dates
  ∧ StronglySorted Z.lt (sorted dates).
Proof.
  intros Hwfs Hne Hnd Htd Hgap.
  destruct (get_dates_timedelta env self bbox ti w dates gap Hwfs Hne Htd)
    as (d0 & rest & Hsorted & Hrun).
  pose proof (sorted_StronglySorted_lt dates Hnd) as Hs.
  split; [|split; [apply merge_sort_Permutation | done]].
  rewrite Hrun, Hsorted. cbn. rewrite Hsorted in Hs.
  by rewrite keep_adjacent_all.
Qed.

(** C2 on the code: the constructor's default [time_difference=-1] is an
    [int], which [get_dates] compares with a [timedelta]; as soon as two
    dates are discovered the comparison raises TypeError and no date is
    returned. *)
Theorem get_dates_default_threshold_raises :
  (get_dates (Example.env_with [Example.day 1; Example.day 2] [])
     Example.default_task Example.bbox Example.january Example.start).2
  = Raise (TypeError
      "'>' not supported between instances of 'datetime.timedelta' and 'int'").
Proof. by vm_compute. Qed.

(** ** The evalscript *)

Lemma append_empty_r (s : string) : s +:+ EmptyString = s.
Proof.
  induction s as [|c s IH]; [reflexivity|].
  change (String c (s +:+ EmptyString) = String c s). by rewrite IH.
Qed.

Lemma format_sample (band : string) :
  format "sample.{}" [band] [] = Ok ("sample." +:+ band).
Proof.
  transitivity (Ok ("sample." +:+ (band +:+ EmptyString)) : result string).
  - vm_compute. reflexivity.
  - by rewrite append_empty_r.
Qed.

Lemma format_samples (names : list string) :
  result_mapM (λ band, format "sample.{}" [band] []) names
  = Ok ((λ band, "sample." +:+ band) <$> names).
Proof.
  induction names as [|n names IH]; [reflexivity|].
  cbn [result_mapM]. rewrite format_sample.
  cbn [mbind result_mbind result_bind]. rewrite IH. reflexivity.
Qed.

Lemma format_brackets (s : string) :
  format "[{}]" [s] [] = Ok ("[" +:+ s +:+ "]").
Proof. reflexivity. Qed.

Lemma format_evalscript_template (b n s : string) :
  format evalscript_template [] [("bands", b); ("num_bands", n); ("samples", s)]
  = Ok (script_until_bands +:+ b +:+ script_until_count +:+ n
        +:+ script_until_samples +:+ s +:+ script_end).
Proof. vm_compute. reflexivity. Qed.

Lemma append_assoc (a b c : string) : (a +:+ b) +:+ c = a +:+ (b +:+ c).
Proof.
  induction a as [|x a IH]; [reflexivity|].
  change (String x ((a +:+ b) +:+ c) = String x (a +:+ (b +:+ c))). by rewrite IH.
Qed.

Lemma concat_empty_cons (x : string) (xs : list string) :
  String.concat EmptyString (x :: xs) = x +:+ String.concat EmptyString xs.
Proof. destruct xs; [symmetry; apply append_empty_r | reflexivity]. Qed.

Lemma plain_char_range (c : ascii) :
  plain_char c = true →
  (32 ≤ N_of_ascii c ≤ 126 ∧ N_of_ascii c ≠ 34 ∧ N_of_ascii c ≠ 39
   ∧ N_of_ascii c ≠ 92)%N.
Proof.
  unfold plain_char. cbn zeta.
  rewrite !andb_true_iff, !negb_true_iff, !N.leb_le, !N.eqb_neq. tauto.
Qed.

(** The code points of an ASCII string are its characters. *)
Lemma code_points_plain (s : string) :
  plain_ascii s = true →
  code_points s
  = (λ c, (N_of_ascii c, String c EmptyString)) <$> list_ascii_of_string s.
Proof.
  unfold plain_ascii. induction s as [|c s IH]; [reflexivity|].
  cbn [list_ascii_of_string forallb fmap list_fmap].
  intros [Hc Hs]%andb_true_iff. apply plain_char_range in Hc as (Hc & _).
  cbn [code_points]. cbn zeta.
  assert ((N_of_ascii c <? 128)%N = true) as -> by (apply N.ltb_lt; lia).
  by rewrite IH.
Qed.

Lemma json_escape_plain (c : ascii) :
  plain_char c = true → json_escape (N_of_ascii c) = String c EmptyString.
Proof.
  intros (Hc & H34 & _ & H92)%plain_char_range. unfold json_escape.
  repeat match goal with
  | |- context [(N_of_ascii c =? ?k)%N] =>
      assert ((N_of_ascii c =? k)%N = false) as -> by (apply N.eqb_neq; lia)
  end.
  assert (((32 <=? N_of_ascii c) && (N_of_ascii c <=? 126))%N = true) as ->.
  { apply andb_true_iff. split; apply N.leb_le; lia. }
  by rewrite ascii_N_embedding.
Qed.

(** A plain name is encoded as itself between double quotes. *)
Lemma json_dumps_str_plain (s : string) :
  plain_ascii s = true → json_dumps_str s = dquote +:+ s +:+ dquote.
Proof.
  intros Hs. unfold json_dumps_str. rewrite (code_points_plain s Hs).
  do 2 f_equal. rewrite <- list_fmap_compose.
  unfold plain_ascii in Hs. induction s as [|c s IH]; [reflexivity|].
  cbn [list_ascii_of_string forallb] in Hs. apply andb_true_iff in Hs as [Hc Hs].
  cbn [list_ascii_of_string fmap list_fmap]. rewrite concat_empty_cons.
  cbn [compose fst]. rewrite (json_escape_plain c Hc), (IH Hs). reflexivity.
Qed.

(** [repr] of a plain string is the string between single quotes. *)
Lemma repr_str_plain (printable : N → bool) (s : string) :
  plain_ascii s = true → repr_str printable s = squote +:+ s +:+ squote.
Proof.
  intros Hs. unfold repr_str.
  assert (has_char "039" s = false) as ->.
  { unfold has_char, plain_ascii in *. clear printable.
    induction s as [|c s IH]; [reflexivity|].
    cbn [list_ascii_of_string forallb existsb] in *.
    apply andb_true_iff in Hs as [Hc Hs]. rewrite (IH Hs), orb_false_r.
    apply plain_char_range in Hc as (_ & _ & H39 & _).
    apply bool_decide_eq_false. intros ->. by apply H39. }
  cbn [andb]. rewrite (code_points_plain s Hs).
  change (String "039" EmptyString) with squote. do 2 f_equal.
  rewrite <- list_fmap_compose.
  unfold plain_ascii in Hs. induction s as [|c s IH]; [reflexivity|].
  cbn [list_ascii_of_string forallb] in Hs. apply andb_true_iff in Hs as [Hc Hs].
  cbn [list_ascii_of_string fmap list_fmap]. rewrite concat_empty_cons, (IH Hs).
  f_equal. apply plain_char_range in Hc as (Hc & _ & H39 & H92).
  unfold compose, repr_char. cbn [fst snd].
  change (N_of_ascii "039") with 39%N.
  repeat match goal with
  | |- context [(N_of_ascii c =? ?k)%N] =>
      assert ((N_of_ascii c =? k)%N = false) as -> by (apply N.eqb_neq; lia)
  end.
  assert ((N_of_ascii c <? 32)%N = false) as -> by (apply N.ltb_ge; lia).
  cbn [orb].
  by assert ((N_of_ascii c <? 127)%N = true) as -> by (apply N.ltb_lt; lia).
Qed.

(** [str] of a pair of plain strings. *)
Lemma str_time_interval_plain (printable : N → bool) (ti : TimeInterval) :
  plain_ascii ti.1 = true → plain_ascii ti.2 = true →
  str_time_interval printable ti
  = "(" +:+ squote +:+ ti.1 +:+ squote +:+ ", " +:+ squote +:+ ti.2 +:+ squote +:+ ")".
Proof.
  intros H1 H2. unfold str_time_interval.
  rewrite (repr_str_plain _ _ H1), (repr_str_plain _ _ H2).
  by rewrite !append_assoc.
Qed.

(** C7: the script declares as input the JSON encoding of [all_bands] (the
    primary bands followed by the mask bands), as many output channels as
    there are bands, the sample type UINT16, the metadata field
    [norm_factor] read from [normalizationFactor], and emits the samples in
    the order of [all_bands]. The JSON encoding is the list of the encoded
    names: a name of plain characters is written as it is between double
    quotes; a double quote and a backslash get a backslash, and a code point
    beyond ASCII is written as its escape, above U+FFFF as a surrogate pair
    (shown for a name with a quote and a backslash, for the Greek letter
    beta, U+03B2, and for U+1F600). *)
Theorem generate_evalscript_layout (self : SentinelHubProcessingInput) :
  all_bands self = bands self ++ (snd <$> additional_data self)
  ∧ json_dumps (all_bands self)
    = "[" +:+ String.concat ", " (json_dumps_str <$> all_bands self) +:+ "]"
  ∧ (∀ band, plain_ascii band = true →
       json_dumps_str band = dquote +:+ band +:+ dquote)
  ∧ json_dumps_str ("a" +:+ dquote +:+ "b" +:+ backslash)
    = dquote +:+ "a" +:+ backslash +:+ dquote +:+ "b" +:+ backslash +:+ backslash
      +:+ dquote
  ∧ json_dumps_str (String "206" (String "178" EmptyString))
    = dquote +:+ backslash +:+ "u03b2" +:+ dquote
  ∧ json_dumps_str (String "240" (String "159" (String "152" (String "128" EmptyString))))
    = dquote +:+ backslash +:+ "ud83d" +:+ backslash +:+ "ude00" +:+ dquote
  ∧ generate_evalscript self
    = Ok (script_until_bands
          +:+ json_dumps (all_bands self)
          +:+ script_until_count
          +:+ pretty (length (all_bands self))
          +:+ script_until_samples
          +:+ ("[" +:+ String.concat ", " ((λ band, "sample." +:+ band) <$> all_bands self)
               +:+ "]")
          +:+ script_end)
  ∧ script_until_count
    = ("," +:+ "
                        units: " +:+ dquote +:+ "DN" +:+ dquote +:+ "
                    }],
                    output: {
                        id:" +:+ dquote +:+ "default" +:+ dquote +:+ ",
                        bands: ")
  ∧ script_until_samples
    = ("," +:+ "
                        sampleType: SampleType.UINT16
                    }
                }
            }

            function updateOutputMetadata(scenes, inputMetadata, outputMetadata) {
                outputMetadata.userData = { " +:+ dquote +:+ "norm_factor" +:+ dquote
       +:+ ":  inputMetadata.normalizationFactor }
            }

            function evaluatePixel(sample) {
                return ").
Proof.
  split; [reflexivity|]. split; [reflexivity|].
  split; [exact json_dumps_str_plain|].
  split; [vm_compute; reflexivity|].
  split; [vm_compute; reflexivity|].
  split; [vm_compute; reflexivity|].
  split; [|split; vm_compute; reflexivity].
  unfold generate_evalscript. rewrite format_samples.
  cbn [mbind result_mbind result_bind]. rewrite format_brackets.
  cbn [mbind result_mbind result_bind]. apply format_evalscript_template.
Qed.

(** The band plan of the specification: bands B04 and B08 with the mask CLM. *)
Example evalscript_B04_B08_CLM :
  all_bands (Example.task (Some ["B04"; "B08"]) (Some [(MASK, "CLM")]) (TdInt (-1)))
  = ["B04"; "B08"; "CLM"]
  ∧ json_dumps ["B04"; "B08"; "CLM"]
    = "[" +:+ dquote +:+ "B04" +:+ dquote +:+ ", " +:+ dquote +:+ "B08" +:+ dquote
      +:+ ", " +:+ dquote +:+ "CLM" +:+ dquote +:+ "]"
  ∧ list_index ["B04"; "B08"; "CLM"] "CLM" = Ok 2%nat.
Proof. split; [|split]; vm_compute; reflexivity. Qed.

(** ** execute: failures before the download *)

(** Allocating a tree never fails, extends the store and calls nobody. *)
Lemma alloc_json_extends (j : json) (w : world) :
  ∃ v ext, alloc_json j w = ({| store := store w ++ ext; log := log w |}, Ok v).
Proof.
  revert w. induction j as [| | | | |l IH|l IH] using json_rect'; intros w;
    try (eexists _, []; cbn; msimpl; rewrite app_nil_r; by destruct w).
  - assert (Hgo : ∀ w, ∃ vs ext,
      (fix go (l : list json) : M (list value) :=
         match l with
         | [] => mret []
         | e :: l' => v ← alloc_json e; vs ← go l'; mret (v :: vs)
         end) l w = ({| store := store w ++ ext; log := log w |}, Ok vs)).
    { induction IH as [|e l He _ IHl]; intros w'.
      - exists [], []. msimpl. rewrite app_nil_r. by destruct w'.
      - destruct (He w') as (v & ext1 & Hv).
        destruct (IHl {| store := store w' ++ ext1; log := log w' |})
          as (vs & ext2 & Hvs).
        exists (v :: vs), (ext1 ++ ext2). msimpl. rewrite Hv.
        unfold mbind, M_mbind, M_bind in Hvs. rewrite Hvs. cbn.
        by rewrite app_assoc. }
    destruct (Hgo w) as (vs & ext & Hvs).
    exists (VRef (length (store w ++ ext))), (ext ++ [OList vs]).
    cbn [alloc_json]. msimpl. unfold mbind, M_mbind, M_bind in Hvs. rewrite Hvs.
    unfold alloc. cbn. by rewrite app_assoc.
  - assert (Hgo : ∀ w, ∃ vs ext,
      (fix go (l : list (string * json)) : M (list (string * value)) :=
         match l with
         | [] => mret []
         | (k, e) :: l' => v ← alloc_json e; vs ← go l'; mret ((k, v) :: vs)
         end) l w = ({| store := store w ++ ext; log := log w |}, Ok vs)).
    { induction IH as [|[k e] l He _ IHl]; intros w'.
      - exists [], []. msimpl. rewrite app_nil_r. by destruct w'.
      - destruct (He w') as (v & ext1 & Hv).
        destruct (IHl {| store := store w' ++ ext1; log := log w' |})
          as (vs & ext2 & Hvs).
        exists ((k, v) :: vs), (ext1 ++ ext2). msimpl. cbn in Hv. rewrite Hv.
        unfold mbind, M_mbind, M_bind in Hvs. rewrite Hvs. cbn.
        by rewrite app_assoc. }
    destruct (Hgo w) as (vs & ext & Hvs).
    exists (VRef (length (store w ++ ext))), (ext ++ [ODict vs]).
    cbn [alloc_json]. msimpl. unfold mbind, M_mbind, M_bind in Hvs. rewrite Hvs.
    unfold alloc. cbn. by rewrite app_assoc.
Qed.

Lemma generate_evalscript_ok (self : SentinelHubProcessingInput) :
  ∃ script, generate_evalscript self = Ok script.
Proof.
  eexists. unfold generate_evalscript. rewrite format_samples.
  cbn [mbind result_mbind result_bind]. rewrite format_brackets.
  cbn [mbind result_mbind result_bind]. apply format_evalscript_template.
Qed.

(** C4 on the code: [execute] does not check that a size or a resolution
    was given. With neither of them [size_x] is never assigned, and the run
    ends at the first use of it, in the arguments of [shr.output], with
    UnboundLocalError; without a bounding box it ends even before, at
    [bbox.crs], with the AttributeError that a task with a size raises too.
    Either way the world is the one the run started in: the store is
    untouched and no service was called. *)
Theorem execute_without_size_or_resolution `{Float32} (env : services)
    (self : SentinelHubProcessingInput) (eopatch : option EOPatch)
    (bbox : option BBox) (ti : TimeInterval) (w : world) :
  size self = None →
  resolution self = None →
  execute env self eopatch bbox ti w
  = (w, Raise (match bbox with
               | Some _ => UnboundLocalError "size_x"
               | None => AttributeError "'NoneType' object has no attribute 'crs'"
               end)).
Proof.
  intros Hsize Hres. unfold execute, resolve_size. rewrite Hsize, Hres. msimpl.
  by destruct bbox.
Qed.

Lemma execute_without_size_or_resolution_witness :
  execute (Example.env_with [Example.day 1] [])
    {| data_source := Example.S2L1C; size := None; resolution := None;
       bands_feature := None; bands_arg := None; additional_data_arg := None;
       maxcc := 1%float; time_difference := TdInt (-1);
       cache_folder := None; max_threads := 5 |}
    None (Some Example.bbox) Example.january Example.start
  = (Example.start, Raise (UnboundLocalError "size_x")).
Proof.
  apply (execute_without_size_or_resolution (Example.env_with [Example.day 1] [])
           {| data_source := Example.S2L1C; size := None; resolution := None;
              bands_feature := None; bands_arg := None; additional_data_arg := None;
              maxcc := 1%float; time_difference := TdInt (-1);
              cache_folder := None; max_threads := 5 |}
           None (Some Example.bbox)); reflexivity.
Defined.

Lemma get_dates_no_data (env : services) self bb ti w :
  wfs_get_dates env bb ti (data_source self) (maxcc self) = Ok [] →
  get_dates env self bb ti w
  = ({| store := store w;
        log := log w ++ [WfsQuery bb ti (data_source self) (maxcc self)] |},
     Raise (ValueError ("No available images for requested time range: "
                        +:+ str_time_interval (unicode_printable env) ti))).
Proof. intros Hwfs. unfold get_dates. msimpl. by rewrite Hwfs. Qed.

(** C3, as amended: when the WFS returns no date, [get_dates] raises the
    built-in ValueError whose message is the fixed text followed by
    [str(time_interval)], and so does [execute] once the output size is
    known; the only event of the run is the WFS query, so nothing is sent to
    the download client. For a pair of plain date strings
    [str(time_interval)] is the two strings in single quotes, between
    brackets; a string with a single quote is put in double quotes, a
    backslash is doubled, a control character and a code point that is not
    printable (the no-break space, U+00A0) are written as escapes. *)
Theorem execute_no_data `{Float32} (env : services)
    (self : SentinelHubProcessingInput) (eopatch : option EOPatch)
    (bb : BBox) (ti : TimeInterval) (xy : Z * Z) (w : world) :
  wfs_get_dates env bb ti (data_source self) (maxcc self) = Ok [] →
  resolve_size self (Some bb) = Ok (Some xy) →
  (get_dates env self bb ti w).2
  = Raise (ValueError ("No available images for requested time range: "
                       +:+ str_time_interval (unicode_printable env) ti))
  ∧ (∃ w',
      execute env self eopatch (Some bb) ti w
      = (w', Raise (ValueError ("No available images for requested time range: "
                                +:+ str_time_interval (unicode_printable env) ti)))
      ∧ log w' = log w ++ [WfsQuery bb ti (data_source self) (maxcc self)]
      ∧ ∀ payloads, Download payloads ∈ log w' → Download payloads ∈ log w)
  ∧ (plain_ascii ti.1 = true → plain_ascii ti.2 = true →
     str_time_interval (unicode_printable env) ti
     = "(" +:+ squote +:+ ti.1 +:+ squote +:+ ", " +:+ squote +:+ ti.2 +:+ squote
       +:+ ")")
  ∧ str_time_interval (unicode_printable env)
      ("it's", "a" +:+ backslash +:+ String "007" EmptyString)
    = "(" +:+ dquote +:+ "it's" +:+ dquote +:+ ", " +:+ squote +:+ "a" +:+ backslash
      +:+ backslash +:+ backslash +:+ "x07" +:+ squote +:+ ")"
  ∧ (unicode_printable env 160 = false →
     repr_str (unicode_printable env) (String "194" (String "160" EmptyString))
     = squote +:+ backslash +:+ "xa0" +:+ squote).
Proof.
  intros Hwfs Hsize. split; [by rewrite get_dates_no_data|].
  split; [|split; [apply str_time_interval_plain|split]]; cycle 1.
  { vm_compute. reflexivity. }
  { intros Hnbsp. vm_compute. vm_compute in Hnbsp. rewrite Hnbsp. reflexivity. }
  unfold execute. rewrite Hsize. msimpl. destruct xy as [size_x size_y].
  destruct (generate_evalscript_ok self) as [script ->].
  match goal with |- context [alloc_json ?j w] =>
    destruct (alloc_json_extends j w) as (request & ext & ->) end.
  rewrite get_dates_no_data by done. cbn.
  eexists. split; [reflexivity|]. split; [reflexivity|].
  intros payloads Hin. cbn in Hin.
  apply elem_of_app in Hin as [?|Hin]; [done|].
  apply list_elem_of_singleton in Hin. discriminate.
Qed.

Lemma execute_no_data_witness :
  (get_dates (Example.env_with [] []) (Example.task None None (TdInt (-1)))
     Example.bbox Example.january Example.start).2
  = Raise (ValueError ("No available images for requested time range: "
                       +:+ "(" +:+ squote +:+ "2020-01-01" +:+ squote +:+ ", "
                       +:+ squote +:+ "2020-01-31" +:+ squote +:+ ")"))
  ∧ ∃ w',
      execute (Example.env_with [] []) (Example.task None None (TdInt (-1)))
        None (Some Example.bbox) Example.january Example.start
      = (w', Raise (ValueError ("No available images for requested time range: "
                                +:+ "(" +:+ squote +:+ "2020-01-01" +:+ squote +:+ ", "
                                +:+ squote +:+ "2020-01-31" +:+ squote +:+ ")")))
      ∧ log w' = log Example.start
                 ++ [WfsQuery Example.bbox Example.january
                       (data_source (Example.task None None (TdInt (-1))))
                       (maxcc (Example.task None None (TdInt (-1))))]
      ∧ ∀ payloads, Download payloads ∈ log w' → Download payloads ∈ log Example.start.
Proof.
  destruct (execute_no_data (Example.env_with [] [])
              (Example.task None None (TdInt (-1)))
              None Example.bbox Example.january (2, 1) Example.start eq_refl eq_refl)
    as (Hdates & Hrun & Hstr & _).
  rewrite (Hstr eq_refl eq_refl) in Hdates, Hrun. split; [exact Hdates | exact Hrun].
Defined.

(** The error of C3 has no type of its own: a run that found a date and was
    given a mask feature of a type without a date axis raises ValueError as
    well, so a handler for ValueError catches both. *)
Lemma no_data_error_not_distinct :
  ∃ no_data other,
    (execute (Example.env_with [] [])
       {| data_source := Example.S2L1C; size := Some (2, 1); resolution := None;
          bands_feature := None; bands_arg := None;
          additional_data_arg := Some [(MASK_TIMELESS, "CLM")]; maxcc := 1%float;
          time_difference := TdTimedelta 0; cache_folder := None;
          max_threads := 5 |}
       None (Some Example.bbox) Example.january Example.start).2
    = Raise (ValueError no_data)
    ∧ (execute
         (Example.env_with [Example.day 1]
            [Example.with_factor (Example.image1 1 0) (PyInt 1000)])
         {| data_source := Example.S2L1C; size := Some (2, 1); resolution := None;
            bands_feature := None; bands_arg := None;
            additional_data_arg := Some [(MASK_TIMELESS, "CLM")]; maxcc := 1%float;
            time_difference := TdTimedelta 0; cache_folder := None;
            max_threads := 5 |}
         None (Some Example.bbox) Example.january Example.start).2
      = Raise (ValueError other)
    ∧ no_data ≠ other.
Proof.
  eexists _, _. split; [vm_compute; reflexivity|].
  split; [vm_compute; reflexivity|]. discriminate.
Qed.

(** ** request_from_date: what the copy holds *)

Lemma dict_get_set_eq entries k v : dict_get (dict_set entries k v) k = Some v.
Proof.
  induction entries as [|[k' v'] entries IH]; cbn.
  - by rewrite decide_True.
  - destruct (decide (k' = k)) as [->|Hne]; cbn.
    + by rewrite decide_True.
    + by rewrite decide_False.
Qed.

Lemma dict_get_set_ne entries k v k0 :
  k0 ≠ k → dict_get (dict_set entries k v) k0 = dict_get entries k0.
Proof.
  intros Hne. induction entries as [|[k' v'] entries IH]; cbn.
  - by rewrite decide_False.
  - destruct (decide (k' = k)) as [->|Hne']; cbn.
    + by rewrite !decide_False.
    + destruct (decide (k' = k0)); [done | apply IH].
Qed.

Lemma getitem_ok obj k w w' v :
  getitem obj k w = (w', Ok v) →
  w' = w ∧ ∃ a, obj = VRef a ∧ has_key (store w) a k v.
Proof.
  unfold getitem, load. destruct obj; msimpl; try discriminate.
  destruct (store w !! a) as [[entries|elems]|] eqn:Ha; try discriminate.
  destruct (dict_get entries k) as [v'|] eqn:Hk; [|discriminate].
  intros [= <- <-]. split; [done|]. exists a. split; [done|]. by exists entries.
Qed.

Lemma setitem_ok obj k v w w' :
  setitem obj k v w = (w', Ok tt) →
  ∃ a entries,
    obj = VRef a ∧ store w !! a = Some (ODict entries)
    ∧ w' = {| store := <[a:=ODict (dict_set entries k v)]> (store w); log := log w |}.
Proof.
  unfold setitem, load, save. destruct obj; msimpl; try discriminate.
  destruct (store w !! a) as [[entries|elems]|] eqn:Ha; try discriminate.
  intros [= <-]. by exists a, entries.
Qed.

Lemma setitem_has_key obj k v w w' :
  setitem obj k v w = (w', Ok tt) →
  ∃ a, obj = VRef a ∧ has_key (store w') a k v.
Proof.
  intros (a & entries & -> & Ha & ->)%setitem_ok. exists a. split; [done|].
  exists (dict_set entries k v). cbn. split; [|apply dict_get_set_eq].
  apply list_lookup_insert_eq. by eapply lookup_lt_Some.
Qed.

Lemma setitem_keeps_key obj k v w w' a0 k0 v0 :
  setitem obj k v w = (w', Ok tt) →
  k0 ≠ k ∨ v0 = v →
  has_key (store w) a0 k0 v0 → has_key (store w') a0 k0 v0.
Proof.
  intros (a & entries & -> & Ha & ->)%setitem_ok Hstable (entries0 & Ha0 & Hk0).
  cbn. destruct (decide (a = a0)) as [->|Hne].
  - rewrite Ha in Ha0. injection Ha0 as <-.
    exists (dict_set entries k v). split.
    + apply list_lookup_insert_eq. by eapply lookup_lt_Some.
    + destruct (decide (k0 = k)) as [->|Hk].
      * rewrite dict_get_set_eq. destruct Hstable as [? | ->]; [done|]. done.
      * by rewrite dict_get_set_ne.
  - exists entries0. split; [|done]. by rewrite list_lookup_insert_ne.
Qed.

Lemma setitem_keeps_list obj k v w w' a0 elems :
  setitem obj k v w = (w', Ok tt) →
  store w !! a0 = Some (OList elems) → store w' !! a0 = Some (OList elems).
Proof.
  intros (a & entries & -> & Ha & ->)%setitem_ok Ha0. cbn.
  destruct (decide (a = a0)) as [->|Hne]; [congruence|].
  by rewrite list_lookup_insert_ne.
Qed.

Lemma writes_only_refl tf tu cc h : writes_only tf tu cc h h.
Proof. by split. Qed.

Lemma writes_only_trans tf tu cc h1 h2 h3 :
  writes_only tf tu cc h1 h2 → writes_only tf tu cc h2 h3 → writes_only tf tu cc h1 h3.
Proof. intros [H1 L1] [H2 L2]. split; eauto. Qed.

Lemma writes_only_setitem tf tu cc obj k v w w' :
  setitem obj k v w = (w', Ok tt) →
  (∀ k0 v0, loop_stable tf tu cc k0 v0 → k0 ≠ k ∨ v0 = v) →
  writes_only tf tu cc (store w) (store w').
Proof.
  intros Hset Hst. split.
  - intros a0 k0 v0 Hs. eapply setitem_keeps_key; eauto.
  - intros a0 elems. by eapply setitem_keeps_list.
Qed.

Lemma writes_only_specialised tf tu cc h h' data :
  writes_only tf tu cc h h' →
  specialised h data tf tu cc → specialised h' data tf tu cc.
Proof.
  intros [Hk _] (d & f & t & -> & H1 & H2 & H3 & H4 & H5).
  exists d, f, t. split; [done|].
  repeat split; (eapply Hk; [|eassumption]);
    (split; [|split]); intros ?; try discriminate; done.
Qed.

Lemma specialise_data_ok tf tu maxcc data w w' :
  specialise_data tf tu maxcc data w = (w', Ok tt) →
  ∃ cc, int_of_float (maxcc * float_100)%float = Ok cc
        ∧ writes_only tf tu cc (store w) (store w')
        ∧ specialised (store w') data tf tu cc
        ∧ log w' = log w.
Proof.
  unfold specialise_data. msimpl.
  destruct (getitem data "dataFilter" w) as [w0 [df|]] eqn:Hdf; [|discriminate].
  apply getitem_ok in Hdf as (-> & d & -> & Hdf).
  destruct (getitem df "timeRange" w) as [w0 [tr|]] eqn:Htr; [|discriminate].
  apply getitem_ok in Htr as (-> & f & -> & Htr).
  destruct (setitem tr "from" _ w) as [w1 [u1|]] eqn:Hfrom; [destruct u1|discriminate].
  destruct (setitem tr "to" _ w1) as [w2 [u2|]] eqn:Hto; [destruct u2|discriminate].
  destruct (int_of_float _) as [cc|] eqn:Hcc; [|discriminate].
  destruct (getitem (VRef d) "dataFilter" w2) as [w0 [df2|]] eqn:Hdf2; [|discriminate].
  apply getitem_ok in Hdf2 as (-> & d' & [= <-] & Hdf2).
  intros Hmcc. exists cc. split; [done|].
  assert (W1 : writes_only tf tu cc (store w) (store w1)).
  { eapply writes_only_setitem; [done|]. intros k0 v0 (Hs & _ & _).
    destruct (decide (k0 = "from")) as [->|?]; [right; by apply Hs | by left]. }
  assert (W2 : writes_only tf tu cc (store w1) (store w2)).
  { eapply writes_only_setitem; [done|]. intros k0 v0 (_ & Hs & _).
    destruct (decide (k0 = "to")) as [->|?]; [right; by apply Hs | by left]. }
  assert (W3 : writes_only tf tu cc (store w2) (store w')).
  { eapply writes_only_setitem; [done|]. intros k0 v0 (_ & _ & Hs).
    destruct (decide (k0 = "maxCloudCoverage")) as [->|?];
      [right; by apply Hs | by left]. }
  pose proof (writes_only_trans _ _ _ _ _ _ W1 W2) as W12.
  pose proof (writes_only_trans _ _ _ _ _ _ W12 W3) as W123.
  assert (Hs1 : ∀ v, loop_stable tf tu cc "dataFilter" v)
    by (intros; repeat split; discriminate).
  assert (Hs2 : ∀ v, loop_stable tf tu cc "timeRange" v)
    by (intros; repeat split; discriminate).
  assert (Hs3 : loop_stable tf tu cc "from" (VStr tf))
    by (repeat split; discriminate).
  assert (Hs4 : loop_stable tf tu cc "to" (VStr tu))
    by (repeat split; discriminate).
  split; [done|]. split.
  - pose proof (proj1 W123 d "dataFilter" (VRef f) (Hs1 _) Hdf) as Hdf'.
    assert (df2 = VRef f) as ->.
    { destruct Hdf2 as (e2 & He2 & Hg2).
      destruct (proj1 W12 d "dataFilter" (VRef f) (Hs1 _) Hdf) as (e2' & He2' & Hg2').
      congruence. }
    apply setitem_has_key in Hmcc as (f' & [= <-] & Hmcc).
    destruct (setitem_has_key _ _ _ _ _ Hfrom) as (t & -> & Hfrom').
    destruct (setitem_has_key _ _ _ _ _ Hto) as (t' & [= <-] & Hto').
    exists d, f, t. split; [done|]. split; [done|]. split.
    { by apply (proj1 W123). }
    split.
    { by apply (proj1 W3), (proj1 W2). }
    split; [|done].
    by apply (proj1 W3).
  - apply setitem_ok in Hfrom as (? & ? & _ & _ & ->).
    apply setitem_ok in Hto as (? & ? & _ & _ & ->).
    apply setitem_ok in Hmcc as (? & ? & _ & _ & ->). done.
Qed.

Lemma for_each_specialise_ok tf tu maxcc datas w w' :
  for_each datas (specialise_data tf tu maxcc) w = (w', Ok tt) →
  (datas = [] → w' = w)
  ∧ (∀ cc, int_of_float (maxcc * float_100)%float = Ok cc →
       writes_only tf tu cc (store w) (store w'))
  ∧ (∀ data, data ∈ datas →
       ∃ cc, int_of_float (maxcc * float_100)%float = Ok cc
             ∧ specialised (store w') data tf tu cc).
Proof.
  revert w. induction datas as [|data datas IH]; intros w Hloop.
  { injection Hloop as <-. split; [done|]. split.
    - intros. apply writes_only_refl.
    - by intros ? ?%elem_of_nil. }
  cbn [for_each] in Hloop. msimpl.
  destruct (specialise_data tf tu maxcc data w) as [w1 [u|]] eqn:Hbody; [|discriminate].
  destruct u. apply specialise_data_ok in Hbody as (cc & Hcc & W1 & Hdata & _).
  destruct (IH w1 Hloop) as (_ & W2 & Hrest).
  split; [done|]. split.
  - intros cc' Hcc'. assert (cc' = cc) as -> by congruence.
    eapply writes_only_trans; [exact W1 | by apply W2].
  - intros data' [->|Hin]%elem_of_cons; [|by apply Hrest].
    exists cc. split; [done|].
    eapply writes_only_specialised; [by apply W2 | done].
Qed.

Lemma isoformat_whole_second (d : Z) :
  Datetime.microsecond d = 0 →
  Datetime.isoformat d = Datetime.iso_date d +:+ "T" +:+ Datetime.iso_time d.
Proof.
  intros Hus. unfold Datetime.isoformat. rewrite Hus. cbn [Z.eqb].
  by rewrite append_empty_r.
Qed.

Lemma microsecond_next_second (d : Z) :
  Datetime.microsecond (d + Datetime.seconds 1) = Datetime.microsecond d.
Proof.
  unfold Datetime.microsecond, Datetime.seconds. apply Z_mod_plus_full.
Qed.

(** C6, as amended: in the request that [request_from_date] returns, the
    time range of every data source runs from the date to one second after
    it, each printed by [isoformat] and followed by Z (for a date of whole
    seconds that is the calendar date, T and the time of day to the
    second), and its cloud coverage is [int(maxcc * 100)], the product
    truncated towards zero. *)
Theorem request_from_date_time_range (limit : nat) (request : value) (date : Z)
    (maxcc : float) (w w' : world) (r : value) :
  request_from_date limit request date maxcc w = (w', Ok r) →
  ∃ root input datas entries,
    r = VRef root
    ∧ has_key (store w') root "input" (VRef input)
    ∧ has_key (store w') input "data" datas
    ∧ iterate datas w' = (w', Ok entries)
    ∧ (∀ data, data ∈ entries →
         ∃ cc, int_of_float (maxcc * float_100)%float = Ok cc
               ∧ specialised (store w') data
                   (Datetime.isoformat date +:+ "Z")
                   (Datetime.isoformat (date + Datetime.seconds 1) +:+ "Z") cc)
    ∧ (Datetime.microsecond date = 0 →
         Datetime.isoformat date
         = Datetime.iso_date date +:+ "T" +:+ Datetime.iso_time date
         ∧ Datetime.isoformat (date + Datetime.seconds 1)
           = Datetime.iso_date (date + Datetime.seconds 1) +:+ "T"
             +:+ Datetime.iso_time (date + Datetime.seconds 1)).
Proof.
  unfold request_from_date. msimpl.
  destruct (Datetime.add date _) as [date_to|] eqn:Hadd; [|discriminate].
  assert (date_to = date + Datetime.seconds 1) as ->.
  { unfold Datetime.add in Hadd. cbn zeta in Hadd.
    destruct (decide _); [by injection Hadd | discriminate]. }
  destruct (deepcopy limit request w) as [w0 [copy|]]; [|discriminate].
  destruct (getitem copy "input" w0) as [w1 [input|]] eqn:Hinput; [|discriminate].
  apply getitem_ok in Hinput as (-> & root & -> & Hinput).
  destruct (getitem input "data" w0) as [w1 [datas|]] eqn:Hdatas; [|discriminate].
  apply getitem_ok in Hdatas as (-> & i & -> & Hdatas).
  destruct (iterate datas w0) as [w1 [entries|]] eqn:Hiter; [|discriminate].
  assert (w1 = w0) as ->.
  { unfold iterate, load in Hiter. destruct datas; msimpl; try by injection Hiter.
    destruct (store w0 !! a) as [[?|?]|]; by injection Hiter. }
  destruct (for_each entries _ w0) as [w1 [u|]] eqn:Hloop; [|discriminate].
  destruct u. intros [= <- <-].
  apply for_each_specialise_ok in Hloop as (Hnil & W & Hall).
  exists root, i, datas, entries. split; [done|].
  assert (Hkeep : ∀ a k v, k ≠ "from" → k ≠ "to" → k ≠ "maxCloudCoverage" →
                    has_key (store w0) a k v → has_key (store w1) a k v).
  { intros a k v ? ? ? Hk. destruct entries as [|data entries].
    - by rewrite (Hnil eq_refl).
    - destruct (Hall data) as (cc & Hcc & _); [by left|].
      apply (proj1 (W cc Hcc)); [by repeat split | done]. }
  split; [by apply Hkeep|]. split; [by apply Hkeep|]. split; [|split; [done|]].
  - destruct entries as [|data entries]; [by rewrite (Hnil eq_refl)|].
    destruct (Hall data) as (cc & Hcc & d & f & t & -> & _); [by left|].
    unfold iterate, load in Hiter |- *.
    destruct datas; msimpl; try discriminate.
    + destruct s; discriminate.
    + destruct (store w0 !! a) as [[es|elems]|] eqn:Ha; try discriminate.
      * destruct es; discriminate.
      * rewrite (proj2 (W cc Hcc) a elems Ha). cbn.
        injection Hiter as ->. reflexivity.
  - intros Hus. split; [by apply isoformat_whole_second|].
    apply isoformat_whole_second. by rewrite microsecond_next_second.
Qed.

Lemma request_from_date_time_range_witness :
  ∃ w' r,
    request_from_date 1000 Example.template_ref (Example.day 1) 1%float
      Example.template_world = (w', Ok r)
    ∧ ∃ root input datas entries,
        r = VRef root
        ∧ has_key (store w') root "input" (VRef input)
        ∧ has_key (store w') input "data" datas
        ∧ iterate datas w' = (w', Ok entries)
        ∧ ∀ data, data ∈ entries →
            ∃ cc, int_of_float (1 * float_100)%float = Ok cc
                  ∧ specialised (store w') data
                      (Datetime.isoformat (Example.day 1) +:+ "Z")
                      (Datetime.isoformat (Example.day 1 + Datetime.seconds 1) +:+ "Z")
                      cc.
Proof.
  destruct (request_from_date 1000 Example.template_ref (Example.day 1) 1%float
              Example.template_world) as [w' [r|e]] eqn:Hrun.
  - exists w', r. split; [done|].
    destruct (request_from_date_time_range _ _ _ _ _ _ _ Hrun)
      as (root & input & datas & entries & H1 & H2 & H3 & H4 & H5 & _).
    exists root, input, datas, entries.
    split; [exact H1|]. split; [exact H2|]. split; [exact H3|].
    split; [exact H4 | exact H5].
  - vm_compute in Hrun. discriminate.
Defined.

(** What the witness above amounts to on the example template. *)
Example specialised_day_1 :
  Example.specialised_time (Example.day 1) 1%float "from"
  = Ok (VStr "2020-01-01T10:00:00Z")
  ∧ Example.specialised_time (Example.day 1) 1%float "to"
    = Ok (VStr "2020-01-01T10:00:01Z")
  ∧ Example.specialised_coverage (Example.day 1) 1%float = Ok (VInt 100)
  ∧ Example.specialised_time (Datetime.make 2020 2 29 23 59 59) 1%float "to"
    = Ok (VStr "2020-03-01T00:00:00Z").
Proof. repeat split; by vm_compute. Qed.

(** C6 as stated fails twice: for a cloud ceiling of 0.999 the code stores
    [int(99.9) = 99] where rounding gives 100, and for a date that carries
    microseconds [isoformat] prints them. *)
Lemma request_from_date_truncates :
  Example.specialised_coverage (Example.day 1) 0.999%float = Ok (VInt 99)
  ∧ spec_round (0.999 * float_100)%float = Ok 100
  ∧ Example.specialised_time (Example.day 1 + 5) 1%float "from"
    = Ok (VStr "2020-01-01T10:00:00.000005Z").
Proof. repeat split; by vm_compute. Qed.

(** ** request_from_date: the template is left alone *)

Lemma grown_from_refl (h : heap) : grown_from h h.
Proof.
  split; [done|]. intros a o Ha Hlook.
  apply lookup_lt_Some in Hlook. lia.
Qed.

Lemma keeps_ret {A} h0 (post : A → Prop) (a : A) : post a → keeps h0 post (mret a).
Proof. intros Hp w Hw. cbn. split; [done|]. split; [done|]. by intros ? [= <-]. Qed.

Lemma keeps_raise {A} h0 (post : A → Prop) e : keeps h0 post (raise e).
Proof. intros w Hw. cbn. split; [done|]. split; [done|]. intros a Ha. discriminate. Qed.

Lemma keeps_lift {A} h0 (post : A → Prop) (r : result A) :
  (∀ a, r = Ok a → post a) → keeps h0 post (lift r).
Proof. intros Hp w Hw. cbn. split; [done|]. split; [done|]. exact Hp. Qed.

Lemma keeps_bind {A B} h0 (mid : A → Prop) (post : B → Prop) (m : M A) (f : A → M B) :
  keeps h0 mid m → (∀ a, mid a → keeps h0 post (f a)) → keeps h0 post (m ≫= f).
Proof.
  intros Hm Hf w Hw. destruct (Hm w Hw) as (Hg & Hl & Hp).
  unfold mbind, M_mbind, M_bind. destruct (m w) as [w1 [a|e]]; cbn in *.
  - destruct (Hf a (Hp a eq_refl) w1 Hg) as (Hg' & Hl' & Hp').
    split; [done|]. split; [congruence|done].
  - split; [done|]. split; [done|]. intros b Hb. discriminate.
Qed.

Lemma keeps_weaken {A} h0 (post post' : A → Prop) (m : M A) :
  keeps h0 post m → (∀ a, post a → post' a) → keeps h0 post' m.
Proof.
  intros Hm Himp w Hw. destruct (Hm w Hw) as (? & ? & Hp).
  split; [done|]. split; [done|]. intros a Ha. by apply Himp, Hp.
Qed.

Lemma keeps_load h0 (a : nat) :
  keeps h0 (λ o, (length h0 ≤ a)%nat → fresh_object (length h0) o) (load a).
Proof.
  intros w Hw. unfold load. cbn. split; [done|]. split; [done|].
  intros o Ho Ha. destruct (store w !! a) as [o'|] eqn:Hlook; [|discriminate].
  injection Ho as <-. by apply (proj2 Hw a).
Qed.

Lemma keeps_alloc h0 (o : object) :
  fresh_object (length h0) o → keeps h0 (λ a, (length h0 ≤ a)%nat) (alloc o).
Proof.
  intros Ho w [[ext Hext] Hfresh]. unfold alloc. cbn. split; [split|].
  - exists (ext ++ [o]). by rewrite Hext, app_assoc.
  - intros a o' Ha Hlook. apply lookup_app_Some in Hlook as [?|[_ Hlook]].
    + by apply (Hfresh a).
    + apply list_lookup_singleton_Some in Hlook as [_ <-]. done.
  - split; [done|]. intros a [= <-]. rewrite Hext, length_app. lia.
Qed.

Lemma keeps_save h0 (a : nat) (o : object) :
  (length h0 ≤ a)%nat → fresh_object (length h0) o → keeps h0 (λ _, True) (save a o).
Proof.
  intros Ha Ho w [[ext Hext] Hfresh]. unfold save. cbn. split; [split|done].
  - exists (<[(a - length h0)%nat:=o]> ext). rewrite Hext.
    by rewrite insert_app_r_alt.
  - intros a' o' Ha' Hlook. destruct (decide (a = a')) as [->|Hne].
    + destruct (decide (a' < length (store w))%nat).
      * rewrite list_lookup_insert_eq in Hlook by done. by injection Hlook as <-.
      * rewrite list_insert_ge in Hlook by lia. by apply (Hfresh a').
    + rewrite list_lookup_insert_ne in Hlook by done. by apply (Hfresh a').
Qed.

Lemma fresh_dict_get base entries k v :
  Forall (λ e : string * value, fresh_value base e.2) entries →
  dict_get entries k = Some v → fresh_value base v.
Proof.
  induction 1 as [|[k' v'] entries Hv _ IH]; cbn; [done|].
  destruct (decide (k' = k)); [by intros [= <-] | done].
Qed.

Lemma fresh_dict_set base entries k v :
  Forall (λ e : string * value, fresh_value base e.2) entries →
  fresh_value base v →
  Forall (λ e : string * value, fresh_value base e.2) (dict_set entries k v).
Proof.
  intros Hall Hv. induction Hall as [|[k' v'] entries Hv' Hall IH]; cbn.
  - by repeat constructor.
  - destruct (decide (k' = k)); by constructor.
Qed.

Lemma keeps_getitem h0 (obj : value) (k : string) :
  fresh_value (length h0) obj →
  keeps h0 (fresh_value (length h0)) (getitem obj k).
Proof.
  intros Hobj. unfold getitem. destruct obj; try apply keeps_raise.
  eapply keeps_bind; [apply keeps_load|]. intros [entries|elems] Ho.
  - destruct (dict_get entries k) as [v|] eqn:Hk; [|apply keeps_raise].
    apply keeps_ret. eapply fresh_dict_get; [by apply Ho | done].
  - apply keeps_raise.
Qed.

Lemma keeps_setitem h0 (obj : value) (k : string) (v : value) :
  fresh_value (length h0) obj → fresh_value (length h0) v →
  keeps h0 (λ _, True) (setitem obj k v).
Proof.
  intros Hobj Hv. unfold setitem. destruct obj; try apply keeps_raise.
  eapply keeps_bind; [apply keeps_load|]. intros [entries|elems] Ho.
  - apply keeps_save; [done|]. apply fresh_dict_set; [by apply Ho | done].
  - apply keeps_raise.
Qed.

Lemma keeps_iterate h0 (obj : value) :
  fresh_value (length h0) obj →
  keeps h0 (Forall (fresh_value (length h0))) (iterate obj).
Proof.
  intros Hobj. unfold iterate. destruct obj; try apply keeps_raise.
  - apply keeps_ret. apply Forall_fmap. by apply Forall_true.
  - eapply keeps_bind; [apply keeps_load|]. intros [entries|elems] Ho.
    + apply keeps_ret. apply Forall_fmap. by apply Forall_true.
    + apply keeps_ret. by apply Ho.
Qed.

Lemma keeps_for_each {A} h0 (l : list A) (body : A → M unit) :
  Forall (λ x, keeps h0 (λ _, True) (body x)) l →
  keeps h0 (λ _, True) (for_each l body).
Proof.
  induction 1 as [|x l Hx _ IH]; cbn [for_each]; [by apply keeps_ret|].
  eapply keeps_bind; [exact Hx|]. by intros _ _.
Qed.

Lemma keeps_specialise_data h0 tf tu maxcc data :
  fresh_value (length h0) data →
  keeps h0 (λ _, True) (specialise_data tf tu maxcc data).
Proof.
  intros Hdata. unfold specialise_data.
  eapply keeps_bind; [by apply keeps_getitem|]. intros df Hdf.
  eapply keeps_bind; [by apply keeps_getitem|]. intros tr Htr.
  eapply keeps_bind; [by apply keeps_setitem|]. intros _ _.
  eapply keeps_bind; [by apply keeps_setitem|]. intros _ _.
  eapply keeps_bind; [by apply (keeps_lift _ (λ _, True))|]. intros cc _.
  eapply keeps_bind; [by apply keeps_getitem|]. intros df2 Hdf2.
  by apply keeps_setitem.
Qed.

Lemma keeps_copy_items {K} h0
    (copy : value → gmap nat nat → M (value * gmap nat nat))
    (entries : list (K * value)) (memo : gmap nat nat) :
  (∀ x memo, memo_fresh (length h0) memo →
     keeps h0 (λ r, fresh_value (length h0) r.1 ∧ memo_fresh (length h0) r.2)
       (copy x memo)) →
  memo_fresh (length h0) memo →
  keeps h0 (λ r, Forall (λ e : K * value, fresh_value (length h0) e.2) r.1
                 ∧ memo_fresh (length h0) r.2)
    (copy_items copy entries memo).
Proof.
  intros Hcopy. revert memo.
  induction entries as [|[k v] entries IH]; intros memo Hmemo; cbn [copy_items].
  { by apply keeps_ret. }
  eapply keeps_bind; [by apply Hcopy|]. intros r [Hr1 Hr2].
  eapply keeps_bind; [by apply IH|]. intros rs [Hrs1 Hrs2].
  apply keeps_ret. cbn. split; [by constructor | done].
Qed.

Lemma keeps_deepcopy_memo h0 (limit : nat) (x : value) (memo : gmap nat nat) :
  memo_fresh (length h0) memo →
  keeps h0 (λ r, fresh_value (length h0) r.1 ∧ memo_fresh (length h0) r.2)
    (deepcopy_memo limit x memo).
Proof.
  revert x memo. induction limit as [|limit IH]; intros x memo Hmemo;
    cbn [deepcopy_memo]; [apply keeps_raise|].
  destruct x; try (by apply keeps_ret).
  destruct (memo !! a) as [a'|] eqn:Hmem.
  { apply keeps_ret. split; [|done]. by apply (Hmemo a a'). }
  eapply keeps_bind; [apply keeps_load|]. intros [entries|elems] _.
  - eapply keeps_bind; [apply keeps_alloc; constructor|]. intros a' Ha'.
    eapply keeps_bind.
    { apply keeps_copy_items; [exact IH|]. by apply map_Forall_insert_2. }
    intros r [Hr1 Hr2].
    eapply keeps_bind; [by apply keeps_save|]. intros _ _.
    by apply keeps_ret.
  - eapply keeps_bind; [apply keeps_alloc; constructor|]. intros a' Ha'.
    eapply keeps_bind.
    { apply keeps_copy_items; [exact IH|]. by apply map_Forall_insert_2. }
    intros r [Hr1 Hr2].
    eapply keeps_bind.
    { apply keeps_save; [done|]. cbn. by apply Forall_fmap. }
    intros _ _. by apply keeps_ret.
Qed.

Lemma keeps_request_from_date h0 (limit : nat) (request : value) (date : Z)
    (maxcc : float) :
  keeps h0 (fresh_value (length h0)) (request_from_date limit request date maxcc).
Proof.
  unfold request_from_date.
  eapply keeps_bind; [by apply (keeps_lift _ (λ _, True))|]. intros date_to _.
  eapply keeps_bind.
  { unfold deepcopy. eapply keeps_bind.
    - apply keeps_deepcopy_memo. apply map_Forall_empty.
    - intros r [Hr _]. apply keeps_ret. exact Hr. }
  intros copy Hcopy.
  eapply keeps_bind; [by apply keeps_getitem|]. intros input Hinput.
  eapply keeps_bind; [by apply keeps_getitem|]. intros datas Hdatas.
  eapply keeps_bind; [by apply keeps_iterate|]. intros entries Hentries.
  eapply keeps_bind.
  { apply keeps_for_each. eapply Forall_impl; [exact Hentries|].
    intros data Hdata. by apply keeps_specialise_data. }
  intros _ _. by apply keeps_ret.
Qed.

(** Whatever its outcome, [request_from_date] only adds objects to the
    store: every object that was there, the template included, is as it
    was, and no service is called. *)
Lemma request_from_date_frame (limit : nat) (request : value) (date : Z)
    (maxcc : float) (w : world) :
  store w `prefix_of` store (request_from_date limit request date maxcc w).1
  ∧ log (request_from_date limit request date maxcc w).1 = log w.
Proof.
  destruct (keeps_request_from_date (store w) limit request date maxcc w
              (grown_from_refl _)) as ([? _] & ? & _).
  done.
Qed.

(** ** request_from_date: two dates, one template *)

Lemma same_but_time_object_refl (o : object) : same_but_time_object o o.
Proof.
  destruct o as [entries|elems]; cbn; [|done].
  induction entries; constructor; auto.
Qed.

Lemma related_refl (w : world) : related w w.
Proof.
  split; [|done]. unfold same_but_time.
  induction (store w); constructor; [apply same_but_time_object_refl | done].
Qed.

Lemma related_lookup w1 w2 (a : nat) :
  related w1 w2 →
  match store w1 !! a, store w2 !! a with
  | Some o1, Some o2 => same_but_time_object o1 o2
  | None, None => True
  | _, _ => False
  end.
Proof.
  intros [Hs _]. destruct (store w1 !! a) as [o1|] eqn:H1.
  - destruct (Forall2_lookup_l _ _ _ _ _ Hs H1) as (o2 & -> & Ho). done.
  - apply lookup_ge_None in H1. rewrite (Forall2_length _ _ _ Hs) in H1.
    apply lookup_ge_None in H1. by rewrite H1.
Qed.

Lemma same_but_time_dict_get e1 e2 k :
  Forall2 (λ x y : string * value, x.1 = y.1 ∧ (x.2 = y.2 ∨ time_key x.1)) e1 e2 →
  ¬ time_key k → dict_get e1 k = dict_get e2 k.
Proof.
  intros Hall Hk. induction Hall as [|[k1 v1] [k2 v2] e1 e2 [Hkey Hval] _ IH]; [done|].
  cbn in *. subst k2. destruct (decide (k1 = k)) as [->|?]; [|done].
  destruct Hval as [->|?]; done.
Qed.

Lemma same_but_time_dict_set e1 e2 k v1 v2 :
  Forall2 (λ x y : string * value, x.1 = y.1 ∧ (x.2 = y.2 ∨ time_key x.1)) e1 e2 →
  v1 = v2 ∨ time_key k →
  Forall2 (λ x y : string * value, x.1 = y.1 ∧ (x.2 = y.2 ∨ time_key x.1))
    (dict_set e1 k v1) (dict_set e2 k v2).
Proof.
  intros Hall Hv. induction Hall as [|[k1 w1] [k2 w2] e1 e2 [Hkey Hval] Hall IH]; cbn.
  - constructor; [|done]. by split.
  - cbn in *. subst k2. destruct (decide (k1 = k)) as [->|?].
    + constructor; [|done]. by split.
    + constructor; [|done]. by split.
Qed.

Lemma lockstep_ret {A} (a : A) : lockstep (mret a) (mret a).
Proof. by intros w1 w2 Hw. Qed.

Lemma lockstep_lift {A} (r : result A) : lockstep (lift r) (lift r).
Proof. by intros w1 w2 Hw. Qed.

Lemma lockstep_bind {A B} (m1 m2 : M A) (f1 f2 : A → M B) :
  lockstep m1 m2 → (∀ a, lockstep (f1 a) (f2 a)) →
  lockstep (m1 ≫= f1) (m2 ≫= f2).
Proof.
  intros Hm Hf w1 w2 Hw. destruct (Hm w1 w2 Hw) as [Hw' Hr].
  unfold mbind, M_mbind, M_bind.
  destruct (m1 w1) as [w1' [a1|e1]], (m2 w2) as [w2' [a2|e2]];
    cbn in *; try discriminate.
  - injection Hr as <-. by apply Hf.
  - split; [exact Hw' | by injection Hr as ->].
Qed.

Lemma lockstep_getitem (obj : value) (k : string) :
  ¬ time_key k → lockstep (getitem obj k) (getitem obj k).
Proof.
  intros Hk w1 w2 Hw. unfold getitem, load.
  destruct obj; cbn; try done. msimpl.
  pose proof (related_lookup w1 w2 a Hw) as Ha.
  destruct (store w1 !! a) as [[e1|l1]|], (store w2 !! a) as [[e2|l2]|];
    cbn in *; try done.
  rewrite (same_but_time_dict_get e1 e2 k Ha Hk).
  by destruct (dict_get e2 k).
Qed.

Lemma lockstep_setitem (obj : value) (k : string) (v1 v2 : value) :
  v1 = v2 ∨ time_key k → lockstep (setitem obj k v1) (setitem obj k v2).
Proof.
  intros Hv w1 w2 Hw. unfold setitem, load, save.
  destruct obj; cbn; try done. msimpl.
  pose proof (related_lookup w1 w2 a Hw) as Ha.
  destruct (store w1 !! a) as [[e1|l1]|], (store w2 !! a) as [[e2|l2]|];
    cbn in *; try done.
  split; [|done]. destruct Hw as [Hs Hl]. split; [|done]. cbn.
  apply Forall2_insert; [done|]. cbn. by apply same_but_time_dict_set.
Qed.

Lemma lockstep_iterate (obj : value) : lockstep (iterate obj) (iterate obj).
Proof.
  intros w1 w2 Hw. unfold iterate, load.
  destruct obj; cbn; try done. msimpl.
  pose proof (related_lookup w1 w2 a Hw) as Ha.
  destruct (store w1 !! a) as [[e1|l1]|], (store w2 !! a) as [[e2|l2]|];
    cbn in *; try done.
  - split; [done|]. f_equal.
    induction Ha as [|[k1 x1] [k2 x2] e1 e2 [Hkey _] _ IH]; [done|].
    cbn in *. by rewrite Hkey, IH.
  - by subst.
Qed.

Lemma lockstep_for_each {A} (l : list A) (body1 body2 : A → M unit) :
  (∀ x, lockstep (body1 x) (body2 x)) →
  lockstep (for_each l body1) (for_each l body2).
Proof.
  intros Hbody. induction l as [|x l IH]; cbn [for_each].
  - apply lockstep_ret.
  - apply lockstep_bind; [apply Hbody | by intros _].
Qed.

Lemma lockstep_specialise_data tf1 tu1 tf2 tu2 maxcc data :
  lockstep (specialise_data tf1 tu1 maxcc data) (specialise_data tf2 tu2 maxcc data).
Proof.
  assert (Hdf : ¬ time_key "dataFilter") by (intros [?|?]; discriminate).
  assert (Htr : ¬ time_key "timeRange") by (intros [?|?]; discriminate).
  unfold specialise_data.
  apply lockstep_bind; [by apply lockstep_getitem|]. intros df.
  apply lockstep_bind; [by apply lockstep_getitem|]. intros tr.
  apply lockstep_bind; [apply lockstep_setitem; right; by left|]. intros _.
  apply lockstep_bind; [apply lockstep_setitem; right; by right|]. intros _.
  apply lockstep_bind; [apply lockstep_lift|]. intros cc.
  apply lockstep_bind; [by apply lockstep_getitem|]. intros df2.
  apply lockstep_setitem. by left.
Qed.

(** C5: [request_from_date] only adds objects to the store, so every object
    that was there, the template included, is unchanged after one call
    and after a second call for another date; and the requests it returns
    for two dates from the same template lie at the same address in stores
    that hold the same objects but for the values under the keys from and
    to. *)
Theorem request_from_date_pure (limit : nat) (request : value) (d1 d2 : Z)
    (maxcc : float) (w : world) :
  (∀ a o, store w !! a = Some o →
     store (request_from_date limit request d1 maxcc w).1 !! a = Some o
     ∧ store (request_from_date limit request d2 maxcc
                (request_from_date limit request d1 maxcc w).1).1 !! a = Some o)
  ∧ (∀ r1 r2,
       (request_from_date limit request d1 maxcc w).2 = Ok r1 →
       (request_from_date limit request d2 maxcc w).2 = Ok r2 →
       r1 = r2
       ∧ same_but_time (store (request_from_date limit request d1 maxcc w).1)
                       (store (request_from_date limit request d2 maxcc w).1)).
Proof.
  split.
  - intros a o Ha.
    destruct (request_from_date_frame limit request d1 maxcc w) as [[ext1 H1] _].
    destruct (request_from_date_frame limit request d2 maxcc
                (request_from_date limit request d1 maxcc w).1) as [[ext2 H2] _].
    rewrite H2, H1. split.
    + by apply lookup_app_l_Some.
    + by apply lookup_app_l_Some, lookup_app_l_Some.
  - intros r1 r2. unfold request_from_date. msimpl.
    destruct (Datetime.add d1 _) as [to1|]; [|discriminate].
    destruct (Datetime.add d2 _) as [to2|]; [|discriminate].
    destruct (deepcopy limit request w) as [w0 [copy|]]; [|discriminate].
    pose (rest := λ tf tu : string,
      (input ← getitem copy "input";
       datas ← getitem input "data";
       datas ← iterate datas;
       _ ← for_each datas (specialise_data tf tu maxcc);
       mret copy) : M value).
    assert (Hlock : ∀ tf1 tu1 tf2 tu2, lockstep (rest tf1 tu1) (rest tf2 tu2)).
    { intros. unfold rest.
      apply lockstep_bind; [apply lockstep_getitem; intros [?|?]; discriminate|].
      intros input.
      apply lockstep_bind; [apply lockstep_getitem; intros [?|?]; discriminate|].
      intros datas. apply lockstep_bind; [apply lockstep_iterate|]. intros entries.
      apply lockstep_bind;
        [apply lockstep_for_each; intros; apply lockstep_specialise_data|].
      intros _. apply lockstep_ret. }
    destruct (Hlock (Datetime.isoformat d1 +:+ "Z") (Datetime.isoformat to1 +:+ "Z")
                (Datetime.isoformat d2 +:+ "Z") (Datetime.isoformat to2 +:+ "Z")
                w0 w0 (related_refl w0)) as [[Hs _] Hr].
    change ((rest (Datetime.isoformat d1 +:+ "Z") (Datetime.isoformat to1 +:+ "Z") w0).2
            = Ok r1 →
            (rest (Datetime.isoformat d2 +:+ "Z") (Datetime.isoformat to2 +:+ "Z") w0).2
            = Ok r2 →
            r1 = r2
            ∧ same_but_time
                (store (rest (Datetime.isoformat d1 +:+ "Z")
                          (Datetime.isoformat to1 +:+ "Z") w0).1)
                (store (rest (Datetime.isoformat d2 +:+ "Z")
                          (Datetime.isoformat to2 +:+ "Z") w0).1)).
    intros H1 H2. rewrite H1, H2 in Hr. injection Hr as <-. split; [done|].
    exact Hs.
Qed.

Lemma request_from_date_pure_witness :
  ∃ r,
    (request_from_date 1000 Example.template_ref (Example.day 1) 1%float
       Example.template_world).2 = Ok r
    ∧ (request_from_date 1000 Example.template_ref (Example.day 2) 1%float
         Example.template_world).2 = Ok r
    ∧ same_but_time
        (store (request_from_date 1000 Example.template_ref (Example.day 1) 1%float
                  Example.template_world).1)
        (store (request_from_date 1000 Example.template_ref (Example.day 2) 1%float
                  Example.template_world).1).
Proof.
  destruct ((request_from_date 1000 Example.template_ref (Example.day 1) 1%float
               Example.template_world).2) as [r1|e1] eqn:H1;
    [|vm_compute in H1; discriminate].
  destruct ((request_from_date 1000 Example.template_ref (Example.day 2) 1%float
               Example.template_world).2) as [r2|e2] eqn:H2;
    [|vm_compute in H2; discriminate].
  destruct (proj2 (request_from_date_pure 1000 Example.template_ref
                     (Example.day 1) (Example.day 2) 1%float Example.template_world)
              r1 r2 H1 H2) as [Heq Hsame].
  exists r1. split; [reflexivity|]. split; [by rewrite Heq | exact Hsame].
Defined.

(** The template of the example is untouched by a specialisation, and the
    request returned is a new object. *)
Example template_untouched :
  take (length (store Example.template_world))
    (store (request_from_date 1000 Example.template_ref (Example.day 1) 0.3%float
              Example.template_world).1)
  = store Example.template_world
  ∧ Example.template_ref = VRef 14
  ∧ (request_from_date 1000 Example.template_ref (Example.day 1) 0.3%float
       Example.template_world).2 = Ok (VRef 15).
Proof. repeat split; by vm_compute. Qed.

(** ** execute: images with three axes

    For decoded images that have a channel axis both branches of the
    assembly store what the specification describes. *)

Lemma set_feature_ok `{Float32} (ft : feature) (a : array) (p p' : EOPatch) :
  set_feature ft a p = Ok p' →
  p' = with_feature ft a p ∧ length (array_shape a) = feature_ndim ft.1.
Proof. unfold set_feature. destruct (decide _); [by intros [= <-] | discriminate]. Qed.

Lemma chunks_take_length {A} (count width k : nat) (l : list A) :
  length l = (count * width)%nat → (k ≤ width)%nat →
  length (concat (take k <$> chunks count width l)) = (count * k)%nat.
Proof.
  revert l. induction count as [|count IH]; intros l Hl Hk; [done|].
  cbn [chunks fmap list_fmap concat]. rewrite length_app, length_take.
  rewrite IH; [|rewrite length_drop; lia|done].
  rewrite length_take. lia.
Qed.

Lemma chunks_channel_length {A} (count width idx : nat) (l : list A) :
  length l = (count * width)%nat → (idx < width)%nat →
  length (omap (λ row, row !! idx) (chunks count width l)) = count.
Proof.
  revert l. induction count as [|count IH]; intros l Hl Hidx; [done|].
  cbn [chunks omap list_omap].
  destruct (take width l !! idx) as [x|] eqn:Hx.
  - cbn. f_equal. apply IH; [rewrite length_drop; lia|done].
  - apply lookup_ge_None in Hx. rewrite length_take in Hx. lia.
Qed.

Lemma slice_last_3d (h w c k : nat) (img : ndarray Z) :
  three_dimensional h w c img → (k ≤ c)%nat →
  slice_last k img
  = Ok {| shape := [h; w; k]; items := leading_channels h w c k img |}.
Proof.
  intros [Hshape _] Hk. unfold slice_last, leading_channels. rewrite Hshape.
  cbn. rewrite Nat.mul_1_r, Nat.min_l by done. reflexivity.
Qed.

Lemma index_last_3d (h w c idx : nat) (img : ndarray Z) :
  three_dimensional h w c img → (idx < c)%nat →
  index_last idx (atleast_3d img)
  = Ok {| shape := [h; w]; items := channel h w c idx img |}.
Proof.
  intros [Hshape _] Hidx. unfold index_last, atleast_3d, channel. rewrite Hshape.
  cbn. rewrite Hshape. cbn. rewrite Nat.mul_1_r.
  by rewrite decide_True.
Qed.

Lemma asarray_same_shape {A} (s : list nat) (arrays : list (ndarray A)) :
  Forall (λ a, shape a = s) arrays →
  ∃ s', asarray arrays = Ok {| shape := s'; items := concat (items <$> arrays) |}.
Proof.
  intros Hall. destruct arrays as [|a rest]; [by eexists|].
  unfold asarray. apply Forall_cons in Hall as [Ha Hrest].
  assert (forallb (λ b, bool_decide (shape b = shape a)) rest = true) as ->.
  { apply forallb_forall. intros b Hb%list_elem_of_In.
    rewrite Forall_forall in Hrest. apply bool_decide_eq_true.
    rewrite Ha. by apply Hrest. }
  by eexists.
Qed.

Lemma reshape_exact {A} (n h w k : nat) (a : ndarray A) :
  length (items a) = (n * (h * w * k))%nat →
  reshape ([Z.of_nat n; Z.of_nat h; Z.of_nat w] ++ [Z.of_nat k]) a
  = Ok {| shape := [n; h; w; k]; items := items a |}.
Proof.
  intros Hlen. unfold reshape. cbn [app].
  assert (Hf : filter (λ d : Z, d ≠ -1) [Z.of_nat n; Z.of_nat h; Z.of_nat w; Z.of_nat k]
               = [Z.of_nat n; Z.of_nat h; Z.of_nat w; Z.of_nat k]).
  { repeat (rewrite filter_cons_True by lia; f_equal). }
  rewrite Hf. cbn [length Nat.sub forallb foldr].
  assert (Hnn : ∀ m, (0 <=? Z.of_nat m) = true) by (intros; apply Z.leb_le; lia).
  rewrite !Hnn. cbn [andb].
  rewrite (proj2 (Z.eqb_eq _ _)) by (rewrite Hlen; lia).
  cbn [fmap list_fmap]. by rewrite !Nat2Z.id.
Qed.

Lemma list_index_first (l : list string) (x : string) :
  x ∈ l →
  ∃ idx, list_index l x = Ok idx
         ∧ l !! idx = Some x
         ∧ ∀ j, (j < idx)%nat → l !! j ≠ Some x.
Proof.
  intros Hin. unfold list_index.
  destruct (list_find _ l) as [[idx y]|] eqn:Hfind.
  - apply list_find_Some in Hfind as (Hidx & -> & Hfirst).
    exists idx. split; [done|]. split; [done|].
    intros j Hj Hlook. by apply (Hfirst j x).
  - apply list_find_None in Hfind. rewrite Forall_forall in Hfind.
    by destruct (Hfind x Hin).
Qed.

(** On images with a channel axis the loop over the additional features
    reads each feature at the first position of its name in [all_bands],
    casts it to booleans and stores it with shape (dates, height, width, 1). *)
Lemma store_additional_3d `{Float32} self (images : list (ndarray Z * pynumber))
    (h w : nat) (f_type : FeatureType) (f_name : string) (p : EOPatch) :
  Forall (λ im, three_dimensional h w (length (all_bands self)) im.1) images →
  (f_type, f_name) ∈ additional_data self →
  feature_ndim f_type = 4%nat →
  ∃ idx,
    list_index (all_bands self) f_name = Ok idx
    ∧ all_bands self !! idx = Some f_name
    ∧ (∀ j, (j < idx)%nat → all_bands self !! j ≠ Some f_name)
    ∧ store_additional self images
        [Z.of_nat (length images); Z.of_nat h; Z.of_nat w] (f_type, f_name) p
      = Ok (with_feature (f_type, f_name)
              (BoolArray
                 {| shape := [length images; h; w; 1%nat];
                    items := (λ sample, negb (sample =? 0))
                             <$> concat ((λ im, channel h w (length (all_bands self))
                                                  idx im.1) <$> images) |}) p).
Proof.
  intros Himages Hin Hndim.
  assert (Hname : f_name ∈ all_bands self).
  { unfold all_bands. apply elem_of_app. right.
    apply list_elem_of_fmap. by exists (f_type, f_name). }
  destruct (list_index_first (all_bands self) f_name Hname)
    as (idx & Hindex & Hidx & Hfirst).
  exists idx. split; [done|]. split; [done|]. split; [done|].
  unfold store_additional. rewrite Hindex.
  cbn [mbind result_mbind result_bind].
  assert (Hlt : (idx < length (all_bands self))%nat) by (by eapply lookup_lt_Some).
  assert (Hmap : result_mapM (λ im : ndarray Z * pynumber,
                                index_last idx (atleast_3d im.1)) images
                 = Ok ((λ im, {| shape := [h; w];
                                 items := channel h w (length (all_bands self)) idx im.1 |})
                       <$> images)).
  { induction Himages as [|im images Him _ IH]; [done|].
    cbn [result_mapM]. rewrite (index_last_3d h w _ idx _ Him Hlt).
    cbn [mbind result_mbind result_bind]. rewrite IH. reflexivity. }
  rewrite Hmap. cbn [mbind result_mbind result_bind].
  destruct (asarray_same_shape [h; w]
              ((λ im : ndarray Z * pynumber,
                  {| shape := [h; w];
                     items := channel h w (length (all_bands self)) idx im.1 |})
               <$> images)) as [s' Hstack].
  { apply Forall_fmap. by apply Forall_true. }
  rewrite Hstack. cbn [mbind result_mbind result_bind].
  rewrite <- list_fmap_compose in *.
  change (?f ∘ ?g) with (λ im : ndarray Z * pynumber,
                           channel h w (length (all_bands self)) idx im.1) in *.
  rewrite (reshape_exact (length images) h w 1).
  - cbn [mbind result_mbind result_bind]. unfold set_feature.
    by rewrite decide_True by (cbn [fst]; rewrite Hndim; reflexivity).
  - cbn [items]. clear Hstack Hmap. induction Himages as [|im images [_ Him] _ IH].
    + done.
    + cbn [fmap list_fmap concat length]. rewrite length_app, IH.
      unfold channel. rewrite (chunks_channel_length (h * w)); [lia|done|done].
Qed.

(** On images with a channel axis the bands branch takes the first
    [len(self.bands)] channels of every pixel, converts them to 32-bit
    floats, multiplies them by the factor of their image, rounds to four
    decimals and stores them with shape (dates, height, width, bands). *)
Lemma store_bands_3d `{Float32} self (images : list (ndarray Z * pynumber))
    (h w : nat) (ft : feature) (p : EOPatch) :
  Forall (λ im, three_dimensional h w (length (all_bands self)) im.1) images →
  bands self ≠ [] →
  bands_feature self = Some ft →
  feature_ndim ft.1 = 4%nat →
  store_bands self images [Z.of_nat (length images); Z.of_nat h; Z.of_nat w] p
  = Ok (with_feature ft
          (Float32Array
             {| shape := [length images; h; w; length (bands self)];
                items :=
                  f32_round 4
                  <$> concat ((λ im : ndarray Z * pynumber,
                                 (λ x, f32_mul x im.2)
                                 <$> (f32_of_uint16
                                      <$> leading_channels h w (length (all_bands self))
                                            (length (bands self)) im.1))
                              <$> images) |}) p).
Proof.
  intros Himages Hbands Hft Hndim. unfold store_bands.
  destruct (bands self) as [|b bs] eqn:Hb; [done|]. rewrite <- Hb. clear Hbands.
  assert (Hle : (length (bands self) ≤ length (all_bands self))%nat).
  { unfold all_bands. rewrite length_app. lia. }
  set (c := length (all_bands self)) in *. set (k := length (bands self)) in *.
  set (piece := λ im : ndarray Z * pynumber,
         {| shape := [h; w; k];
            items := (λ x, f32_mul x im.2)
                     <$> (f32_of_uint16 <$> leading_channels h w c k im.1) |}).
  assert (Hmap : result_mapM (λ im : ndarray Z * pynumber,
                    sliced ← slice_last k im.1;
                    Ok (amap (λ x, f32_mul x im.2) (amap f32_of_uint16 sliced))) images
                 = Ok (piece <$> images)).
  { induction Himages as [|im images Him _ IH]; [done|].
    cbn [result_mapM]. rewrite (slice_last_3d h w c k _ Him Hle).
    cbn [mbind result_mbind result_bind]. rewrite IH. reflexivity. }
  rewrite Hmap. cbn [mbind result_mbind result_bind].
  destruct (asarray_same_shape [h; w; k] (piece <$> images)) as [s' Hstack].
  { apply Forall_fmap. by apply Forall_true. }
  rewrite Hstack. cbn [mbind result_mbind result_bind].
  rewrite <- list_fmap_compose.
  rewrite (reshape_exact (length images) h w k).
  - cbn [mbind result_mbind result_bind]. rewrite Hft. unfold set_feature.
    by rewrite decide_True by (cbn [fst]; rewrite Hndim; reflexivity).
  - cbn [items]. clear Hstack Hmap. induction Himages as [|im images [_ Him] _ IH].
    + done.
    + cbn [fmap list_fmap concat length compose]. rewrite length_app, IH.
      cbn [piece items]. rewrite !length_fmap. unfold leading_channels.
      rewrite (chunks_take_length (h * w) c k); [lia|done|done].
Qed.

(** The channels of pixel number [i] (row by row) of an image are the
    [i]-th chunk of its samples. *)
Lemma chunks_lookup {A} (count width i : nat) (l : list A) :
  (i < count)%nat →
  chunks count width l !! i = Some (take width (drop (i * width) l)).
Proof.
  revert i l. induction count as [|count IH]; intros i l Hi; [lia|].
  destruct i as [|i]; cbn [chunks]; [done|].
  cbn [lookup list_lookup]. rewrite IH by lia.
  rewrite drop_drop. reflexivity.
Qed.

(** ** execute: the output container *)

Lemma reshape_first_axis {A} (n : nat) (rest : list Z) (a r : ndarray A) :
  reshape (Z.of_nat n :: rest) a = Ok r → head (shape r) = Some n.
Proof.
  unfold reshape. intros Hr.
  repeat match type of Hr with
         | (if ?c then _ else _) = _ => destruct c; [|discriminate]
         | match ?x with _ => _ end = _ => destruct x; try discriminate
         end.
  - injection Hr as <-. cbn. by rewrite Nat2Z.id.
  - injection Hr as <-. cbn.
    destruct (Z.of_nat n =? -1) eqn:Heq; [apply Z.eqb_eq in Heq; lia|].
    by rewrite Nat2Z.id.
Qed.

Lemma store_additional_inv `{Float32} self images (n : nat) sy sx ft p p' :
  store_additional self images [Z.of_nat n; sy; sx] ft p = Ok p' →
  timestamp p' = timestamp p
  ∧ ∃ a, features p' = <[ft := BoolArray a]> (features p)
         ∧ head (shape a) = Some n.
Proof.
  unfold store_additional. destruct ft as [f_type f_name]. intros Hs.
  destruct (list_index _ _) as [idx|]; [|discriminate].
  cbn [mbind result_mbind result_bind] in Hs.
  destruct (result_mapM _ images) as [arrays|]; [|discriminate].
  cbn [mbind result_mbind result_bind] in Hs.
  destruct (asarray arrays) as [stacked|]; [|discriminate].
  cbn [mbind result_mbind result_bind] in Hs.
  destruct (reshape _ stacked) as [reshaped|] eqn:Hr; [|discriminate].
  cbn [mbind result_mbind result_bind] in Hs. apply set_feature_ok in Hs as [-> _].
  split; [done|]. eexists. split; [reflexivity|].
  cbn. by eapply reshape_first_axis.
Qed.

Lemma store_all_additional_inv `{Float32} self images (n : nat) sy sx fts p p' :
  store_all_additional self images [Z.of_nat n; sy; sx] fts p = Ok p' →
  timestamp p' = timestamp p
  ∧ (∀ ft, ft ∈ fts →
       ∃ a, features p' !! ft = Some (BoolArray a) ∧ head (shape a) = Some n)
  ∧ (∀ ft, ft ∉ fts → features p' !! ft = features p !! ft).
Proof.
  revert p. induction fts as [|ft fts IH]; intros p Hs.
  { injection Hs as <-. split; [done|]. split; [|done]. by intros ? ?%elem_of_nil. }
  cbn [store_all_additional] in Hs.
  destruct (store_additional _ _ _ ft p) as [p1|] eqn:H1; [|discriminate].
  cbn [mbind result_mbind result_bind] in Hs.
  apply store_additional_inv in H1 as (Ht1 & a & Hf1 & Ha).
  destruct (IH p1 Hs) as (Ht & Hin & Hout). split; [congruence|]. split.
  - intros ft' Hft'. destruct (decide (ft' ∈ fts)) as [?|Hnot]; [by apply Hin|].
    apply elem_of_cons in Hft' as [->|?]; [|done].
    rewrite (Hout ft Hnot), Hf1, lookup_insert_eq. eauto.
  - intros ft' Hft'. apply not_elem_of_cons in Hft' as [? ?].
    rewrite Hout by done. rewrite Hf1. by rewrite lookup_insert_ne.
Qed.

Lemma store_bands_inv `{Float32} self images (n : nat) sy sx p p' :
  store_bands self images [Z.of_nat n; sy; sx] p = Ok p' →
  timestamp p' = timestamp p
  ∧ ((bands self = [] ∧ p' = p)
     ∨ (bands self ≠ [] ∧
        ∃ ft a, bands_feature self = Some ft
                ∧ features p' = <[ft := Float32Array a]> (features p)
                ∧ head (shape a) = Some n)).
Proof.
  unfold store_bands. intros Hs.
  destruct (bands self) as [|b bs] eqn:Hb.
  { injection Hs as <-. split; [done|]. by left. }
  destruct (result_mapM _ images) as [arrays|]; [|discriminate].
  cbn [mbind result_mbind result_bind] in Hs.
  destruct (asarray arrays) as [stacked|]; [|discriminate].
  cbn [mbind result_mbind result_bind] in Hs.
  destruct (reshape _ stacked) as [reshaped|] eqn:Hr; [|discriminate].
  cbn [mbind result_mbind result_bind] in Hs.
  destruct (bands_feature self) as [ft|]; [|discriminate].
  apply set_feature_ok in Hs as [-> _]. split; [done|]. right. split; [done|].
  eexists _, _. split; [done|]. split; [reflexivity|].
  cbn. by eapply reshape_first_axis.
Qed.

Lemma later_dates_sublist pairs td kept :
  later_dates pairs td = Ok kept → sublist kept (snd <$> pairs).
Proof.
  revert kept. induction pairs as [|[d1 d2] pairs IH]; intros kept Hl.
  { injection Hl as <-. constructor. }
  cbn [later_dates] in Hl.
  destruct (timedelta_gt _ td) as [keep|]; [|discriminate].
  cbn [mbind result_mbind result_bind] in Hl.
  destruct (later_dates pairs td) as [kept'|]; [|discriminate].
  cbn [mbind result_mbind result_bind] in Hl. injection Hl as <-.
  specialize (IH kept' eq_refl). cbn.
  destruct keep; [by apply sublist_skip | by apply sublist_cons].
Qed.

Lemma snd_zip_removelast_tail (s : list Z) :
  (zip (removelast s) (tail s)).*2 = tail s.
Proof.
  induction s as [|x [|y r] IH]; [done|done|].
  change (y :: (zip (removelast (y :: r)) (tail (y :: r))).*2 = y :: r).
  by rewrite IH.
Qed.

Lemma StronglySorted_sublist {A} (R : relation A) (l1 l2 : list A) :
  sublist l1 l2 → StronglySorted R l2 → StronglySorted R l1.
Proof.
  induction 1 as [|x l1 l2 Hsub IH|x l1 l2 Hsub IH]; intros Hs; [done| |].
  - apply StronglySorted_cons in Hs as [Hall Hs].
    apply StronglySorted_cons. split; [|by apply IH].
    rewrite Forall_forall in Hall |- *. intros y Hy. apply Hall.
    by eapply sublist_subseteq.
  - apply StronglySorted_cons in Hs as [_ Hs]. by apply IH.
Qed.

(** Whatever the threshold, the dates [get_dates] returns are ascending. *)
Lemma get_dates_ascending (env : services) self bb ti w w' out :
  get_dates env self bb ti w = (w', Ok out) → StronglySorted Z.le out.
Proof.
  unfold get_dates. msimpl.
  destruct (wfs_get_dates env bb ti _ _) as [dates|]; [|discriminate].
  destruct (decide _) as [|_]; [discriminate|]. msimpl.
  assert (Hs : StronglySorted Z.le (sorted dates))
    by apply (StronglySorted_merge_sort Z.le).
  destruct (sorted dates) as [|d0 rest] eqn:Hsorted; [discriminate|].
  cbn [first_item].
  destruct (later_dates _ _) as [later|] eqn:Hl; [|discriminate].
  intros [= _ <-]. apply later_dates_sublist in Hl.
  rewrite snd_zip_removelast_tail in Hl. cbn in Hl.
  eapply StronglySorted_sublist; [|exact Hs]. by apply sublist_skip.
Qed.

(** The dates returned do not depend on the world the query is made in. *)
Lemma get_dates_result (env : services) self bb ti w1 w2 :
  (get_dates env self bb ti w1).2 = (get_dates env self bb ti w2).2.
Proof.
  unfold get_dates. msimpl.
  destruct (wfs_get_dates env bb ti _ _) as [dates|]; [|done].
  destruct (decide _); [done|]. msimpl.
  destruct (first_item _); [|done]. by destruct (later_dates _ _).
Qed.

(** What a run of [execute] that returns has gone through. *)
Lemma execute_inv `{Float32} (env : services) self eopatch bbox ti w w' p :
  execute env self eopatch bbox ti w = (w', Ok p) →
  ∃ bb size_x size_y dates images p1 p2,
    bbox = Some bb
    ∧ resolve_size self bbox = Ok (Some (size_x, size_y))
    ∧ (get_dates env self bb ti w).2 = Ok dates
    ∧ StronglySorted Z.le dates
    ∧ store_all_additional self images [Z.of_nat (length dates); size_y; size_x]
        (additional_data self)
        (set_bbox bb (set_timestamp dates (default empty_patch eopatch))) = Ok p1
    ∧ store_bands self images [Z.of_nat (length dates); size_y; size_x] p1 = Ok p2
    ∧ timestamp p = timestamp p2
    ∧ features p = features p2.
Proof.
  unfold execute. msimpl.
  destruct (resolve_size self bbox) as [sizes|] eqn:Hsize; [|discriminate].
  destruct bbox as [bb|]; [|discriminate].
  destruct sizes as [[size_x size_y]|]; [|discriminate].
  destruct (generate_evalscript_ok self) as [script ->].
  match goal with |- context [alloc_json ?j w] =>
    destruct (alloc_json_extends j w) as (request & ext & ->) end.
  destruct (get_dates env self bb ti _) as [w2 [dates|]] eqn:Hdates; [|discriminate].
  destruct (mapM _ dates w2) as [w3 [requests|]]; [|discriminate].
  destruct (result_mapM _ requests) as [payloads|]; [|discriminate].
  destruct (client_download env payloads) as [images|]; [|discriminate].
  destruct (store_all_additional _ _ _ _ _) as [p1|] eqn:Hp1; [|discriminate].
  destruct (store_bands _ _ _ _) as [p2|] eqn:Hp2; [|discriminate].
  intros [= _ <-].
  eexists bb, size_x, size_y, dates, _, p1, p2.
  split; [done|]. split; [done|]. split.
  { erewrite get_dates_result. by rewrite Hdates. }
  split; [by eapply get_dates_ascending|].
  split; [exact Hp1|]. by repeat split.
Qed.

(** C9: after a run of [execute] that returns, the timestamps of the
    container are the dates [get_dates] kept, in ascending order, and every
    array the run stored (one per additional feature, and the bands feature
    when there are bands) has as many entries along its first axis as
    there are timestamps; any other array of the container is one the
    caller supplied with it. *)
Theorem execute_timestamps `{Float32} (env : services)
    (self : SentinelHubProcessingInput) (eopatch : option EOPatch)
    (bbox : option BBox) (ti : TimeInterval) (w w' : world) (p : EOPatch) :
  execute env self eopatch bbox ti w = (w', Ok p) →
  (∃ bb, bbox = Some bb ∧ (get_dates env self bb ti w).2 = Ok (timestamp p))
  ∧ StronglySorted Z.le (timestamp p)
  ∧ (∀ ft, ft ∈ additional_data self →
       ∃ a, features p !! ft = Some a
            ∧ date_axis a = Some (length (timestamp p)))
  ∧ (bands self ≠ [] →
       ∃ ft a, bands_feature self = Some ft
               ∧ features p !! ft = Some a
               ∧ date_axis a = Some (length (timestamp p)))
  ∧ (∀ ft a, features p !! ft = Some a →
       date_axis a = Some (length (timestamp p))
       ∨ ∃ p0, eopatch = Some p0 ∧ features p0 !! ft = Some a).
Proof.
  intros Hrun.
  destruct (execute_inv env self eopatch bbox ti w w' p Hrun)
    as (bb & size_x & size_y & dates & images & p1 & p2
        & -> & _ & Hdates & Hasc & Hp1 & Hp2 & Ht & Hf).
  apply store_all_additional_inv in Hp1 as (Ht1 & Hin & Hout).
  apply store_bands_inv in Hp2 as (Ht2 & Hbands).
  assert (Htime : timestamp p = dates) by (rewrite Ht, Ht2, Ht1; done).
  rewrite Htime, Hf. unfold date_axis.
  split; [by exists bb|]. split; [done|]. split; [|split].
  - intros ft Hft. destruct (Hin ft Hft) as (a & Ha & Hshape).
    destruct Hbands as [[_ ->]|(_ & ftb & b & _ & -> & Hb)]; [by eauto|].
    destruct (decide (ftb = ft)) as [->|Hne].
    + rewrite lookup_insert_eq. by eauto.
    + rewrite lookup_insert_ne by done. by eauto.
  - intros Hne. destruct Hbands as [[? _]|(_ & ftb & b & ? & -> & Hb)]; [done|].
    exists ftb, (Float32Array b). by rewrite lookup_insert_eq.
  - intros ft a Ha.
    assert (Hp1 : features p1 !! ft = Some a →
              head (array_shape a) = Some (length dates)
              ∨ ∃ p0, eopatch = Some p0 ∧ features p0 !! ft = Some a).
    { intros Ha1. destruct (decide (ft ∈ additional_data self)) as [Hft|Hft].
      - destruct (Hin ft Hft) as (a' & Ha' & Hshape). left.
        rewrite Ha' in Ha1. by injection Ha1 as <-.
      - rewrite (Hout ft Hft) in Ha1. destruct eopatch as [p0|]; [by eauto|].
        cbn in Ha1. by rewrite lookup_empty in Ha1. }
    destruct Hbands as [[_ ->]|(_ & ftb & b & _ & Hfb & Hb)]; [by auto|].
    rewrite Hfb in Ha. destruct (decide (ftb = ft)) as [->|Hne].
    + rewrite lookup_insert_eq in Ha. injection Ha as <-. by left.
    + rewrite lookup_insert_ne in Ha by done. by auto.
Qed.

Lemma execute_timestamps_witness :
  ∃ p,
    (execute
       (Example.env_with [Example.day 3; Example.day 1]
          [Example.with_factor (Example.image3 1 2 0 4 5 1) (PyInt 2);
           Example.with_factor (Example.image3 7 8 1 9 10 0) (PyFloat 0.5)])
       (Example.task (Some ["B04"; "B08"]) (Some [(MASK, "CLM")]) (TdTimedelta 0))
       None (Some Example.bbox) Example.january Example.start).2 = Ok p
    ∧ timestamp p = [Example.day 1; Example.day 3]
    ∧ ∀ ft a, features p !! ft = Some a →
        date_axis a = Some (length (timestamp p))
        ∨ ∃ p0, (None : option EOPatch) = Some p0 ∧ features p0 !! ft = Some a.
Proof.
  destruct (execute
       (Example.env_with [Example.day 3; Example.day 1]
          [Example.with_factor (Example.image3 1 2 0 4 5 1) (PyInt 2);
           Example.with_factor (Example.image3 7 8 1 9 10 0) (PyFloat 0.5)])
       (Example.task (Some ["B04"; "B08"]) (Some [(MASK, "CLM")]) (TdTimedelta 0))
       None (Some Example.bbox) Example.january Example.start)
    as [w' [p|e]] eqn:Hrun.
  - exists p. split; [done|]. split.
    + vm_compute in Hrun. by injection Hrun as _ <-.
    + by apply (execute_timestamps _ _ _ _ _ _ _ _ Hrun).
  - vm_compute in Hrun. discriminate.
Defined.

(** C10: without a bands feature the band list is empty whatever band
    names were passed, [all_bands] holds the additional features only, and
    a run stores no array of floats; with a bands feature and no band names
    the band list is the data source's. *)
Theorem bands_follow_bands_feature `{Float32} (env : services)
    (self : SentinelHubProcessingInput) :
  (bands_feature self = None →
     bands self = []
     ∧ all_bands self = (additional_data self).*2
     ∧ ∀ eopatch bbox ti w w' p,
         execute env self eopatch bbox ti w = (w', Ok p) →
         ∀ ft a, features p !! ft = Some (Float32Array a) →
           ∃ p0, eopatch = Some p0 ∧ features p0 !! ft = Some (Float32Array a))
  ∧ (is_Some (bands_feature self) →
     bands_arg self = None ∨ bands_arg self = Some [] →
     bands self = ds_bands (data_source self)).
Proof.
  split.
  - intros Hnone.
    assert (Hb : bands self = []) by (unfold bands; by rewrite Hnone).
    split; [done|]. split; [unfold all_bands; by rewrite Hb|].
    intros eopatch bbox ti w w' p Hrun ft a Ha.
    destruct (execute_inv env self eopatch bbox ti w w' p Hrun)
      as (bb & size_x & size_y & dates & images & p1 & p2
          & -> & _ & _ & _ & Hp1 & Hp2 & _ & Hf).
    apply store_all_additional_inv in Hp1 as (_ & Hin & Hout).
    apply store_bands_inv in Hp2 as (_ & [[_ ->]|[? _]]); [|done].
    rewrite Hf in Ha.
    destruct (decide (ft ∈ additional_data self)) as [Hft|Hft].
    + destruct (Hin ft Hft) as (a' & Ha' & _). rewrite Ha' in Ha. discriminate.
    + rewrite (Hout ft Hft) in Ha. destruct eopatch as [p0|]; [by eauto|].
      cbn in Ha. by rewrite lookup_empty in Ha.
  - intros [ft Hft] Harg. unfold bands. rewrite Hft.
    by destruct Harg as [->| ->].
Qed.

Lemma bands_follow_bands_feature_witness :
  bands {| data_source := Example.S2L1C; size := Some (2, 1); resolution := None;
           bands_feature := None; bands_arg := Some ["B04"; "B08"];
           additional_data_arg := Some [(MASK, "CLM")]; maxcc := 1%float;
           time_difference := TdTimedelta 0; cache_folder := None;
           max_threads := 5 |} = []
  ∧ bands (Example.task None None (TdTimedelta 0)) = ds_bands Example.S2L1C.
Proof.
  split.
  - apply (bands_follow_bands_feature (Example.env_with [] [])). reflexivity.
  - apply (bands_follow_bands_feature (Example.env_with [] [])).
    + by eexists.
    + by left.
Defined.

(** C8 on the code: a single-band image is decoded as a two-dimensional
    array (height, width). The loop over the additional features wraps each
    image in [np.atleast_3d] and reads it correctly; the bands branch does
    not, so its slice of the last axis cuts the width, and the reshape to
    (dates, height, width, bands) raises. *)
Theorem execute_single_band_raises :
  (execute
     (Example.env_with [Example.day 1; Example.day 2]
        [Example.with_factor (Example.image1 1 2) (PyInt 1000);
         Example.with_factor (Example.image1 7 8) (PyInt 1000)])
     (Example.task (Some ["B02"]) None (TdTimedelta 0))
     None (Some Example.bbox) Example.january Example.start).2
  = Raise (ValueError "cannot reshape array").
Proof. by vm_compute. Qed.

(** The same two images read as a mask: the sibling branch stores them. *)
Example execute_single_mask_stored :
  features <$> (λ r, match r with Ok p => Some p | Raise _ => None end)
    (execute
       (Example.env_with [Example.day 1; Example.day 2]
          [Example.with_factor (Example.image1 1 0) (PyInt 1000);
           Example.with_factor (Example.image1 0 8) (PyInt 1000)])
       {| data_source := Example.S2L1C; size := Some (2, 1); resolution := None;
          bands_feature := None; bands_arg := None;
          additional_data_arg := Some [(MASK, "CLM")]; maxcc := 1%float;
          time_difference := TdTimedelta 0; cache_folder := None;
          max_threads := 5 |}
       None (Some Example.bbox) Example.january Example.start).2
  = Some {[ (MASK, "CLM") :=
              BoolArray {| shape := [2; 1; 2; 1]%nat;
                           items := [true; false; false; true] |} ]}.
Proof. by vm_compute. Qed.

(** Images with three channels, bands B04 and B08 and the mask CLM: the
    mask is channel 2 of every image, the bands are channels 0 and 1,
    converted, multiplied by the factor of their image, and rounded. *)
Example execute_three_channels :
  features <$> (λ r, match r with Ok p => Some p | Raise _ => None end)
    (execute
       (Example.env_with [Example.day 1; Example.day 2]
          [Example.with_factor (Example.image3 1 2 0 4 5 1) (PyInt 2);
           Example.with_factor (Example.image3 7 8 1 9 10 0) (PyFloat 0.5)])
       (Example.task (Some ["B04"; "B08"]) (Some [(MASK, "CLM")]) (TdTimedelta 0))
       None (Some Example.bbox) Example.january Example.start).2
  = Some (<[ (DATA, "BANDS") :=
               Float32Array
                 {| shape := [2; 1; 2; 2]%nat;
                    items :=
                      ((λ x, Example.Rounded 4 (Example.Times (Example.AsFloat32 x) (PyInt 2)))
                         <$> [1; 2; 4; 5])
                      ++ ((λ x, Example.Rounded 4
                                  (Example.Times (Example.AsFloat32 x) (PyFloat 0.5)))
                          <$> [7; 8; 9; 10]) |} ]>
          {[ (MASK, "CLM") :=
               BoolArray {| shape := [2; 1; 2; 1]%nat;
                            items := [false; true; true; false] |} ]}).
Proof. by vm_compute. Qed.

(** * Further properties of the code *)

(** ** get_dates *)

Lemma sorted_ascending (dates : list Z) : StronglySorted Z.le (sorted dates).
Proof. apply (StronglySorted_merge_sort Z.le). Qed.

Lemma sorted_fixed (l : list Z) : StronglySorted Z.le l → sorted l = l.
Proof.
  intros Hl. apply (StronglySorted_unique Z.le); [apply sorted_ascending | done |].
  apply merge_sort_Permutation.
Qed.

(** What a returning call of [get_dates] has computed. *)
Lemma get_dates_inv (env : services) self bb ti w out :
  (get_dates env self bb ti w).2 = Ok out →
  ∃ dates d0 rest later,
    wfs_get_dates env bb ti (data_source self) (maxcc self) = Ok dates
    ∧ sorted dates = d0 :: rest
    ∧ later_dates (zip (removelast (d0 :: rest)) (tail (d0 :: rest)))
        (time_difference self) = Ok later
    ∧ out = d0 :: later.
Proof.
  unfold get_dates. msimpl.
  destruct (wfs_get_dates env bb ti _ _) as [dates|] eqn:Hwfs; [|discriminate].
  destruct (decide _) as [|_]; [discriminate|]. msimpl.
  destruct (sorted dates) as [|d0 rest] eqn:Hsorted; [discriminate|].
  cbn [first_item].
  destruct (later_dates _ _) as [later|] eqn:Hl; [|discriminate].
  cbn. intros [= <-]. by exists dates, d0, rest, later.
Qed.

Lemma get_dates_one_date (env : services) self bb ti w (d : Z) :
  wfs_get_dates env bb ti (data_source self) (maxcc self) = Ok [d] →
  get_dates env self bb ti w
  = ({| store := store w;
        log := log w ++ [WfsQuery bb ti (data_source self) (maxcc self)] |},
     Ok [d]).
Proof. intros Hwfs. unfold get_dates. msimpl. by rewrite Hwfs. Qed.

(** X1: a single discovered date is returned whatever the threshold is,
    the int default included: with one date no comparison is made. *)
Theorem get_dates_single_date (env : services) self bb ti w (d : Z) :
  wfs_get_dates env bb ti (data_source self) (maxcc self) = Ok [d] →
  get_dates env self bb ti w
  = ({| store := store w;
        log := log w ++ [WfsQuery bb ti (data_source self) (maxcc self)] |},
     Ok [d]).
Proof. apply get_dates_one_date. Qed.

Lemma get_dates_single_date_witness :
  get_dates (Example.env_with [Example.day 4] []) Example.default_task
    Example.bbox Example.january Example.start
  = ({| store := store Example.start;
        log := log Example.start
               ++ [WfsQuery Example.bbox Example.january
                     (data_source Example.default_task)
                     (maxcc Example.default_task)] |},
     Ok [Example.day 4]).
Proof.
  apply (get_dates_single_date (Example.env_with [Example.day 4] [])). reflexivity.
Defined.

Lemma keep_adjacent_above gap rest prev :
  0 ≤ gap →
  StronglySorted Z.le (prev :: rest) →
  Forall (λ d, prev < d) (keep_adjacent prev rest gap)
  ∧ StronglySorted Z.lt (keep_adjacent prev rest gap).
Proof.
  intros Hgap. revert prev. induction rest as [|d rest IH]; intros prev Hs.
  { split; constructor. }
  apply StronglySorted_cons in Hs as [Hall Hs].
  assert (prev ≤ d) by (by apply Forall_cons in Hall as [? _]).
  destruct (IH d Hs) as [Habove Hsorted]. cbn.
  assert (Forall (λ x, prev < x) (keep_adjacent d rest gap)).
  { eapply Forall_impl; [exact Habove|]. intros x Hx. cbn in Hx. lia. }
  case_bool_decide.
  - split; [constructor; [lia | done]|]. by constructor.
  - done.
Qed.

(** X2: with a timedelta threshold that is not negative, the dates returned
    are strictly ascending, so without duplicates, also when the WFS lists
    a date several times; each of them is a discovered date. *)
Theorem get_dates_no_duplicates (env : services) self bb ti w dates gap :
  wfs_get_dates env bb ti (data_source self) (maxcc self) = Ok dates →
  dates ≠ [] →
  time_difference self = TdTimedelta gap →
  0 ≤ gap →
  ∃ out, (get_dates env self bb ti w).2 = Ok out
         ∧ StronglySorted Z.lt out
         ∧ NoDup out
         ∧ ∀ d, d ∈ out → d ∈ dates.
Proof.
  intros Hwfs Hne Htd Hgap.
  destruct (get_dates_timedelta env self bb ti w dates gap Hwfs Hne Htd)
    as (d0 & rest & Hsorted & Hrun).
  pose proof (sorted_ascending dates) as Hs. rewrite Hsorted in Hs.
  destruct (keep_adjacent_above gap rest d0 Hgap Hs) as [Habove Hlt].
  assert (Hout : StronglySorted Z.lt (d0 :: keep_adjacent d0 rest gap))
    by (by constructor).
  exists (d0 :: keep_adjacent d0 rest gap). rewrite Hrun.
  split; [done|]. split; [done|]. split.
  - clear -Hout. induction Hout as [|x l _ IH Hall]; constructor; [|done].
    intros Hx. rewrite Forall_forall in Hall. specialize (Hall x Hx). lia.
  - intros d Hd.
    assert (d ∈ d0 :: rest).
    { apply elem_of_cons in Hd as [->|Hd]; [by left|].
      right. by apply (keep_adjacent_subseteq gap rest d0). }
    rewrite <- Hsorted in *. unfold sorted in *.
    by rewrite merge_sort_Permutation in *.
Qed.

Lemma get_dates_no_duplicates_witness :
  ∃ out,
    (get_dates
       (Example.env_with [Example.day 2; Example.day 1; Example.day 2; Example.day 1] [])
       (Example.task None None (TdTimedelta 0))
       Example.bbox Example.january Example.start).2 = Ok out
    ∧ StronglySorted Z.lt out
    ∧ NoDup out
    ∧ ∀ d, d ∈ out →
        d ∈ [Example.day 2; Example.day 1; Example.day 2; Example.day 1].
Proof.
  apply (get_dates_no_duplicates
           (Example.env_with [Example.day 2; Example.day 1; Example.day 2; Example.day 1] [])
           (Example.task None None (TdTimedelta 0))
           Example.bbox Example.january Example.start
           [Example.day 2; Example.day 1; Example.day 2; Example.day 1] 0).
  - reflexivity.
  - discriminate.
  - reflexivity.
  - lia.
Defined.

Lemma keep_adjacent_antitone gap gap' rest prev :
  gap ≤ gap' →
  sublist (keep_adjacent prev rest gap') (keep_adjacent prev rest gap).
Proof.
  intros Hle. revert prev. induction rest as [|d rest IH]; intros prev; cbn.
  { constructor. }
  destruct (bool_decide (gap' < d - prev)) eqn:H1,
           (bool_decide (gap < d - prev)) eqn:H2.
  - apply sublist_skip, IH.
  - apply bool_decide_eq_true in H1. apply bool_decide_eq_false in H2. lia.
  - apply sublist_cons, IH.
  - apply IH.
Qed.

(** X3: a larger timedelta threshold never adds a date: the dates kept
    under the larger threshold are, in order, among those kept under the
    smaller one. *)
Theorem get_dates_antitone (env : services) self self' bb ti w w' dates gap gap' :
  wfs_get_dates env bb ti (data_source self) (maxcc self) = Ok dates →
  wfs_get_dates env bb ti (data_source self') (maxcc self') = Ok dates →
  dates ≠ [] →
  time_difference self = TdTimedelta gap →
  time_difference self' = TdTimedelta gap' →
  gap ≤ gap' →
  ∃ out out',
    (get_dates env self bb ti w).2 = Ok out
    ∧ (get_dates env self' bb ti w').2 = Ok out'
    ∧ sublist out' out.
Proof.
  intros Hwfs Hwfs' Hne Htd Htd' Hle.
  destruct (get_dates_timedelta env self bb ti w dates gap Hwfs Hne Htd)
    as (d0 & rest & Hsorted & Hrun).
  destruct (get_dates_timedelta env self' bb ti w' dates gap' Hwfs' Hne Htd')
    as (d0' & rest' & Hsorted' & Hrun').
  rewrite Hsorted in Hsorted'. injection Hsorted' as <- <-.
  exists (d0 :: keep_adjacent d0 rest gap), (d0 :: keep_adjacent d0 rest gap').
  rewrite Hrun, Hrun'. split; [done|]. split; [done|].
  by apply sublist_skip, keep_adjacent_antitone.
Qed.

Lemma get_dates_antitone_witness :
  ∃ out out',
    (get_dates (Example.env_with Example.close_dates [])
       (Example.task None None (TdTimedelta (Datetime.seconds 2)))
       Example.bbox Example.january Example.start).2 = Ok out
    ∧ (get_dates (Example.env_with Example.close_dates [])
         (Example.task None None (TdTimedelta (Datetime.seconds 7)))
         Example.bbox Example.january Example.start).2 = Ok out'
    ∧ sublist out' out.
Proof.
  apply (get_dates_antitone (Example.env_with Example.close_dates [])
           (Example.task None None (TdTimedelta (Datetime.seconds 2)))
           (Example.task None None (TdTimedelta (Datetime.seconds 7)))
           Example.bbox Example.january Example.start Example.start
           Example.close_dates (Datetime.seconds 2) (Datetime.seconds 7)).
  - reflexivity.
  - reflexivity.
  - discriminate.
  - reflexivity.
  - reflexivity.
  - vm_compute. discriminate.
Defined.

Lemma keep_adjacent_gaps_le gap rest prev last :
  last ≤ prev →
  StronglySorted Z.le (prev :: rest) →
  Sorted (λ a b, gap < b - a) (keep_adjacent prev rest gap)
  ∧ HdRel (λ a b, gap < b - a) last (keep_adjacent prev rest gap).
Proof.
  revert prev last. induction rest as [|d rest IH]; intros prev last Hle Hs.
  { cbn. split; constructor. }
  apply StronglySorted_cons in Hs as [Hall Hs].
  assert (prev ≤ d) by (by apply Forall_cons in Hall as [? _]).
  cbn. case_bool_decide.
  - destruct (IH d d ltac:(lia) Hs) as [? ?]. split; constructor; [done|done|lia].
  - apply IH; [lia | done].
Qed.

Lemma keep_adjacent_fixed gap l prev :
  Sorted (λ a b, gap < b - a) (prev :: l) → keep_adjacent prev l gap = l.
Proof.
  revert prev. induction l as [|d l IH]; intros prev Hs; [done|].
  apply Sorted_inv in Hs as [Hs Hhd]. apply HdRel_inv in Hhd.
  cbn. rewrite bool_decide_true by done. by rewrite IH.
Qed.

(** X4: cleaning is idempotent: if the WFS answered with the dates that
    [get_dates] returned, [get_dates] would return them unchanged, for a
    timedelta threshold as for an int one. *)
Theorem get_dates_idempotent (env env' : services) self bb ti w w' out :
  (get_dates env self bb ti w).2 = Ok out →
  wfs_get_dates env' bb ti (data_source self) (maxcc self) = Ok out →
  (get_dates env' self bb ti w').2 = Ok out.
Proof.
  intros Hrun Hwfs'.
  destruct (get_dates_inv env self bb ti w out Hrun)
    as (dates & d0 & rest & later & Hwfs & Hsorted & Hlater & ->).
  destruct (time_difference self) as [n|gap] eqn:Htd.
  - destruct rest as [|d rest].
    + injection Hlater as <-.
      by rewrite (get_dates_one_date env' self bb ti w' d0 Hwfs').
    + rewrite zip_removelast_tail in Hlater. discriminate.
  - rewrite later_dates_timedelta in Hlater. injection Hlater as <-.
    pose proof (sorted_ascending dates) as Hs. rewrite Hsorted in Hs.
    destruct (keep_adjacent_gaps_le gap rest d0 d0 ltac:(lia) Hs) as [Hgaps Hhd].
    assert (Hout : StronglySorted Z.le (d0 :: keep_adjacent d0 rest gap)).
    { eapply StronglySorted_sublist; [|exact Hs].
      apply sublist_skip, keep_adjacent_sublist. }
    destruct (get_dates_timedelta env' self bb ti w' _ gap Hwfs' ltac:(done) Htd)
      as (d0' & rest' & Hsorted' & Hrun').
    rewrite (sorted_fixed _ Hout) in Hsorted'. injection Hsorted' as <- <-.
    rewrite Hrun'. cbn. f_equal. f_equal.
    apply keep_adjacent_fixed. by constructor.
Qed.

Lemma get_dates_idempotent_witness :
  (get_dates (Example.env_with [Example.day 1; Example.day 1 + Datetime.seconds 10] [])
     (Example.task None None (TdTimedelta (Datetime.seconds 2)))
     Example.bbox Example.january Example.start).2
  = Ok [Example.day 1; Example.day 1 + Datetime.seconds 10].
Proof.
  apply (get_dates_idempotent
           (Example.env_with [Example.day 1; Example.day 1 + Datetime.seconds 1;
                              Example.day 1 + Datetime.seconds 10] [])
           (Example.env_with [Example.day 1; Example.day 1 + Datetime.seconds 10] [])
           (Example.task None None (TdTimedelta (Datetime.seconds 2)))
           Example.bbox Example.january Example.start Example.start).
  - vm_compute. reflexivity.
  - reflexivity.
Defined.

Lemma keep_adjacent_all_le gap rest prev :
  gap < 0 →
  StronglySorted Z.le (prev :: rest) →
  keep_adjacent prev rest gap = rest.
Proof.
  intros Hgap. revert prev. induction rest as [|d rest IH]; intros prev Hs; [done|].
  apply StronglySorted_cons in Hs as [Hall Hs].
  apply Forall_cons in Hall as [? _].
  cbn. rewrite bool_decide_true by lia. by rewrite IH.
Qed.

(** X5: with a negative timedelta threshold every discovered date is
    returned, sorted, a date listed several times as often as it was
    listed. *)
Theorem get_dates_negative_timedelta (env : services) self bb ti w dates gap :
  wfs_get_dates env bb ti (data_source self) (maxcc self) = Ok dates →
  dates ≠ [] →
  time_difference self = TdTimedelta gap →
  gap < 0 →
  ∃ out, (get_dates env self bb ti w).2 = Ok out
         ∧ out ≡ₚ dates
         ∧ StronglySorted Z.le out.
Proof.
  intros Hwfs Hne Htd Hgap.
  destruct (get_dates_timedelta env self bb ti w dates gap Hwfs Hne Htd)
    as (d0 & rest & Hsorted & Hrun).
  pose proof (sorted_ascending dates) as Hs.
  exists (sorted dates). split; [|split; [apply merge_sort_Permutation | done]].
  rewrite Hrun, Hsorted. cbn. rewrite Hsorted in Hs.
  by rewrite keep_adjacent_all_le.
Qed.

Lemma get_dates_negative_timedelta_witness :
  ∃ out,
    (get_dates (Example.env_with [Example.day 2; Example.day 1; Example.day 2] [])
       (Example.task None None (TdTimedelta (Datetime.seconds (-1))))
       Example.bbox Example.january Example.start).2 = Ok out
    ∧ out ≡ₚ [Example.day 2; Example.day 1; Example.day 2]
    ∧ StronglySorted Z.le out.
Proof.
  apply (get_dates_negative_timedelta
           (Example.env_with [Example.day 2; Example.day 1; Example.day 2] [])
           (Example.task None None (TdTimedelta (Datetime.seconds (-1))))
           Example.bbox Example.january Example.start
           [Example.day 2; Example.day 1; Example.day 2] (Datetime.seconds (-1))).
  - reflexivity.
  - discriminate.
  - reflexivity.
  - vm_compute. reflexivity.
Defined.

(** X6: with an int threshold (the constructor's default) [get_dates]
    raises TypeError as soon as two dates are discovered, whatever the int
    and the dates are. *)
Theorem get_dates_int_threshold_raises (env : services) self bb ti w dates n :
  wfs_get_dates env bb ti (data_source self) (maxcc self) = Ok dates →
  (2 ≤ length dates)%nat →
  time_difference self = TdInt n →
  get_dates env self bb ti w
  = ({| store := store w;
        log := log w ++ [WfsQuery bb ti (data_source self) (maxcc self)] |},
     Raise (TypeError
       "'>' not supported between instances of 'datetime.timedelta' and 'int'")).
Proof.
  intros Hwfs Hlen Htd. unfold get_dates. msimpl. rewrite Hwfs.
  destruct (decide _) as [Hz|_]; [lia|]. msimpl.
  assert (Hperm : length (sorted dates) = length dates)
    by (unfold sorted; by rewrite merge_sort_Permutation).
  destruct (sorted dates) as [|d0 [|d1 rest]]; cbn in Hperm; [lia|lia|].
  rewrite Htd. cbn [first_item]. by rewrite zip_removelast_tail.
Qed.

Lemma get_dates_int_threshold_raises_witness :
  get_dates (Example.env_with [Example.day 2; Example.day 1; Example.day 3] [])
    (Example.task None None (TdInt 5))
    Example.bbox Example.january Example.start
  = ({| store := store Example.start;
        log := log Example.start
               ++ [WfsQuery Example.bbox Example.january
                     (data_source (Example.task None None (TdInt 5)))
                     (maxcc (Example.task None None (TdInt 5)))] |},
     Raise (TypeError
       "'>' not supported between instances of 'datetime.timedelta' and 'int'")).
Proof.
  apply (get_dates_int_threshold_raises
           (Example.env_with [Example.day 2; Example.day 1; Example.day 3] [])
           (Example.task None None (TdInt 5))
           Example.bbox Example.january Example.start
           [Example.day 2; Example.day 1; Example.day 3] 5).
  - reflexivity.
  - cbn. lia.
  - reflexivity.
Defined.

(** ** execute *)

Lemma mapM_request_from_date limit request maxcc (dates : list Z) w :
  log (mapM (λ date, request_from_date limit request date maxcc) dates w).1 = log w
  ∧ ∀ requests,
      (mapM (λ date, request_from_date limit request date maxcc) dates w).2
      = Ok requests →
      length requests = length dates.
Proof.
  revert w. induction dates as [|d dates IH]; intros w; [by split; [|intros ? [= <-]]|].
  cbn [mapM]. msimpl.
  pose proof (request_from_date_frame limit request d maxcc w) as [_ Hlog].
  destruct (request_from_date limit request d maxcc w) as [w1 [r|e]]; cbn in *;
    [|by split].
  destruct (IH w1) as [Hlog' Hlen].
  destruct (mapM _ dates w1) as [w2 [rs|e]]; cbn in *.
  - split; [congruence|]. intros ? [= <-]. cbn. by rewrite (Hlen rs).
  - split; [congruence | done].
Qed.

Lemma result_mapM_length {A B} (f : A → result B) (l : list A) (l' : list B) :
  result_mapM f l = Ok l' → length l' = length l.
Proof.
  revert l'. induction l as [|x l IH]; intros l'; cbn; [by intros [= <-]|].
  destruct (f x); [|discriminate]. cbn.
  destruct (result_mapM f l); [|discriminate]. cbn. intros [= <-]. cbn.
  by rewrite (IH _ eq_refl).
Qed.

(** The calls a run of [execute] makes, by how far it gets. *)
Lemma execute_trace `{Float32} (env : services) self eopatch bbox ti w w' r :
  execute env self eopatch bbox ti w = (w', r) →
  (log w' = log w ∧ ∃ e, r = Raise e)
  ∨ (∃ bb, bbox = Some bb
       ∧ log w' = log w ++ [WfsQuery bb ti (data_source self) (maxcc self)]
       ∧ ∃ e, r = Raise e)
  ∨ (∃ bb dates payloads,
       bbox = Some bb
       ∧ log w' = log w ++ [WfsQuery bb ti (data_source self) (maxcc self);
                            Download payloads]
       ∧ (get_dates env self bb ti w).2 = Ok dates
       ∧ length payloads = length dates
       ∧ (∀ e, client_download env payloads = Raise e → r = Raise e)
       ∧ (∀ p, r = Ok p → timestamp p = dates)).
Proof.
  unfold execute. msimpl.
  destruct (resolve_size self bbox) as [sizes|]; [|intros [= <- <-]; left; eauto].
  destruct bbox as [bb|]; [|intros [= <- <-]; left; eauto].
  destruct sizes as [[size_x size_y]|]; [|intros [= <- <-]; left; eauto].
  destruct (generate_evalscript_ok self) as [script ->].
  match goal with |- context [alloc_json ?j w] =>
    destruct (alloc_json_extends j w) as (request & ext & ->) end.
  destruct (get_dates env self bb ti _) as [w2 [dates|]] eqn:Hdates.
  2:{ intros [= <- <-]. right. left. exists bb. split; [done|].
      split; [|by eauto]. revert Hdates. unfold get_dates. msimpl.
      destruct (wfs_get_dates _ _ _ _ _) as [ds|]; [|by intros [= <-]].
      destruct (decide _); [by intros [= <-]|]. msimpl.
      destruct (first_item _); [|by intros [= <-]].
      destruct (later_dates _ _); by intros [= <-]. }
  assert (Hlog2 : log w2 = log w ++ [WfsQuery bb ti (data_source self) (maxcc self)]).
  { revert Hdates. unfold get_dates. msimpl.
    destruct (wfs_get_dates _ _ _ _ _) as [ds|]; [|discriminate].
    destruct (decide _); [discriminate|]. msimpl.
    destruct (first_item _); [|discriminate].
    destruct (later_dates _ _); [|discriminate]. by intros [= <- _]. }
  assert (Hres : (get_dates env self bb ti w).2 = Ok dates).
  { erewrite get_dates_result. by rewrite Hdates. }
  pose proof (mapM_request_from_date (recursion_limit env) request (maxcc self) dates w2)
    as [Hlog3 Hlen3].
  destruct (mapM _ dates w2) as [w3 [requests|]]; cbn in Hlog3, Hlen3.
  2:{ intros [= <- <-]. right. left. exists bb. split; [done|].
      split; [congruence | by eauto]. }
  destruct (result_mapM _ requests) as [payloads|] eqn:Hpay.
  2:{ intros [= <- <-]. right. left. exists bb. split; [done|].
      split; [congruence | by eauto]. }
  apply result_mapM_length in Hpay. specialize (Hlen3 _ eq_refl).
  intros Hrun. right. right. exists bb, dates, payloads.
  split; [done|].
  destruct (client_download env payloads) as [images|e0].
  - destruct (store_all_additional _ _ _ _ _) as [p1|] eqn:Hp1.
    + destruct (store_bands _ _ _ _) as [p2|] eqn:Hp2.
      * injection Hrun as <- <-. cbn. rewrite Hlog3, Hlog2, <- app_assoc.
        split; [done|]. split; [done|]. split; [congruence|].
        split; [discriminate|]. intros p [= <-]. cbn.
        apply store_all_additional_inv in Hp1 as (Ht1 & _).
        apply store_bands_inv in Hp2 as (Ht2 & _). by rewrite Ht2, Ht1.
      * injection Hrun as <- <-. cbn. rewrite Hlog3, Hlog2, <- app_assoc.
        split; [done|]. split; [done|]. split; [congruence|].
        split; discriminate.
    + injection Hrun as <- <-. cbn. rewrite Hlog3, Hlog2, <- app_assoc.
      split; [done|]. split; [done|]. split; [congruence|].
      split; discriminate.
  - injection Hrun as <- <-. cbn. rewrite Hlog3, Hlog2, <- app_assoc.
    split; [done|]. split; [done|]. split; [congruence|].
    split; [by intros ? [= <-] | discriminate].
Qed.

(** X7: whatever its outcome, a run of [execute] adds to the log nothing,
    or the WFS query alone, or the WFS query followed by one download: it
    never downloads without having queried the dates, and never calls a
    service twice. *)
Theorem execute_calls_in_order `{Float32} (env : services) self eopatch bbox ti
    w w' r :
  execute env self eopatch bbox ti w = (w', r) →
  ∃ added,
    log w' = log w ++ added
    ∧ (added = []
       ∨ (∃ bb, bbox = Some bb
                ∧ added = [WfsQuery bb ti (data_source self) (maxcc self)])
       ∨ (∃ bb payloads, bbox = Some bb
                ∧ added = [WfsQuery bb ti (data_source self) (maxcc self);
                           Download payloads])).
Proof.
  intros Hrun.
  destruct (execute_trace env self eopatch bbox ti w w' r Hrun)
    as [[Hlog _]|[(bb & Hbb & Hlog & _)|(bb & dates & payloads & Hbb & Hlog & _)]].
  - exists []. split; [by rewrite app_nil_r | by left].
  - eexists. split; [exact Hlog|]. right. left. by exists bb.
  - eexists. split; [exact Hlog|]. right. right. by exists bb, payloads.
Qed.

Lemma execute_calls_in_order_witness :
  ∃ added,
    log (execute (Example.env_with [] []) (Example.task None None (TdInt (-1)))
           None (Some Example.bbox) Example.january Example.start).1
    = log Example.start ++ added
    ∧ (added = []
       ∨ (∃ bb, Some Example.bbox = Some bb
                ∧ added = [WfsQuery bb Example.january
                             (data_source (Example.task None None (TdInt (-1))))
                             (maxcc (Example.task None None (TdInt (-1))))])
       ∨ (∃ bb payloads, Some Example.bbox = Some bb
                ∧ added = [WfsQuery bb Example.january
                             (data_source (Example.task None None (TdInt (-1))))
                             (maxcc (Example.task None None (TdInt (-1))));
                           Download payloads])).
Proof.
  apply (execute_calls_in_order (Example.env_with [] [])
           (Example.task None None (TdInt (-1))) None (Some Example.bbox)
           Example.january Example.start _
           (execute (Example.env_with [] []) (Example.task None None (TdInt (-1)))
              None (Some Example.bbox) Example.january Example.start).2).
  by destruct (execute _ _ _ _ _ _).
Defined.

(** X8: when the download client raises, [execute] raises the same
    exception: it does not retry, and returns no container. *)
Theorem execute_download_failure `{Float32} (env : services) self eopatch bbox ti
    w w' r query payloads e :
  execute env self eopatch bbox ti w = (w', r) →
  log w' = log w ++ [query; Download payloads] →
  client_download env payloads = Raise e →
  r = Raise e.
Proof.
  intros Hrun Hlog Hfail.
  destruct (execute_trace env self eopatch bbox ti w w' r Hrun)
    as [[Hlog' _]|[(bb & _ & Hlog' & _)
                  |(bb & dates & payloads' & _ & Hlog' & _ & _ & Hraise & _)]].
  - rewrite Hlog in Hlog'. apply (f_equal length) in Hlog'.
    rewrite length_app in Hlog'. cbn in Hlog'. lia.
  - rewrite Hlog in Hlog'. apply (f_equal length) in Hlog'.
    rewrite !length_app in Hlog'. cbn in Hlog'. lia.
  - rewrite Hlog in Hlog'. apply app_inv_head in Hlog'.
    injection Hlog' as _ <-. by apply Hraise.
Qed.

Lemma execute_download_failure_witness :
  (execute
     {| wfs_get_dates := λ _ _ _ _, Ok [Example.day 1];
        client_download := λ _, Raise (ServiceError "connection reset");
        shr_response := Example.response_dict; shr_bounds := Example.bounds_dict;
        shr_data := Example.data_dict; shr_output := Example.output_dict;
        shr_body := Example.body_dict; recursion_limit := 1000;
        unicode_printable := Example.latin1_printable |}
     (Example.task None None (TdInt (-1)))
     None (Some Example.bbox) Example.january Example.start).2
  = Raise (ServiceError "connection reset").
Proof.
  destruct (execute
     {| wfs_get_dates := λ _ _ _ _, Ok [Example.day 1];
        client_download := λ _, Raise (ServiceError "connection reset");
        shr_response := Example.response_dict; shr_bounds := Example.bounds_dict;
        shr_data := Example.data_dict; shr_output := Example.output_dict;
        shr_body := Example.body_dict; recursion_limit := 1000;
        unicode_printable := Example.latin1_printable |}
     (Example.task None None (TdInt (-1)))
     None (Some Example.bbox) Example.january Example.start) as [w' r] eqn:Hrun.
  cbn [snd].
  assert (Hlog : ∃ query payloads,
            log w' = log Example.start ++ [query; Download payloads]).
  { vm_compute in Hrun. injection Hrun as <- _. by eexists _, _. }
  destruct Hlog as (query & payloads & Hlog).
  exact (execute_download_failure _ _ _ _ _ _ _ _ query payloads
           (ServiceError "connection reset") Hrun Hlog eq_refl).
Defined.

(** X9: a run that returns has queried the WFS once and then submitted one
    batch with one payload per timestamp of the container. *)
Theorem execute_one_payload_per_date `{Float32} (env : services) self eopatch bbox
    ti w w' p :
  execute env self eopatch bbox ti w = (w', Ok p) →
  ∃ bb payloads,
    bbox = Some bb
    ∧ log w' = log w ++ [WfsQuery bb ti (data_source self) (maxcc self);
                         Download payloads]
    ∧ length payloads = length (timestamp p).
Proof.
  intros Hrun.
  destruct (execute_trace env self eopatch bbox ti w w' (Ok p) Hrun)
    as [[_ [e He]]|[(bb & _ & _ & e & He)
                   |(bb & dates & payloads & Hbb & Hlog & _ & Hlen & _ & Ht)]];
    [discriminate..|].
  exists bb, payloads. split; [done|]. split; [done|].
  by rewrite (Ht p eq_refl).
Qed.

Lemma execute_one_payload_per_date_witness :
  ∃ w' p,
    execute
      (Example.env_with [Example.day 3; Example.day 1]
         [Example.with_factor (Example.image3 1 2 0 4 5 1) (PyInt 2);
          Example.with_factor (Example.image3 7 8 1 9 10 0) (PyFloat 0.5)])
      (Example.task (Some ["B04"; "B08"]) (Some [(MASK, "CLM")]) (TdTimedelta 0))
      None (Some Example.bbox) Example.january Example.start = (w', Ok p)
    ∧ ∃ bb payloads,
        Some Example.bbox = Some bb
        ∧ log w' = log Example.start
                   ++ [WfsQuery bb Example.january
                         (data_source (Example.task (Some ["B04"; "B08"])
                                         (Some [(MASK, "CLM")]) (TdTimedelta 0)))
                         (maxcc (Example.task (Some ["B04"; "B08"])
                                   (Some [(MASK, "CLM")]) (TdTimedelta 0)));
                       Download payloads]
        ∧ length payloads = length (timestamp p).
Proof.
  destruct (execute
      (Example.env_with [Example.day 3; Example.day 1]
         [Example.with_factor (Example.image3 1 2 0 4 5 1) (PyInt 2);
          Example.with_factor (Example.image3 7 8 1 9 10 0) (PyFloat 0.5)])
      (Example.task (Some ["B04"; "B08"]) (Some [(MASK, "CLM")]) (TdTimedelta 0))
      None (Some Example.bbox) Example.january Example.start)
    as [w' [p|e]] eqn:Hrun.
  - exists w', p. split; [done|].
    by apply (execute_one_payload_per_date _ _ _ _ _ _ _ _ Hrun).
  - vm_compute in Hrun. discriminate.
Defined.

Lemma get_dates_wfs_failure (env : services) self bb ti w e :
  wfs_get_dates env bb ti (data_source self) (maxcc self) = Raise e →
  get_dates env self bb ti w
  = ({| store := store w;
        log := log w ++ [WfsQuery bb ti (data_source self) (maxcc self)] |},
     Raise e).
Proof. intros Hwfs. unfold get_dates. msimpl. by rewrite Hwfs. Qed.

(** X10: when the WFS query raises, [get_dates] and (once the output size
    is known) [execute] raise the same exception, and nothing is sent to
    the download client. *)
Theorem execute_wfs_failure `{Float32} (env : services) self eopatch bb ti xy w e :
  wfs_get_dates env bb ti (data_source self) (maxcc self) = Raise e →
  resolve_size self (Some bb) = Ok (Some xy) →
  (get_dates env self bb ti w).2 = Raise e
  ∧ ∃ w', execute env self eopatch (Some bb) ti w = (w', Raise e)
          ∧ log w' = log w ++ [WfsQuery bb ti (data_source self) (maxcc self)].
Proof.
  intros Hwfs Hsize. split; [by rewrite (get_dates_wfs_failure _ _ _ _ _ e)|].
  unfold execute. rewrite Hsize. msimpl. destruct xy as [size_x size_y].
  destruct (generate_evalscript_ok self) as [script ->].
  match goal with |- context [alloc_json ?j w] =>
    destruct (alloc_json_extends j w) as (request & ext & ->) end.
  rewrite (get_dates_wfs_failure _ _ _ _ _ e) by done. cbn. by eexists.
Qed.

Lemma execute_wfs_failure_witness :
  (get_dates
     {| wfs_get_dates := λ _ _ _ _, Raise (ServiceError "service unreachable");
        client_download := λ _, Ok [];
        shr_response := Example.response_dict; shr_bounds := Example.bounds_dict;
        shr_data := Example.data_dict; shr_output := Example.output_dict;
        shr_body := Example.body_dict; recursion_limit := 1000;
        unicode_printable := Example.latin1_printable |}
     (Example.task None None (TdInt (-1))) Example.bbox Example.january
     Example.start).2
  = Raise (ServiceError "service unreachable").
Proof.
  apply (execute_wfs_failure
     {| wfs_get_dates := λ _ _ _ _, Raise (ServiceError "service unreachable");
        client_download := λ _, Ok [];
        shr_response := Example.response_dict; shr_bounds := Example.bounds_dict;
        shr_data := Example.data_dict; shr_output := Example.output_dict;
        shr_body := Example.body_dict; recursion_limit := 1000;
        unicode_printable := Example.latin1_printable |}
     (Example.task None None (TdInt (-1))) None Example.bbox Example.january (2, 1)
     Example.start (ServiceError "service unreachable")); reflexivity.
Defined.

Lemma store_additional_rest `{Float32} self images dims ft p p' :
  store_additional self images dims ft p = Ok p' →
  patch_bbox p' = patch_bbox p ∧ meta_info p' = meta_info p.
Proof.
  unfold store_additional. destruct ft as [f_type f_name]. intros Hs.
  destruct (list_index _ _) as [idx|]; [|discriminate].
  cbn [mbind result_mbind result_bind] in Hs.
  destruct (result_mapM _ images) as [arrays|]; [|discriminate].
  cbn [mbind result_mbind result_bind] in Hs.
  destruct (asarray arrays) as [stacked|]; [|discriminate].
  cbn [mbind result_mbind result_bind] in Hs.
  destruct (reshape _ stacked) as [reshaped|]; [|discriminate].
  cbn [mbind result_mbind result_bind] in Hs. by apply set_feature_ok in Hs as [-> _].
Qed.

Lemma store_all_additional_rest `{Float32} self images dims fts p p' :
  store_all_additional self images dims fts p = Ok p' →
  patch_bbox p' = patch_bbox p ∧ meta_info p' = meta_info p.
Proof.
  revert p. induction fts as [|ft fts IH]; intros p Hs; [by injection Hs as <-|].
  cbn [store_all_additional] in Hs.
  destruct (store_additional _ _ _ ft p) as [p1|] eqn:H1; [|discriminate].
  cbn [mbind result_mbind result_bind] in Hs.
  apply store_additional_rest in H1 as [Hb1 Hm1].
  destruct (IH p1 Hs) as [Hb Hm]. split; congruence.
Qed.

Lemma store_bands_rest `{Float32} self images dims p p' :
  store_bands self images dims p = Ok p' →
  patch_bbox p' = patch_bbox p ∧ meta_info p' = meta_info p.
Proof.
  unfold store_bands. intros Hs.
  destruct (bands self) as [|b bs]; [by injection Hs as <-|].
  destruct (result_mapM _ images) as [arrays|]; [|discriminate].
  cbn [mbind result_mbind result_bind] in Hs.
  destruct (asarray arrays) as [stacked|]; [|discriminate].
  cbn [mbind result_mbind result_bind] in Hs.
  destruct (reshape _ stacked) as [reshaped|]; [|discriminate].
  cbn [mbind result_mbind result_bind] in Hs.
  destruct (bands_feature self) as [ft|]; [|discriminate].
  by apply set_feature_ok in Hs as [-> _].
Qed.

(** The container a returning run of [execute] hands back. *)
Lemma execute_inv_container `{Float32} (env : services) self eopatch bbox ti w w' p :
  execute env self eopatch bbox ti w = (w', Ok p) →
  ∃ bb size_x size_y dates images p1 p2,
    bbox = Some bb
    ∧ resolve_size self bbox = Ok (Some (size_x, size_y))
    ∧ store_all_additional self images [Z.of_nat (length dates); size_y; size_x]
        (additional_data self)
        (set_bbox bb (set_timestamp dates (default empty_patch eopatch))) = Ok p1
    ∧ store_bands self images [Z.of_nat (length dates); size_y; size_x] p1 = Ok p2
    ∧ timestamp p2 = dates
    ∧ p = set_meta "time_difference" (MetaTimeDiff (time_difference self))
            (set_meta "time_interval" (MetaInterval ti)
               (set_meta "maxcc" (MetaFloat (maxcc self))
                  (set_meta "size_y" (MetaInt size_y)
                     (set_meta "size_x" (MetaInt size_x)
                        (set_meta "service_type" (MetaStr "processing") p2))))).
Proof.
  unfold execute. msimpl.
  destruct (resolve_size self bbox) as [sizes|] eqn:Hsize; [|discriminate].
  destruct bbox as [bb|]; [|discriminate].
  destruct sizes as [[size_x size_y]|]; [|discriminate].
  destruct (generate_evalscript_ok self) as [script ->].
  match goal with |- context [alloc_json ?j w] =>
    destruct (alloc_json_extends j w) as (request & ext & ->) end.
  destruct (get_dates env self bb ti _) as [w2 [dates|]]; [|discriminate].
  destruct (mapM _ dates w2) as [w3 [requests|]]; [|discriminate].
  destruct (result_mapM _ requests) as [payloads|]; [|discriminate].
  destruct (client_download env payloads) as [images|]; [|discriminate].
  destruct (store_all_additional _ _ _ _ _) as [p1|] eqn:Hp1; [|discriminate].
  destruct (store_bands _ _ _ _) as [p2|] eqn:Hp2; [|discriminate].
  intros [= _ <-].
  eexists bb, size_x, size_y, dates, _, p1, p2.
  split; [done|]. split; [done|]. split; [exact Hp1|]. split; [exact Hp2|].
  split; [|done].
  apply store_all_additional_inv in Hp1 as (Ht1 & _).
  apply store_bands_inv in Hp2 as (Ht2 & _). by rewrite Ht2, Ht1.
Qed.

(** X11: a run that returns has stored the bbox it was given and six
    entries of provenance (service type, output size, cloud ceiling, time
    interval and threshold); every other entry of [meta_info] is the one
    the supplied container had. *)
Theorem execute_metadata `{Float32} (env : services) self eopatch bbox ti w w' p :
  execute env self eopatch bbox ti w = (w', Ok p) →
  ∃ bb size_x size_y,
    bbox = Some bb
    ∧ resolve_size self bbox = Ok (Some (size_x, size_y))
    ∧ patch_bbox p = Some bb
    ∧ meta_info p !! "service_type" = Some (MetaStr "processing")
    ∧ meta_info p !! "size_x" = Some (MetaInt size_x)
    ∧ meta_info p !! "size_y" = Some (MetaInt size_y)
    ∧ meta_info p !! "maxcc" = Some (MetaFloat (maxcc self))
    ∧ meta_info p !! "time_interval" = Some (MetaInterval ti)
    ∧ meta_info p !! "time_difference" = Some (MetaTimeDiff (time_difference self))
    ∧ ∀ k, k ∉ ["service_type"; "size_x"; "size_y"; "maxcc"; "time_interval";
                "time_difference"] →
           meta_info p !! k = meta_info (default empty_patch eopatch) !! k.
Proof.
  intros Hrun.
  destruct (execute_inv_container env self eopatch bbox ti w w' p Hrun)
    as (bb & size_x & size_y & dates & images & p1 & p2
        & -> & Hsize & Hp1 & Hp2 & _ & ->).
  apply store_all_additional_rest in Hp1 as [Hb1 Hm1].
  apply store_bands_rest in Hp2 as [Hb2 Hm2].
  exists bb, size_x, size_y. split; [done|]. split; [done|].
  split; [cbn; by rewrite Hb2, Hb1|].
  cbn [set_meta meta_info].
  repeat (split; [by simplify_map_eq|]).
  intros k Hk. rewrite !not_elem_of_cons in Hk.
  destruct Hk as (? & ? & ? & ? & ? & ? & _).
  rewrite !lookup_insert_ne by done. by rewrite Hm2, Hm1.
Qed.

Lemma execute_metadata_witness :
  ∃ p,
    (execute
       (Example.env_with [Example.day 3; Example.day 1]
          [Example.with_factor (Example.image3 1 2 0 4 5 1) (PyInt 2);
           Example.with_factor (Example.image3 7 8 1 9 10 0) (PyFloat 0.5)])
       (Example.task (Some ["B04"; "B08"]) (Some [(MASK, "CLM")]) (TdTimedelta 0))
       None (Some Example.bbox) Example.january Example.start).2 = Ok p
    ∧ patch_bbox p = Some Example.bbox
    ∧ meta_info p !! "service_type" = Some (MetaStr "processing")
    ∧ meta_info p !! "size_x" = Some (MetaInt 2)
    ∧ meta_info p !! "size_y" = Some (MetaInt 1).
Proof.
  destruct (execute
       (Example.env_with [Example.day 3; Example.day 1]
          [Example.with_factor (Example.image3 1 2 0 4 5 1) (PyInt 2);
           Example.with_factor (Example.image3 7 8 1 9 10 0) (PyFloat 0.5)])
       (Example.task (Some ["B04"; "B08"]) (Some [(MASK, "CLM")]) (TdTimedelta 0))
       None (Some Example.bbox) Example.january Example.start)
    as [w' [p|e]] eqn:Hrun.
  - exists p. split; [done|].
    destruct (execute_metadata _ _ _ _ _ _ _ _ Hrun)
      as (bb & size_x & size_y & [= <-] & [= <- <-] & Hb & H1 & H2 & H3 & _).
    by repeat split.
  - vm_compute in Hrun. discriminate.
Defined.

(** X12: a run that returns leaves alone every array of the supplied
    container that is stored under a feature the task does not write. *)
Theorem execute_keeps_other_features `{Float32} (env : services) self eopatch
    bbox ti w w' p (ft : feature) :
  execute env self eopatch bbox ti w = (w', Ok p) →
  ft ∉ additional_data self →
  bands self = [] ∨ bands_feature self ≠ Some ft →
  features p !! ft = features (default empty_patch eopatch) !! ft.
Proof.
  intros Hrun Hnot Hbands.
  destruct (execute_inv env self eopatch bbox ti w w' p Hrun)
    as (bb & size_x & size_y & dates & images & p1 & p2
        & -> & _ & _ & _ & Hp1 & Hp2 & _ & Hf).
  apply store_all_additional_inv in Hp1 as (_ & _ & Hout).
  apply store_bands_inv in Hp2 as (_ & Hcases).
  rewrite Hf. destruct Hcases as [[_ ->]|(Hne & ftb & b & Hftb & -> & _)].
  - by rewrite (Hout ft Hnot).
  - destruct Hbands as [?|Hbands]; [done|].
    rewrite lookup_insert_ne by congruence. by rewrite (Hout ft Hnot).
Qed.

Lemma execute_keeps_other_features_witness :
  ∃ p,
    (execute
       (Example.env_with [Example.day 3; Example.day 1]
          [Example.with_factor (Example.image3 1 2 0 4 5 1) (PyInt 2);
           Example.with_factor (Example.image3 7 8 1 9 10 0) (PyFloat 0.5)])
       (Example.task (Some ["B04"; "B08"]) (Some [(MASK, "CLM")]) (TdTimedelta 0))
       (Some (with_feature (LABEL_TIMELESS, "OLD")
                (BoolArray {| shape := [1%nat]; items := [true] |}) empty_patch))
       (Some Example.bbox) Example.january Example.start).2 = Ok p
    ∧ features p !! (LABEL_TIMELESS, "OLD")
      = Some (BoolArray {| shape := [1%nat]; items := [true] |}).
Proof.
  destruct (execute
       (Example.env_with [Example.day 3; Example.day 1]
          [Example.with_factor (Example.image3 1 2 0 4 5 1) (PyInt 2);
           Example.with_factor (Example.image3 7 8 1 9 10 0) (PyFloat 0.5)])
       (Example.task (Some ["B04"; "B08"]) (Some [(MASK, "CLM")]) (TdTimedelta 0))
       (Some (with_feature (LABEL_TIMELESS, "OLD")
                (BoolArray {| shape := [1%nat]; items := [true] |}) empty_patch))
       (Some Example.bbox) Example.january Example.start)
    as [w' [p|e]] eqn:Hrun.
  - exists p. split; [done|].
    rewrite (execute_keeps_other_features _ _ _ _ _ _ _ _ (LABEL_TIMELESS, "OLD") Hrun).
    + reflexivity.
    + vm_compute. intros Hin. apply list_elem_of_singleton in Hin. discriminate.
    + right. discriminate.
  - vm_compute in Hrun. discriminate.
Defined.

Lemma reshape_shape {A} (dims : list Z) (a r : ndarray A) :
  reshape dims a = Ok r → Forall (λ d, 0 ≤ d) dims → shape r = Z.to_nat <$> dims.
Proof.
  unfold reshape. intros Hr Hdims.
  assert (Hf : filter (λ d : Z, d ≠ -1) dims = dims).
  { clear Hr. induction Hdims as [|d dims Hd _ IH]; [done|].
    rewrite filter_cons_True by lia. by rewrite IH. }
  rewrite Hf, Nat.sub_diag in Hr.
  destruct (forallb _ dims); [|discriminate].
  destruct (_ =? _); [|discriminate]. by injection Hr as <-.
Qed.

Lemma store_additional_shape `{Float32} self images (n : nat) sy sx ft p p' :
  store_additional self images [Z.of_nat n; sy; sx] ft p = Ok p' →
  0 ≤ sy → 0 ≤ sx →
  ∃ a, features p' = <[ft := BoolArray a]> (features p)
       ∧ shape a = [n; Z.to_nat sy; Z.to_nat sx; 1%nat].
Proof.
  unfold store_additional. destruct ft as [f_type f_name]. intros Hs Hy Hx.
  destruct (list_index _ _) as [idx|]; [|discriminate].
  cbn [mbind result_mbind result_bind] in Hs.
  destruct (result_mapM _ images) as [arrays|]; [|discriminate].
  cbn [mbind result_mbind result_bind] in Hs.
  destruct (asarray arrays) as [stacked|]; [|discriminate].
  cbn [mbind result_mbind result_bind] in Hs.
  destruct (reshape _ stacked) as [reshaped|] eqn:Hr; [|discriminate].
  cbn [mbind result_mbind result_bind] in Hs. apply set_feature_ok in Hs as [-> _].
  eexists. split; [reflexivity|]. cbn [amap shape].
  rewrite (reshape_shape _ _ _ Hr).
  - cbn. by rewrite Nat2Z.id.
  - repeat constructor; lia.
Qed.

Lemma store_all_additional_shape `{Float32} self images (n : nat) sy sx fts p p' :
  store_all_additional self images [Z.of_nat n; sy; sx] fts p = Ok p' →
  0 ≤ sy → 0 ≤ sx →
  ∀ ft, ft ∈ fts →
    ∃ a, features p' !! ft = Some (BoolArray a)
         ∧ shape a = [n; Z.to_nat sy; Z.to_nat sx; 1%nat].
Proof.
  intros Hs Hy Hx. revert p Hs. induction fts as [|ft0 fts IH]; intros p Hs ft Hft.
  { by apply elem_of_nil in Hft. }
  cbn [store_all_additional] in Hs.
  destruct (store_additional _ _ _ ft0 p) as [p1|] eqn:H1; [|discriminate].
  cbn [mbind result_mbind result_bind] in Hs.
  destruct (decide (ft ∈ fts)) as [Hin|Hnot]; [by apply (IH p1)|].
  apply elem_of_cons in Hft as [->|?]; [|done].
  apply store_additional_shape in H1 as (a & Hf1 & Ha); [|done..].
  apply store_all_additional_inv in Hs as (_ & _ & Hout).
  exists a. by rewrite (Hout ft0 Hnot), Hf1, lookup_insert_eq.
Qed.

Lemma store_bands_shape `{Float32} self images (n : nat) sy sx p p' :
  store_bands self images [Z.of_nat n; sy; sx] p = Ok p' →
  0 ≤ sy → 0 ≤ sx →
  bands self ≠ [] →
  ∃ ft a, bands_feature self = Some ft
          ∧ features p' = <[ft := Float32Array a]> (features p)
          ∧ shape a = [n; Z.to_nat sy; Z.to_nat sx; length (bands self)].
Proof.
  unfold store_bands. intros Hs Hy Hx Hne.
  destruct (bands self) as [|b bs] eqn:Hb; [done|]. rewrite <- Hb in *.
  destruct (result_mapM _ images) as [arrays|]; [|discriminate].
  cbn [mbind result_mbind result_bind] in Hs.
  destruct (asarray arrays) as [stacked|]; [|discriminate].
  cbn [mbind result_mbind result_bind] in Hs.
  destruct (reshape _ stacked) as [reshaped|] eqn:Hr; [|discriminate].
  cbn [mbind result_mbind result_bind] in Hs.
  destruct (bands_feature self) as [ft|]; [|discriminate].
  apply set_feature_ok in Hs as [-> _]. eexists _, _. split; [done|]. split; [reflexivity|].
  cbn [amap shape]. rewrite (reshape_shape _ _ _ Hr).
  - cbn. by rewrite !Nat2Z.id.
  - repeat constructor; lia.
Qed.

(** X13: with an output size that is not negative, a run that returns has
    stored every additional feature as an array of booleans of shape
    (dates, size_y, size_x, 1) and, when there are bands, the bands feature
    as an array of 32-bit floats of shape (dates, size_y, size_x, bands):
    the height comes before the width. *)
Theorem execute_array_shapes `{Float32} (env : services) self eopatch bbox ti
    w w' p size_x size_y :
  execute env self eopatch bbox ti w = (w', Ok p) →
  resolve_size self bbox = Ok (Some (size_x, size_y)) →
  0 ≤ size_x → 0 ≤ size_y →
  (∀ ft, ft ∈ additional_data self →
     bands self = [] ∨ bands_feature self ≠ Some ft →
     ∃ a, features p !! ft = Some (BoolArray a)
          ∧ shape a = [length (timestamp p); Z.to_nat size_y; Z.to_nat size_x; 1%nat])
  ∧ (bands self ≠ [] →
     ∃ ft a, bands_feature self = Some ft
             ∧ features p !! ft = Some (Float32Array a)
             ∧ shape a = [length (timestamp p); Z.to_nat size_y; Z.to_nat size_x;
                          length (bands self)]).
Proof.
  intros Hrun Hsize Hx Hy.
  destruct (execute_inv_container env self eopatch bbox ti w w' p Hrun)
    as (bb & sx & sy & dates & images & p1 & p2
        & -> & Hsize' & Hp1 & Hp2 & Ht & ->).
  rewrite Hsize in Hsize'. injection Hsize' as <- <-.
  cbn [set_meta features timestamp]. rewrite Ht. split.
  - intros ft Hft Hbands.
    destruct (store_all_additional_shape _ _ _ _ _ _ _ _ Hp1 Hy Hx ft Hft)
      as (a & Ha & Hshape).
    exists a. split; [|done].
    apply store_bands_inv in Hp2 as (_ & [[_ ->]|(Hne & ftb & b & Hftb & -> & _)]);
      [done|].
    destruct Hbands as [?|Hbands]; [done|].
    by rewrite lookup_insert_ne by congruence.
  - intros Hne.
    destruct (store_bands_shape _ _ _ _ _ _ _ Hp2 Hy Hx Hne)
      as (ft & a & Hft & -> & Hshape).
    exists ft, a. by rewrite lookup_insert_eq.
Qed.

Lemma execute_array_shapes_witness :
  ∃ p,
    (execute
       (Example.env_with [Example.day 3; Example.day 1]
          [Example.with_factor (Example.image3 1 2 0 4 5 1) (PyInt 2);
           Example.with_factor (Example.image3 7 8 1 9 10 0) (PyFloat 0.5)])
       (Example.task (Some ["B04"; "B08"]) (Some [(MASK, "CLM")]) (TdTimedelta 0))
       None (Some Example.bbox) Example.january Example.start).2 = Ok p
    ∧ ∃ a, features p !! (MASK, "CLM") = Some (BoolArray a)
           ∧ shape a = [length (timestamp p); 1; 2; 1]%nat.
Proof.
  destruct (execute
       (Example.env_with [Example.day 3; Example.day 1]
          [Example.with_factor (Example.image3 1 2 0 4 5 1) (PyInt 2);
           Example.with_factor (Example.image3 7 8 1 9 10 0) (PyFloat 0.5)])
       (Example.task (Some ["B04"; "B08"]) (Some [(MASK, "CLM")]) (TdTimedelta 0))
       None (Some Example.bbox) Example.january Example.start)
    as [w' [p|e]] eqn:Hrun.
  - exists p. split; [done|].
    apply (proj1 (execute_array_shapes _ _ _ _ _ _ _ _ 2 1 Hrun eq_refl
                    ltac:(lia) ltac:(lia))).
    + by left.
    + right. discriminate.
  - vm_compute in Hrun. discriminate.
Defined.

(** X14: without an explicit size, a resolution of zero makes [execute]
    raise ZeroDivisionError before the store or any service is touched. *)
Theorem execute_zero_resolution `{Float32} (env : services) self eopatch bb ti w res :
  size self = None →
  resolution self = Some res →
  PrimFloat.eqb res 0%float = true →
  execute env self eopatch (Some bb) ti w
  = (w, Raise (ZeroDivisionError "float division by zero")).
Proof.
  intros Hsize Hres Hzero.
  unfold execute, resolve_size, size_from_resolution, float_div.
  rewrite Hsize, Hres, Hzero. reflexivity.
Qed.

Lemma execute_zero_resolution_witness :
  execute (Example.env_with [Example.day 1] [])
    {| data_source := Example.S2L1C; size := None; resolution := Some (-0)%float;
       bands_feature := None; bands_arg := None; additional_data_arg := None;
       maxcc := 1%float; time_difference := TdInt (-1);
       cache_folder := None; max_threads := 5 |}
    None (Some Example.bbox) Example.january Example.start
  = (Example.start, Raise (ZeroDivisionError "float division by zero")).
Proof.
  apply (execute_zero_resolution (Example.env_with [Example.day 1] []) _ _ _ _ _
           (-0)%float); reflexivity.
Defined.

(** X15: an explicit size wins over a resolution: with [size] set, the run
    is the same whatever [resolution] holds, a zero or a NaN included. *)
Theorem execute_size_overrides_resolution `{Float32} (env : services) self eopatch
    bbox ti w xy res :
  size self = Some xy →
  execute env self eopatch bbox ti w
  = execute env
      {| data_source := data_source self; size := size self; resolution := res;
         bands_feature := bands_feature self; bands_arg := bands_arg self;
         additional_data_arg := additional_data_arg self; maxcc := maxcc self;
         time_difference := time_difference self; cache_folder := cache_folder self;
         max_threads := max_threads self |}
      eopatch bbox ti w.
Proof.
  intros Hsize. destruct self as [ds sz rs bf ba ad mc td cf mt]. cbn in Hsize. subst sz.
  cbn [data_source size bands_feature bands_arg additional_data_arg maxcc
       time_difference cache_folder max_threads].
  set (self := {| data_source := ds; size := Some xy; resolution := rs;
                  bands_feature := bf; bands_arg := ba; additional_data_arg := ad;
                  maxcc := mc; time_difference := td; cache_folder := cf;
                  max_threads := mt |}).
  set (self' := {| data_source := ds; size := Some xy; resolution := res;
                   bands_feature := bf; bands_arg := ba; additional_data_arg := ad;
                   maxcc := mc; time_difference := td; cache_folder := cf;
                   max_threads := mt |}).
  assert (Hadd : ∀ images dims fts p,
            store_all_additional self' images dims fts p
            = store_all_additional self images dims fts p).
  { intros images dims fts. induction fts as [|ft fts IH]; intros p; [done|].
    cbn [store_all_additional].
    change (store_additional self' images dims ft p)
      with (store_additional self images dims ft p).
    destruct (store_additional self images dims ft p); [apply IH | done]. }
  unfold execute.
  change (resolve_size self' bbox) with (resolve_size self bbox).
  change (generate_evalscript self') with (generate_evalscript self).
  change (data_source self') with (data_source self).
  change (maxcc self') with (maxcc self).
  change (time_difference self') with (time_difference self).
  change (additional_data self') with (additional_data self).
  msimpl.
  destruct (resolve_size self bbox) as [sizes|]; [|done].
  destruct bbox as [bb|]; [|done].
  destruct sizes as [[size_x size_y]|]; [|done].
  destruct (generate_evalscript self) as [script|]; [|done].
  destruct (alloc_json _ w) as [w1 [request|]]; [|done].
  change (get_dates env self' bb ti w1) with (get_dates env self bb ti w1).
  destruct (get_dates env self bb ti w1) as [w2 [dates|]]; [|done].
  destruct (mapM _ dates w2) as [w3 [requests|]]; [|done].
  destruct (result_mapM _ requests) as [payloads|]; [|done].
  destruct (client_download env payloads) as [images|]; [|done].
  rewrite Hadd.
  destruct (store_all_additional self _ _ _ _) as [p1|]; [|done].
  change (store_bands self' ?a ?b p1) with (store_bands self a b p1).
  by destruct (store_bands self _ _ p1).
Qed.

Lemma execute_size_overrides_resolution_witness :
  execute (Example.env_with [Example.day 1] []) Example.default_task None
    (Some Example.bbox) Example.january Example.start
  = execute (Example.env_with [Example.day 1] [])
      {| data_source := Example.S2L1C; size := Some (2, 1); resolution := Some 0%float;
         bands_feature := None; bands_arg := None; additional_data_arg := None;
         maxcc := 1%float; time_difference := TdInt (-1);
         cache_folder := None; max_threads := 5 |}
      None (Some Example.bbox) Example.january Example.start.
Proof.
  apply (execute_size_overrides_resolution (Example.env_with [Example.day 1] [])
           Example.default_task None (Some Example.bbox) Example.january
           Example.start (2, 1) (Some 0%float)).
  reflexivity.
Defined.

(** X16: called without a bounding box, which is the default, [execute]
    raises before it touches the store or calls a service: TypeError when
    the size has to come from the resolution, AttributeError otherwise. *)
Theorem execute_without_bbox `{Float32} (env : services) self eopatch ti w :
  execute env self eopatch None ti w
  = (w, Raise (match size self, resolution self with
               | None, Some _ => TypeError "'NoneType' object is not iterable"
               | _, _ => AttributeError "'NoneType' object has no attribute 'crs'"
               end)).
Proof.
  unfold execute, resolve_size, size_from_resolution.
  destruct (size self) as [xy|]; [done|]. by destruct (resolution self).
Qed.

(** X17: with band and feature names that are all different, the j-th
    additional feature, when its type holds arrays of four axes (DATA or
    MASK), is read from the channel after the bands at position j: the
    stored mask says, image by image and pixel by pixel, whether that
    channel is not zero. *)
Theorem store_additional_channel `{Float32} self
    (images : list (ndarray Z * pynumber)) (h w j : nat)
    (f_type : FeatureType) (f_name : string) (p : EOPatch) :
  Forall (λ im, three_dimensional h w (length (all_bands self)) im.1) images →
  NoDup (all_bands self) →
  additional_data self !! j = Some (f_type, f_name) →
  feature_ndim f_type = 4%nat →
  store_additional self images
    [Z.of_nat (length images); Z.of_nat h; Z.of_nat w] (f_type, f_name) p
  = Ok (with_feature (f_type, f_name)
          (BoolArray
             {| shape := [length images; h; w; 1%nat];
                items := (λ sample, negb (sample =? 0))
                         <$> concat ((λ im, channel h w (length (all_bands self))
                                              (length (bands self) + j) im.1)
                                     <$> images) |}) p).
Proof.
  intros Himages Hnd Hj Hndim.
  destruct (store_additional_3d self images h w f_type f_name p Himages)
    as (idx & _ & Hidx & _ & ->); [by eapply list_elem_of_lookup_2|done|].
  assert (Hat : all_bands self !! (length (bands self) + j)%nat = Some f_name).
  { unfold all_bands. rewrite lookup_app_r by lia.
    replace (length (bands self) + j - length (bands self))%nat with j by lia.
    by rewrite list_lookup_fmap, Hj. }
  by rewrite (NoDup_lookup _ _ _ _ Hnd Hidx Hat).
Qed.

Lemma store_additional_channel_witness :
  store_additional
    (Example.task (Some ["B04"; "B08"]) (Some [(MASK, "CLM")]) (TdTimedelta 0))
    [(Example.image3 1 2 0 4 5 1, PyInt 2); (Example.image3 7 8 1 9 10 0, PyInt 1)]
    [2; 1; 2] (MASK, "CLM") empty_patch
  = Ok (with_feature (MASK, "CLM")
          (BoolArray {| shape := [2; 1; 2; 1]%nat;
                        items := [false; true; true; false] |}) empty_patch).
Proof.
  apply (store_additional_channel
           (Example.task (Some ["B04"; "B08"]) (Some [(MASK, "CLM")]) (TdTimedelta 0))
           [(Example.image3 1 2 0 4 5 1, PyInt 2); (Example.image3 7 8 1 9 10 0, PyInt 1)]
           1 2 0 MASK "CLM" empty_patch).
  - repeat constructor.
  - apply (bool_decide_unpack _). by vm_compute.
  - reflexivity.
  - reflexivity.
Defined.

(** X18: an additional feature named like a band, when its type holds
    arrays of four axes (DATA or MASK), is read from the band's channel,
    the first one of that name, and not from a channel of its own. *)
Theorem store_additional_shadowed `{Float32} self
    (images : list (ndarray Z * pynumber)) (h w : nat)
    (f_type : FeatureType) (f_name : string) (p : EOPatch) :
  Forall (λ im, three_dimensional h w (length (all_bands self)) im.1) images →
  (f_type, f_name) ∈ additional_data self →
  f_name ∈ bands self →
  feature_ndim f_type = 4%nat →
  ∃ idx,
    (idx < length (bands self))%nat
    ∧ bands self !! idx = Some f_name
    ∧ store_additional self images
        [Z.of_nat (length images); Z.of_nat h; Z.of_nat w] (f_type, f_name) p
      = Ok (with_feature (f_type, f_name)
              (BoolArray
                 {| shape := [length images; h; w; 1%nat];
                    items := (λ sample, negb (sample =? 0))
                             <$> concat ((λ im, channel h w (length (all_bands self))
                                                  idx im.1) <$> images) |}) p).
Proof.
  intros Himages Hin Hband Hndim.
  destruct (store_additional_3d self images h w f_type f_name p Himages Hin Hndim)
    as (idx & _ & Hidx & Hfirst & Hstore).
  apply list_elem_of_lookup_1 in Hband as [i Hi].
  assert (Hle : (idx ≤ i)%nat).
  { destruct (decide (idx ≤ i)%nat) as [|Hgt]; [done|]. exfalso.
    apply (Hfirst i); [lia|]. unfold all_bands. by apply lookup_app_l_Some. }
  pose proof (lookup_lt_Some _ _ _ Hi) as Hlt.
  exists idx. split; [lia|]. split; [|done].
  unfold all_bands in Hidx. by rewrite lookup_app_l in Hidx by lia.
Qed.

Lemma store_additional_shadowed_witness :
  ∃ idx,
    (idx < 2)%nat
    ∧ store_additional
        (Example.task (Some ["B04"; "B08"]) (Some [(MASK, "B08")]) (TdTimedelta 0))
        [(Example.image3 1 0 1 4 5 0, PyInt 2)]
        [1; 1; 2] (MASK, "B08") empty_patch
      = Ok (with_feature (MASK, "B08")
              (BoolArray {| shape := [1; 1; 2; 1]%nat; items := [false; true] |})
              empty_patch).
Proof.
  destruct (store_additional_shadowed
              (Example.task (Some ["B04"; "B08"]) (Some [(MASK, "B08")]) (TdTimedelta 0))
              [(Example.image3 1 0 1 4 5 0, PyInt 2)] 1 2 MASK "B08" empty_patch)
    as (idx & Hlt & Hidx & Hstore).
  - repeat constructor.
  - apply (bool_decide_unpack _). by vm_compute.
  - apply (bool_decide_unpack _). by vm_compute.
  - reflexivity.
  - exists idx. split; [exact Hlt|].
    destruct idx as [|[|idx]]; [discriminate Hidx | exact Hstore | cbn in Hlt; lia].
Defined.

(** ** Requests as trees *)

Lemma elem_of_concat {A} (x : A) (ls : list (list A)) :
  x ∈ concat ls ↔ ∃ l, l ∈ ls ∧ x ∈ l.
Proof.
  induction ls as [|l ls IH]; cbn [concat].
  - split; [by intros ?%elem_of_nil | by intros (? & ?%elem_of_nil & _)].
  - rewrite elem_of_app, IH. split.
    + intros [?|(l' & ? & ?)]; [exists l | exists l']; split; try done;
        apply elem_of_cons; auto.
    + intros (l' & [->|?]%elem_of_cons & ?); [by left | right; by exists l'].
Qed.

Lemma foldr_and_Forall {A} (Q : A → Prop) (l : list A) :
  foldr (λ e P, Q e ∧ P) True l ↔ Forall Q l.
Proof.
  induction l as [|e l IH]; cbn [foldr]; [by split; [constructor|]|].
  rewrite Forall_cons, IH. done.
Qed.

Lemma in_heap_list h a elems :
  in_heap h (TList a elems)
  ↔ h !! a = Some (OList (root <$> elems)) ∧ Forall (in_heap h) elems.
Proof. cbn [in_heap]. by rewrite foldr_and_Forall. Qed.

Lemma in_heap_dict h a entries :
  in_heap h (TDict a entries)
  ↔ h !! a = Some (ODict (root_entry <$> entries))
    ∧ Forall (λ e, in_heap h e.2) entries.
Proof. cbn [in_heap]. by rewrite (foldr_and_Forall (λ e, in_heap h e.2)). Qed.

Lemma in_heap_dict' h a entries :
  in_heap h (TDict a entries)
  ↔ h !! a = Some (ODict (root_entry <$> entries)) ∧ Forall (in_heap h) entries.*2.
Proof. rewrite in_heap_dict, Forall_fmap. done. Qed.

Lemma elem_of_addrs_list a a0 elems :
  a ∈ addrs (TList a0 elems) ↔ a = a0 ∨ ∃ e, e ∈ elems ∧ a ∈ addrs e.
Proof.
  cbn [addrs]. rewrite elem_of_cons, elem_of_concat. split.
  - intros [?|(l & (e & -> & ?)%list_elem_of_fmap & ?)]; [by left | right; by exists e].
  - intros [?|(e & ? & ?)]; [by left|]. right. exists (addrs e). split; [|done].
    apply list_elem_of_fmap. by exists e.
Qed.

Lemma elem_of_addrs_dict a a0 entries :
  a ∈ addrs (TDict a0 entries) ↔ a = a0 ∨ ∃ e, e ∈ entries ∧ a ∈ addrs e.2.
Proof.
  cbn [addrs]. rewrite elem_of_cons, elem_of_concat. split.
  - intros [?|(l & (e & -> & ?)%list_elem_of_fmap & ?)]; [by left | right; by exists e].
  - intros [?|(e & ? & ?)]; [by left|]. right. exists (addrs e.2). split; [|done].
    apply list_elem_of_fmap. by exists e.
Qed.

(** A tree in the store depends on the objects at its addresses only. *)
Lemma in_heap_agree h h' t :
  in_heap h t → (∀ a, a ∈ addrs t → h' !! a = h !! a) → in_heap h' t.
Proof.
  induction t as [| | | | |a0 l IH|a0 l IH] using tree_rect'; try done.
  - rewrite !in_heap_list. intros [Ha Hall] Hag. split.
    + rewrite Hag; [done|]. apply elem_of_addrs_list. by left.
    + rewrite Forall_forall in *. intros e He. apply IH; [done | by apply Hall|].
      intros a Ha'. apply Hag, elem_of_addrs_list. right. by exists e.
  - rewrite !in_heap_dict. intros [Ha Hall] Hag. split.
    + rewrite Hag; [done|]. apply elem_of_addrs_dict. by left.
    + rewrite Forall_forall in *. intros e He. apply IH; [done | by apply Hall|].
      intros a Ha'. apply Hag, elem_of_addrs_dict. right. by exists e.
Qed.

Lemma in_heap_bound h t a : in_heap h t → a ∈ addrs t → (a < length h)%nat.
Proof.
  induction t as [| | | | |a0 l IH|a0 l IH] using tree_rect';
    try (by intros _ ?%elem_of_nil).
  - rewrite in_heap_list, elem_of_addrs_list. intros [Ha Hall] [->|(e & He & Hae)].
    + by eapply lookup_lt_Some.
    + rewrite Forall_forall in *. apply (IH e He); [by apply Hall | done].
  - rewrite in_heap_dict, elem_of_addrs_dict. intros [Ha Hall] [->|(e & He & Hae)].
    + by eapply lookup_lt_Some.
    + rewrite Forall_forall in *. apply (IH e He); [by apply Hall | done].
Qed.

Lemma in_heap_prefix h h' t : h `prefix_of` h' → in_heap h t → in_heap h' t.
Proof.
  intros [ext ->] Ht. apply (in_heap_agree h); [done|].
  intros a Ha. apply lookup_app_l, (in_heap_bound h t a Ht Ha).
Qed.

(** Serialising a tree in the store gives the tree. *)
Lemma reify_tree limit h t j :
  in_heap h t → reify limit h (root t) = Ok j → j = erase t.
Proof.
  revert t j. induction limit as [|limit IH]; intros t j Ht; [done|].
  destruct t as [| | | | |a l|a l]; cbn [reify root erase];
    try (by intros [= <-]).
  - apply in_heap_list in Ht as [-> Hall].
    destruct (result_mapM _ _) as [js|] eqn:Hjs; [|done].
    cbn. intros [= <-]. f_equal.
    revert js Hjs. induction Hall as [|e l He _ IHl]; intros js; cbn [result_mapM fmap list_fmap].
    + by intros [= <-].
    + destruct (reify limit h (root e)) as [j0|] eqn:Hj0; [|done].
      cbn. destruct (result_mapM _ _) as [js0|]; [|done].
      cbn. intros [= <-]. f_equal; [by apply IH | by apply IHl].
  - apply in_heap_dict in Ht as [-> Hall].
    destruct (result_mapM _ _) as [js|] eqn:Hjs; [|done].
    cbn. intros [= <-]. f_equal.
    revert js Hjs. induction Hall as [|e l He _ IHl]; intros js; cbn [result_mapM fmap list_fmap].
    + by intros [= <-].
    + cbn [root_entry fst snd].
      destruct (reify limit h (root e.2)) as [j0|] eqn:Hj0; [|done].
      cbn. destruct (result_mapM _ _) as [js0|]; [|done].
      cbn. intros [= <-]. f_equal; [f_equal; by apply IH | by apply IHl].
Qed.

Lemma dict_get_entries es k : dict_get es k = entries_get k es.
Proof. induction es as [|[k' v] es IH]; cbn; [done|]. by destruct (decide _). Qed.

Lemma dict_set_entries es k v : dict_set es k v = entries_set k v es.
Proof.
  induction es as [|[k' v'] es IH]; cbn; [done|].
  destruct (decide _); [done|]. by rewrite IH.
Qed.

Lemma entries_get_fmap {A B} (g : A → B) k (es : list (string * A)) :
  entries_get k ((λ e, (e.1, g e.2)) <$> es) = g <$> entries_get k es.
Proof. induction es as [|[k' x] es IH]; cbn; [done|]. by destruct (decide _). Qed.

Lemma entries_set_fmap {A B} (g : A → B) k x (es : list (string * A)) :
  (λ e, (e.1, g e.2)) <$> entries_set k x es
  = entries_set k (g x) ((λ e, (e.1, g e.2)) <$> es).
Proof.
  induction es as [|[k' x'] es IH]; cbn; [done|].
  destruct (decide _); cbn; [done|]. by rewrite IH.
Qed.

Lemma entries_update_fmap {A B} (g : A → B) (f : A → A) (f' : B → B) k
    (es : list (string * A)) :
  (∀ x, g (f x) = f' (g x)) →
  (λ e, (e.1, g e.2)) <$> entries_update k f es
  = entries_update k f' ((λ e, (e.1, g e.2)) <$> es).
Proof.
  intros Hf. induction es as [|[k' x'] es IH]; cbn; [done|].
  destruct (decide _); cbn; [by rewrite Hf|]. by rewrite IH.
Qed.

Lemma entries_update_split {A} k (es : list (string * A)) c :
  entries_get k es = Some c →
  ∃ l1 l2, es = l1 ++ (k, c) :: l2
           ∧ ∀ f, entries_update k f es = l1 ++ (k, f c) :: l2.
Proof.
  induction es as [|[k' x] es IH]; cbn; [done|].
  destruct (decide (k' = k)) as [->|Hne].
  - intros [= ->]. by exists [], es.
  - intros (l1 & l2 & -> & Hup)%IH. exists ((k', x) :: l1), l2. split; [done|].
    intros f. cbn. by rewrite Hup.
Qed.

Lemma entries_update_none {A} k (f : A → A) (es : list (string * A)) :
  entries_get k es = None → entries_update k f es = es.
Proof.
  induction es as [|[k' x] es IH]; cbn; [done|].
  destruct (decide (k' = k)); [done|]. intros ?. by rewrite IH.
Qed.

Lemma entries_set_split {A} k (x : A) (es : list (string * A)) :
  entries_set k x es = es ++ [(k, x)]
  ∨ ∃ l1 c l2, es = l1 ++ (k, c) :: l2 ∧ entries_set k x es = l1 ++ (k, x) :: l2.
Proof.
  induction es as [|[k' x'] es IH]; cbn; [by left|].
  destruct (decide (k' = k)) as [->|Hne].
  - right. by exists [], x', es.
  - destruct IH as [->|(l1 & c & l2 & -> & ->)]; [by left|].
    right. by exists ((k', x') :: l1), c, l2.
Qed.

Lemma root_tree_set k x t : root (tree_set k x t) = root t.
Proof. by destruct t. Qed.

Lemma root_tree_update k f t : root (tree_update k f t) = root t.
Proof. by destruct t. Qed.

Lemma root_tree_each f t : root (tree_each f t) = root t.
Proof. by destruct t. Qed.

Lemma erase_tree_set k x t : erase (tree_set k x t) = json_set k (erase x) (erase t).
Proof. destruct t; try done. cbn. f_equal. apply (entries_set_fmap erase). Qed.

Lemma erase_tree_update k f f' t :
  (∀ x, erase (f x) = f' (erase x)) →
  erase (tree_update k f t) = json_update k f' (erase t).
Proof.
  intros Hf. destruct t; try done. cbn. f_equal. by apply (entries_update_fmap erase).
Qed.

Lemma erase_tree_each f f' t :
  (∀ x, erase (f x) = f' (erase x)) →
  erase (tree_each f t) = json_each f' (erase t).
Proof.
  intros Hf. destruct t; try done. cbn. f_equal.
  rewrite <- !list_fmap_compose. apply list_fmap_ext. intros ? x _. apply Hf.
Qed.

Lemma erase_tree_specialise tf tu cc t :
  erase (tree_specialise tf tu cc t) = json_specialise tf tu cc (erase t).
Proof.
  unfold tree_specialise, json_specialise.
  apply erase_tree_update. intros df. rewrite erase_tree_set. f_equal.
  apply erase_tree_update. intros tr. by rewrite !erase_tree_set.
Qed.

Lemma addrs_dict a es : addrs (TDict a es) = a :: concat (addrs <$> es.*2).
Proof. cbn [addrs]. by rewrite <- list_fmap_compose. Qed.

Lemma in_heap_leaf h x : addrs x = [] → in_heap h x.
Proof. by destruct x. Qed.

Lemma evolves_refl h t : in_heap h t → evolves h h t t.
Proof. intros Ht. by split; [|split; [|split]]. Qed.

Lemma evolves_trans h h1 h2 t t1 t2 :
  evolves h h1 t t1 → evolves h1 h2 t1 t2 → evolves h h2 t t2.
Proof.
  intros (H1 & R1 & S1 & F1) (H2 & R2 & S2 & F2).
  split; [done|]. split; [congruence|]. split; [by etrans|].
  intros a Ha. rewrite F2, F1; [done | done |].
  intros Hin. apply Ha. by eapply elem_of_sublist.
Qed.

(** A change within one child is a change of the children. *)
Lemma evolves_children h h' (l1 l2 : list tree) c c' :
  Forall (in_heap h) (l1 ++ c :: l2) →
  NoDup (concat (addrs <$> (l1 ++ c :: l2))) →
  evolves h h' c c' →
  Forall (in_heap h') (l1 ++ c' :: l2)
  ∧ concat (addrs <$> (l1 ++ c' :: l2)) `sublist_of` concat (addrs <$> (l1 ++ c :: l2))
  ∧ ∀ a, a ∈ addrs c → a ∈ concat (addrs <$> (l1 ++ c :: l2)).
Proof.
  rewrite !fmap_app, !fmap_cons, !concat_app. cbn [concat].
  intros [H1 [Hc H2]%Forall_cons]%Forall_app
         (N1 & D1 & (Nc & D2 & N2)%NoDup_app)%NoDup_app (Hc' & Hroot & Hsub & Hoff).
  split; [|split].
  - apply Forall_app. split; [|apply Forall_cons; split; [done|]].
    + rewrite Forall_forall in *. intros e He. apply (in_heap_agree h); [by apply H1|].
      intros a Ha. apply Hoff. intros Hac.
      apply (D1 a); [|apply elem_of_app; by left].
      apply elem_of_concat. exists (addrs e). split; [|done].
      apply list_elem_of_fmap. by exists e.
    + rewrite Forall_forall in *. intros e He. apply (in_heap_agree h); [by apply H2|].
      intros a Ha. apply Hoff. intros Hac. apply (D2 a Hac).
      apply elem_of_concat. exists (addrs e). split; [|done].
      apply list_elem_of_fmap. by exists e.
  - apply sublist_app; [done|]. by apply sublist_app.
  - intros a Ha. apply elem_of_app. right. apply elem_of_app. by left.
Qed.

Lemma evolves_elem h h' a l1 c c' l2 :
  in_heap h (TList a (l1 ++ c :: l2)) →
  NoDup (addrs (TList a (l1 ++ c :: l2))) →
  evolves h h' c c' →
  evolves h h' (TList a (l1 ++ c :: l2)) (TList a (l1 ++ c' :: l2)).
Proof.
  intros [Ha Hall]%in_heap_list [Hna Hnd]%NoDup_cons Hev.
  destruct (evolves_children h h' l1 l2 c c' Hall Hnd Hev) as (Hall' & Hsub & Hin).
  destruct Hev as (_ & Hroot & _ & Hoff).
  split; [|split; [done|split]].
  - apply in_heap_list. split; [|done].
    rewrite Hoff by (intros ?; by apply Hna, Hin).
    rewrite Ha, !fmap_app, !fmap_cons. by rewrite Hroot.
  - cbn [addrs]. by apply sublist_skip.
  - intros a' Ha'. apply Hoff. intros ?. apply Ha'. cbn [addrs].
    apply elem_of_cons. right. by apply Hin.
Qed.

Lemma snd_app_cons {A} (l1 l2 : list (string * A)) k c :
  (l1 ++ (k, c) :: l2).*2 = l1.*2 ++ c :: l2.*2.
Proof. by rewrite fmap_app. Qed.

Lemma evolves_entry h h' a l1 k c c' l2 :
  in_heap h (TDict a (l1 ++ (k, c) :: l2)) →
  NoDup (addrs (TDict a (l1 ++ (k, c) :: l2))) →
  evolves h h' c c' →
  evolves h h' (TDict a (l1 ++ (k, c) :: l2)) (TDict a (l1 ++ (k, c') :: l2)).
Proof.
  rewrite !addrs_dict, in_heap_dict', !snd_app_cons.
  intros [Ha Hall] [Hna Hnd]%NoDup_cons Hev.
  destruct (evolves_children h h' (l1.*2) (l2.*2) c c' Hall Hnd Hev)
    as (Hall' & Hsub & Hin).
  destruct Hev as (_ & Hroot & _ & Hoff).
  split; [|split; [done|split]].
  - apply in_heap_dict'. rewrite snd_app_cons. split; [|done].
    rewrite Hoff by (intros ?; by apply Hna, Hin).
    rewrite Ha, !fmap_app, !fmap_cons. unfold root_entry. cbn [fst snd].
    by rewrite Hroot.
  - rewrite !addrs_dict, !snd_app_cons. by apply sublist_skip.
  - intros a' Ha'. apply Hoff. intros ?. apply Ha'.
    rewrite addrs_dict, snd_app_cons. apply elem_of_cons. right. by apply Hin.
Qed.

(** An update under a key that is there. *)
Lemma evolves_update h h' k f t c :
  in_heap h t → NoDup (addrs t) →
  (∃ a es, t = TDict a es ∧ entries_get k es = Some c) →
  evolves h h' c (f c) →
  evolves h h' t (tree_update k f t).
Proof.
  intros Ht Hnd (a & es & -> & Hget) Hev.
  destruct (entries_update_split k es c Hget) as (l1 & l2 & -> & Hup).
  cbn [tree_update]. rewrite Hup. by apply evolves_entry.
Qed.

Lemma in_heap_entry h a es k c :
  in_heap h (TDict a es) → NoDup (addrs (TDict a es)) →
  entries_get k es = Some c →
  in_heap h c ∧ NoDup (addrs c).
Proof.
  intros [_ Hall]%in_heap_dict Hnd Hget.
  destruct (entries_update_split k es c Hget) as (l1 & l2 & -> & _).
  apply Forall_app in Hall as [_ [Hc _]%Forall_cons]. split; [done|].
  rewrite addrs_dict, !fmap_app, !fmap_cons, concat_app in Hnd. cbn in Hnd.
  by apply NoDup_cons in Hnd as [_ (_ & _ & (? & _ & _)%NoDup_app)%NoDup_app].
Qed.

Lemma getitem_tree t k w w' v :
  in_heap (store w) t →
  getitem (root t) k w = (w', Ok v) →
  w' = w ∧ ∃ a es c, t = TDict a es ∧ entries_get k es = Some c ∧ root c = v.
Proof.
  intros Ht (-> & a & Hr & entries & Ha & Hget)%getitem_ok. split; [done|].
  destruct t as [| | | | |a' l|a' es]; try discriminate Hr; injection Hr as ->.
  - apply in_heap_list in Ht as [Ht _]. congruence.
  - apply in_heap_dict in Ht as [Ht _]. rewrite Ht in Ha. injection Ha as <-.
    rewrite dict_get_entries in Hget. unfold root_entry in Hget.
    rewrite (entries_get_fmap root) in Hget.
    destruct (entries_get k es) as [c|] eqn:Hc; [|done]. injection Hget as <-.
    by exists a, es, c.
Qed.

Lemma setitem_tree t k x w w' :
  in_heap (store w) t → NoDup (addrs t) → addrs x = [] →
  setitem (root t) k (root x) w = (w', Ok tt) →
  evolves (store w) (store w') t (tree_set k x t) ∧ log w' = log w.
Proof.
  intros Ht Hnd Hx (a & entries & Hr & Ha & ->)%setitem_ok. cbn [store log].
  split; [|done].
  destruct t as [| | | | |a' l|a' es]; try discriminate Hr; injection Hr as ->.
  { apply in_heap_list in Ht as [Ht _]. congruence. }
  apply in_heap_dict in Ht as [Ht Hall]. rewrite Ht in Ha. injection Ha as <-.
  rewrite addrs_dict in Hnd. apply NoDup_cons in Hnd as [Hna Hnd].
  assert (Hkeep : ∀ e, e ∈ es →
            in_heap (<[a:=ODict (dict_set (root_entry <$> es) k (root x))]> (store w)) e.2).
  { intros e He. apply (in_heap_agree (store w)).
    - rewrite Forall_forall in Hall. by apply Hall.
    - intros a0 Ha0. apply list_lookup_insert_ne. intros <-. apply Hna.
      apply elem_of_concat. exists (addrs e.2). split; [|done].
      apply list_elem_of_fmap. exists e.2. split; [done|].
      apply list_elem_of_fmap. by exists e. }
  cbn [tree_set]. split; [|split; [done|split]].
  - apply in_heap_dict. split.
    + rewrite list_lookup_insert_eq by (by eapply lookup_lt_Some).
      rewrite dict_set_entries. unfold root_entry.
      by rewrite (entries_set_fmap root).
    + destruct (entries_set_split k x es) as [->|(l1 & c & l2 & -> & ->)].
      * apply Forall_app. split; [by apply Forall_forall|].
        apply Forall_singleton. by apply in_heap_leaf.
      * apply Forall_app. split.
        { apply Forall_forall. intros e He. apply Hkeep, elem_of_app. by left. }
        apply Forall_cons. split; [by apply in_heap_leaf|].
        apply Forall_forall. intros e He. apply Hkeep, elem_of_app. right.
        apply elem_of_cons. by right.
  - rewrite !addrs_dict. apply sublist_skip.
    destruct (entries_set_split k x es) as [->|(l1 & c & l2 & -> & ->)].
    + rewrite !fmap_app, concat_app. cbn. by rewrite Hx, !app_nil_r.
    + rewrite !fmap_app, !fmap_cons, !concat_app. cbn. rewrite Hx. cbn.
      apply sublist_app; [done|]. by apply sublist_inserts_l.
  - intros a0 Ha0. apply list_lookup_insert_ne. intros <-. apply Ha0.
    rewrite addrs_dict. apply elem_of_cons. by left.
Qed.

Lemma entries_get_update {A} k (f : A → A) (es : list (string * A)) :
  entries_get k (entries_update k f es) = f <$> entries_get k es.
Proof.
  induction es as [|[k' x] es IH]; cbn; [done|].
  destruct (decide (k' = k)) as [->|Hne]; cbn.
  - by rewrite decide_True.
  - by rewrite decide_False.
Qed.

(** One turn of the loop on a tree. *)
Lemma specialise_data_tree tf tu maxcc cc d w w' :
  in_heap (store w) d → NoDup (addrs d) →
  int_of_float (maxcc * float_100)%float = Ok cc →
  specialise_data tf tu maxcc (root d) w = (w', Ok tt) →
  evolves (store w) (store w') d (tree_specialise tf tu cc d) ∧ log w' = log w.
Proof.
  intros Hd Hnd Hcc. unfold specialise_data. msimpl.
  destruct (getitem (root d) "dataFilter" w) as [w0 [dfv|]] eqn:Hdf; [|discriminate].
  apply (getitem_tree d) in Hdf as (-> & a & es & df & -> & Hget & <-); [|done].
  destruct (in_heap_entry _ _ _ _ _ Hd Hnd Hget) as [Hdf Hnddf].
  destruct (getitem (root df) "timeRange" w) as [w0 [trv|]] eqn:Htr; [|discriminate].
  apply (getitem_tree df) in Htr as (-> & a2 & es2 & tr & -> & Hget2 & <-); [|done].
  destruct (in_heap_entry _ _ _ _ _ Hdf Hnddf Hget2) as [Htr Hndtr].
  destruct (setitem (root tr) "from" (VStr tf) w) as [w1 [[]|]] eqn:Hfrom; [|discriminate].
  apply (setitem_tree tr "from" (TStr tf)) in Hfrom as [E1 L1]; [|done..].
  destruct (setitem (root tr) "to" (VStr tu) w1) as [w2 [[]|]] eqn:Hto; [|discriminate].
  rewrite <- (root_tree_set "from" (TStr tf) tr) in Hto.
  apply (setitem_tree _ "to" (TStr tu)) in Hto as [E2 L2];
    [|apply E1|by eapply sublist_NoDup, E1|done].
  pose proof (evolves_trans _ _ _ _ _ _ E1 E2) as E12.
  rewrite Hcc. msimpl.
  set (g := λ time_range, tree_set "to" (TStr tu) (tree_set "from" (TStr tf) time_range)).
  assert (Edf : evolves (store w) (store w2) (TDict a2 es2)
                  (tree_update "timeRange" g (TDict a2 es2))).
  { apply (evolves_update _ _ _ _ _ tr); [done|done|by exists a2, es2|exact E12]. }
  assert (Ed : evolves (store w) (store w2) (TDict a es)
                 (tree_update "dataFilter" (tree_update "timeRange" g) (TDict a es))).
  { apply (evolves_update _ _ _ _ _ (TDict a2 es2)); [done|done|by exists a, es|exact Edf]. }
  destruct (getitem _ "dataFilter" w2) as [w0 [dfv2|]] eqn:Hdf2; [|discriminate].
  rewrite <- (root_tree_update "dataFilter" (tree_update "timeRange" g) (TDict a es))
    in Hdf2.
  apply getitem_tree in Hdf2 as (-> & a' & es' & df' & Heq & Hget' & <-); [|apply Ed].
  cbn [tree_update] in Heq. injection Heq as <- <-.
  rewrite entries_get_update, Hget in Hget'. injection Hget' as <-.
  intros Hmcc.
  apply (setitem_tree _ "maxCloudCoverage" (TInt cc)) in Hmcc as [E3 L3];
    [|apply Edf|by eapply sublist_NoDup, Edf|done].
  split; [|congruence].
  unfold tree_specialise. apply (evolves_update _ _ _ _ _ (TDict a2 es2));
    [done|done|by exists a, es|].
  exact (evolves_trans _ _ _ _ _ _ Edf E3).
Qed.

(** A loop over the elements of a list in the store, each turn within the
    tree of its element. *)
Lemma for_each_tree (f : tree → tree) (body : value → M unit) a done rest w w' :
  (∀ c w w', in_heap (store w) c → NoDup (addrs c) →
     body (root c) w = (w', Ok tt) →
     evolves (store w) (store w') c (f c) ∧ log w' = log w) →
  in_heap (store w) (TList a (done ++ rest)) →
  NoDup (addrs (TList a (done ++ rest))) →
  for_each (root <$> rest) body w = (w', Ok tt) →
  evolves (store w) (store w') (TList a (done ++ rest)) (TList a (done ++ (f <$> rest)))
  ∧ log w' = log w.
Proof.
  intros Hbody. revert done w. induction rest as [|c rest IH]; intros done w Ht Hnd Hloop.
  { injection Hloop as <-. split; [by apply evolves_refl | done]. }
  cbn [for_each fmap list_fmap] in Hloop. revert Hloop. msimpl.
  destruct (body (root c) w) as [w1 [[]|]] eqn:Hb; [|discriminate]. intros Hloop.
  assert (Hc : in_heap (store w) c ∧ NoDup (addrs c)).
  { apply in_heap_list in Ht as [_ Hall].
    apply Forall_app in Hall as [_ [Hc _]%Forall_cons]. split; [done|].
    cbn [addrs] in Hnd. rewrite fmap_app, fmap_cons, concat_app in Hnd. cbn in Hnd.
    by apply NoDup_cons in Hnd as [_ (_ & _ & (? & _ & _)%NoDup_app)%NoDup_app]. }
  destruct (Hbody c w w1 (proj1 Hc) (proj2 Hc) Hb) as [Ec L1].
  pose proof (evolves_elem _ _ a done c (f c) rest Ht Hnd Ec) as E1.
  destruct (IH (done ++ [f c]) w1) as [E2 L2].
  - rewrite <- app_assoc. apply E1.
  - rewrite <- app_assoc. eapply sublist_NoDup; [exact Hnd | apply E1].
  - exact Hloop.
  - rewrite <- !app_assoc in E2. split; [|congruence].
    exact (evolves_trans _ _ _ _ _ _ E1 E2).
Qed.

Lemma iterate_tree t w w' vs :
  in_heap (store w) t →
  iterate (root t) w = (w', Ok vs) →
  w' = w
  ∧ ((∃ a l, t = TList a l ∧ vs = root <$> l)
     ∨ ((∀ a l, t ≠ TList a l) ∧ Forall (λ v, ∃ s, v = VStr s) vs)).
Proof.
  intros Ht. unfold iterate, load.
  destruct t as [| | | | |a l|a es]; cbn [root]; msimpl; try discriminate.
  - intros [= <- <-]. split; [done|]. right. split; [done|].
    apply Forall_fmap, Forall_true. intros c. by eexists.
  - apply in_heap_list in Ht as [-> _]. intros [= <- <-]. split; [done|].
    left. by exists a, l.
  - apply in_heap_dict in Ht as [-> _]. intros [= <- <-]. split; [done|].
    right. split; [done|]. apply Forall_fmap, Forall_true. intros c. by eexists.
Qed.

(** The loop cannot take a turn over a string. *)
Lemma for_each_strings tf tu maxcc vs w w' :
  Forall (λ v, ∃ s, v = VStr s) vs →
  for_each vs (specialise_data tf tu maxcc) w = (w', Ok tt) →
  vs = [] ∧ w' = w.
Proof.
  intros [|v vs0 [s ->] _]; [by intros [= <-]|].
  cbn [for_each]. unfold specialise_data. msimpl. cbn. discriminate.
Qed.

(** *** deepcopy of a tree *)

Lemma copied_nil w memo : copied w w memo memo [] [].
Proof.
  split; [done|]. split; [constructor|]. split; [constructor|].
  split; [by intros ? ?%elem_of_nil|]. by repeat split.
Qed.

Lemma copied_leaf w memo t : addrs t = [] → copied w w memo memo [t] [t].
Proof.
  intros Ht. split; [done|]. split; [by apply Forall_singleton, in_heap_leaf|].
  cbn. rewrite Ht. split; [constructor|].
  split; [by intros ? ?%elem_of_nil|]. by repeat split.
Qed.

Lemma in_heap_unchanged h h' t :
  in_heap h t → (∀ a, (a < length h)%nat → h' !! a = h !! a) → in_heap h' t.
Proof.
  intros Ht Hsame. apply (in_heap_agree h); [done|].
  intros a Ha. apply Hsame. by eapply in_heap_bound.
Qed.

Lemma copied_cons w w1 w2 memo memo1 memo2 t t1 ts ts' :
  copied w w1 memo memo1 [t] [t1] →
  copied w1 w2 memo1 memo2 ts ts' →
  copied w w2 memo memo2 (t :: ts) (t1 :: ts').
Proof.
  intros (E1 & H1 & N1 & B1 & M1 & U1 & L1 & G1) (E2 & H2 & N2 & B2 & M2 & U2 & L2 & G2).
  cbn in E1, N1, B1, M1. rewrite app_nil_r in N1, B1, M1.
  rewrite Forall_singleton in H1. injection E1 as E1.
  split; [rewrite !fmap_cons; by rewrite E1, E2|].
  split; [|split; [|split; [|split; [|split]]]].
  - apply Forall_cons. split; [|done]. apply (in_heap_agree (store w1)); [done|].
    intros a Ha. apply U2, B1, Ha.
  - cbn. apply NoDup_app. split; [done|]. split; [|done].
    intros a Ha1 Ha2. apply B1 in Ha1. apply B2 in Ha2. lia.
  - cbn. intros a [Ha|Ha]%elem_of_app; [apply B1 in Ha | apply B2 in Ha]; lia.
  - cbn. intros a Ha. apply elem_of_app.
    destruct (decide (memo1 !! a = memo !! a)) as [Heq|Hne]; [|left; by apply M1].
    right. apply M2. congruence.
  - intros a Ha. rewrite U2 by lia. by apply U1.
  - split; [lia | congruence].
Qed.

Lemma copy_items_tree {K} limit (kts : list (K * tree)) memo w w' r memo' :
  (∀ t memo w w' v memo',
     in_heap (store w) t → NoDup (addrs t) →
     (∀ a, a ∈ addrs t → memo !! a = None) →
     deepcopy_memo limit (root t) memo w = (w', Ok (v, memo')) →
     ∃ t', root t' = v ∧ copied w w' memo memo' [t] [t']) →
  Forall (in_heap (store w)) kts.*2 →
  NoDup (concat (addrs <$> kts.*2)) →
  (∀ a, a ∈ concat (addrs <$> kts.*2) → memo !! a = None) →
  copy_items (deepcopy_memo limit) ((λ e, (e.1, root e.2)) <$> kts) memo w
  = (w', Ok (r, memo')) →
  ∃ kts', r = (λ e, (e.1, root e.2)) <$> kts'
          ∧ kts'.*1 = kts.*1
          ∧ copied w w' memo memo' kts.*2 kts'.*2.
Proof.
  intros IH. revert memo w r.
  induction kts as [|[k t] kts IHk]; intros memo w r Hall Hnd Hmemo;
    cbn [copy_items fmap list_fmap fst snd].
  { intros [= <- <- <-]. exists []. split; [done|]. split; [done|]. apply copied_nil. }
  msimpl.
  destruct (deepcopy_memo limit (root t) memo w) as [w1 [[v1 memo1]|]] eqn:H1;
    [|discriminate].
  cbn [fst snd].
  destruct (copy_items _ _ memo1 w1) as [w2 [[rs memo2]|]] eqn:H2; [|discriminate].
  cbn [fst snd]. intros [= <- <- <-].
  apply Forall_cons in Hall as [Ht Hall]. cbn in Hnd, Hmemo.
  apply NoDup_app in Hnd as (Nt & Dt & Nts).
  apply IH in H1 as (t1 & <- & C1); [|done|done|].
  2:{ intros a Ha. apply Hmemo, elem_of_app. by left. }
  apply IHk in H2 as (kts' & -> & Hkeys & C2); [| |done|].
  - exists ((k, t1) :: kts'). split; [done|]. split; [cbn; by rewrite Hkeys|].
    cbn [fmap list_fmap snd]. by eapply copied_cons.
  - destruct C1 as (_ & _ & _ & _ & _ & U1 & _).
    eapply Forall_impl; [exact Hall|]. intros t0 Ht0. by eapply in_heap_unchanged.
  - intros a Ha. destruct C1 as (_ & _ & _ & _ & M1 & _).
    destruct (decide (memo1 !! a = memo !! a)) as [Heq|Hne].
    + rewrite Heq. apply Hmemo, elem_of_app. by right.
    + apply M1 in Hne. cbn in Hne. rewrite app_nil_r in Hne. by destruct (Dt a).
Qed.

(** The copy of a container: allocated empty at the end of the store,
    filled once its items are copied. *)
Lemma copied_node w w2 memo memo2 a o0 o' (src dst : list tree) (t t' : tree) :
  addrs t = a :: concat (addrs <$> src) →
  addrs t' = length (store w) :: concat (addrs <$> dst) →
  erase t' = erase t →
  (∀ h, h !! length (store w) = Some o' → Forall (in_heap h) dst → in_heap h t') →
  copied {| store := store w ++ [o0]; log := log w |} w2
         (<[a:=length (store w)]> memo) memo2 src dst →
  copied w {| store := <[length (store w):=o']> (store w2); log := log w2 |}
         memo memo2 [t] [t'].
Proof.
  intros Ht Ht' Herase Hin (E & H & N & B & M & U & L & G).
  unfold copied. cbn [store log] in *. rewrite length_app in *. cbn [length] in *.
  split; [cbn; by rewrite Herase|]. split; [|split; [|split; [|split; [|split]]]].
  - apply Forall_singleton, Hin.
    + apply list_lookup_insert_eq. lia.
    + rewrite Forall_forall in H. apply Forall_forall. intros t0 Ht0.
      apply (in_heap_agree (store w2)); [by apply H|].
      intros a0 Ha0. apply list_lookup_insert_ne.
      assert (a0 ∈ concat (addrs <$> dst)) as ?%B; [|lia].
      apply elem_of_concat. exists (addrs t0). split; [|done].
      apply list_elem_of_fmap. by exists t0.
  - cbn. rewrite app_nil_r, Ht'. apply NoDup_cons. split; [|done].
    intros ?%B. lia.
  - cbn. rewrite app_nil_r, Ht', length_insert.
    intros a0 [->|?%B]%elem_of_cons; lia.
  - cbn. rewrite app_nil_r, Ht. intros a0 Ha0. apply elem_of_cons.
    destruct (decide (a0 = a)) as [->|Hne]; [by left|]. right. apply M.
    by rewrite lookup_insert_ne.
  - intros a0 Ha0. rewrite list_lookup_insert_ne by lia.
    rewrite U by lia. by apply lookup_app_l.
  - rewrite length_insert. split; [lia | done].
Qed.

Lemma pair_fmap_ext {A B} (g : A → B) (l l' : list (string * A)) :
  l'.*1 = l.*1 → g <$> l'.*2 = g <$> l.*2 →
  (λ e, (e.1, g e.2)) <$> l' = (λ e, (e.1, g e.2)) <$> l.
Proof.
  revert l'. induction l as [|[k x] l IH]; intros [|[k' x'] l']; cbn; try done.
  intros [= -> ?] [= -> ?]. f_equal. by apply IH.
Qed.

Lemma snd_tagged {A} (l : list A) : ((λ x, (tt, x)) <$> l).*2 = l.
Proof. rewrite <- list_fmap_compose. apply list_fmap_id. Qed.

(** [deepcopy] of a tree makes an equal tree of new objects and leaves the
    objects that were there alone. *)
Lemma deepcopy_memo_tree limit t memo w w' v memo' :
  in_heap (store w) t → NoDup (addrs t) →
  (∀ a, a ∈ addrs t → memo !! a = None) →
  deepcopy_memo limit (root t) memo w = (w', Ok (v, memo')) →
  ∃ t', root t' = v ∧ copied w w' memo memo' [t] [t'].
Proof.
  revert t memo w w' v memo'.
  induction limit as [|limit IH]; intros t memo w w' v memo' Ht Hnd Hmemo; [done|].
  destruct t as [| |n|x|s|a l|a es]; cbn [deepcopy_memo root].
  - intros [= <- <- <-]. exists TNull. split; [done | by apply copied_leaf].
  - intros [= <- <- <-]. exists (TBool b). split; [done | by apply copied_leaf].
  - intros [= <- <- <-]. exists (TInt n). split; [done | by apply copied_leaf].
  - intros [= <- <- <-]. exists (TFloat x). split; [done | by apply copied_leaf].
  - intros [= <- <- <-]. exists (TStr s). split; [done | by apply copied_leaf].
  - rewrite (Hmemo a) by (apply elem_of_addrs_list; by left).
    apply in_heap_list in Ht as [Ha Hall].
    cbn [addrs] in Hnd, Hmemo. apply NoDup_cons in Hnd as [Hna Hnd].
    unfold load, alloc, save. msimpl. rewrite Ha. cbn beta iota.
    assert (Hshape : (λ v, (tt, v)) <$> (root <$> l)
                     = (λ e : unit * tree, (e.1, root e.2)) <$> ((λ t, (tt, t)) <$> l))
      by (by rewrite <- !list_fmap_compose).
    rewrite Hshape.
    destruct (copy_items _ _ _ _) as [w2 [[r memo2]|]] eqn:Hitems; [|discriminate].
    cbn [fst snd store log].
    apply (copy_items_tree limit) in Hitems as (kts' & -> & Hkeys & C);
      rewrite ?snd_tagged; cbn [store]; [|exact IH| | |].
    + rewrite snd_tagged in C. intros [= <- <- <-].
      exists (TList (length (store w)) kts'.*2). split; [done|].
      rewrite <- list_fmap_compose.
      change (snd ∘ (λ e : unit * tree, (e.1, root e.2))) with (root ∘ (snd : unit * tree → tree)).
      rewrite list_fmap_compose.
      eapply (copied_node _ _ _ _ a _ _ l kts'.*2); [done|done| | |exact C].
      * cbn [erase]. f_equal. apply C.
      * intros h Hh Hd. by apply in_heap_list.
    + eapply Forall_impl; [exact Hall|]. intros t0 Ht0.
      by apply (in_heap_prefix (store w)); [apply prefix_app_r|].
    + done.
    + intros a0 Ha0. rewrite lookup_insert_ne; [|by intros <-].
      apply Hmemo, elem_of_cons. by right.
  - rewrite (Hmemo a) by (apply elem_of_addrs_dict; by left).
    apply in_heap_dict' in Ht as [Ha Hall].
    rewrite addrs_dict in Hnd, Hmemo. apply NoDup_cons in Hnd as [Hna Hnd].
    unfold load, alloc, save. msimpl. rewrite Ha. cbn beta iota.
    unfold root_entry at 1.
    destruct (copy_items _ _ _ _) as [w2 [[r memo2]|]] eqn:Hitems; [|discriminate].
    cbn [fst snd store log].
    apply (copy_items_tree limit) in Hitems as (kts' & -> & Hkeys & C);
      cbn [store]; [|exact IH| | |].
    + intros [= <- <- <-].
      exists (TDict (length (store w)) kts'). split; [done|].
      eapply (copied_node _ _ _ _ a _ _ es.*2 kts'.*2);
        [by rewrite addrs_dict|by rewrite addrs_dict| | |exact C].
      * cbn [erase]. f_equal. apply pair_fmap_ext; [done | apply C].
      * intros h Hh Hd. by apply in_heap_dict'.
    + eapply Forall_impl; [exact Hall|]. intros t0 Ht0.
      by apply (in_heap_prefix (store w)); [apply prefix_app_r|].
    + done.
    + intros a0 Ha0. rewrite lookup_insert_ne; [|by intros <-].
      apply Hmemo, elem_of_cons. by right.
Qed.

(** *** A request built from a JSON body *)

Lemma allocated_nil w : allocated w w [].
Proof.
  split; [constructor|]. split; [constructor|].
  split; [by intros ? ?%elem_of_nil|]. by split.
Qed.

Lemma allocated_leaf w t : addrs t = [] → allocated w w [t].
Proof.
  intros Ht. split; [by apply Forall_singleton, in_heap_leaf|].
  cbn. rewrite Ht. split; [constructor|].
  split; [by intros ? ?%elem_of_nil|]. by split.
Qed.

Lemma allocated_cons w w1 w2 t ts :
  allocated w w1 [t] → allocated w1 w2 ts → allocated w w2 (t :: ts).
Proof.
  intros (H1 & N1 & B1 & P1 & G1) (H2 & N2 & B2 & P2 & G2).
  cbn in N1, B1. rewrite app_nil_r in N1, B1. rewrite Forall_singleton in H1.
  pose proof (prefix_length _ _ P1). pose proof (prefix_length _ _ P2).
  split; [|split; [|split; [|split]]].
  - apply Forall_cons. split; [|done]. by apply (in_heap_prefix (store w1)).
  - cbn. apply NoDup_app. split; [done|]. split; [|done].
    intros a Ha1 Ha2. apply B1 in Ha1. apply B2 in Ha2. lia.
  - cbn. intros a [Ha|Ha]%elem_of_app; [apply B1 in Ha | apply B2 in Ha]; lia.
  - by etrans.
  - congruence.
Qed.

Lemma allocated_node w w1 o ts t :
  addrs t = length (store w1) :: concat (addrs <$> ts) →
  (∀ h, h !! length (store w1) = Some o → Forall (in_heap h) ts → in_heap h t) →
  allocated w w1 ts →
  allocated w {| store := store w1 ++ [o]; log := log w1 |} [t].
Proof.
  intros Ht Hin (H & N & B & P & G). pose proof (prefix_length _ _ P).
  unfold allocated. cbn [store log]. rewrite length_app. cbn [length].
  split; [|split; [|split; [|split]]].
  - apply Forall_singleton, Hin.
    + by apply list_lookup_middle.
    + eapply Forall_impl; [exact H|]. intros t0 Ht0.
      by apply (in_heap_prefix (store w1)); [apply prefix_app_r|].
  - cbn. rewrite app_nil_r, Ht. apply NoDup_cons. split; [|done]. intros ?%B. lia.
  - cbn. rewrite app_nil_r, Ht. intros a [->|?%B]%elem_of_cons; lia.
  - etrans; [exact P|]. by apply prefix_app_r.
  - done.
Qed.

(** [alloc_json] puts the body in the store as a tree. *)
Lemma alloc_json_tree (j : json) (w : world) :
  ∃ w' t, alloc_json j w = (w', Ok (root t)) ∧ erase t = j ∧ allocated w w' [t].
Proof.
  revert w. induction j as [|b|n|x|s|l IH|l IH] using json_rect'; intros w.
  - exists w, TNull. split; [done|]. split; [done|]. by apply allocated_leaf.
  - exists w, (TBool b). split; [done|]. split; [done|]. by apply allocated_leaf.
  - exists w, (TInt n). split; [done|]. split; [done|]. by apply allocated_leaf.
  - exists w, (TFloat x). split; [done|]. split; [done|]. by apply allocated_leaf.
  - exists w, (TStr s). split; [done|]. split; [done|]. by apply allocated_leaf.
  - assert (Hgo : ∀ w, ∃ w' ts,
      (fix go (l : list json) : M (list value) :=
         match l with
         | [] => mret []
         | e :: l' => v ← alloc_json e; vs ← go l'; mret (v :: vs)
         end) l w = (w', Ok (root <$> ts))
      ∧ erase <$> ts = l ∧ allocated w w' ts).
    { clear w. induction IH as [|e l He _ IHl]; intros w.
      - exists w, []. split; [done|]. split; [done|]. apply allocated_nil.
      - destruct (He w) as (w1 & t & Ht & Et & At).
        destruct (IHl w1) as (w2 & ts & Hts & Ets & Ats).
        exists w2, (t :: ts). msimpl. rewrite Ht.
        unfold mbind, M_mbind, M_bind in Hts. rewrite Hts.
        split; [done|]. split; [cbn; by rewrite Et, Ets|]. by eapply allocated_cons. }
    destruct (Hgo w) as (w1 & ts & Hts & Ets & Ats).
    exists {| store := store w1 ++ [OList (root <$> ts)]; log := log w1 |},
           (TList (length (store w1)) ts).
    cbn [alloc_json]. msimpl. unfold mbind, M_mbind, M_bind in Hts. rewrite Hts.
    unfold alloc. split; [done|]. split; [cbn; by rewrite Ets|].
    apply (allocated_node _ _ _ ts); [done| |done]. intros h Hh Hd. by apply in_heap_list.
  - assert (Hgo : ∀ w, ∃ w' kts,
      (fix go (l : list (string * json)) : M (list (string * value)) :=
         match l with
         | [] => mret []
         | (k, e) :: l' => v ← alloc_json e; vs ← go l'; mret ((k, v) :: vs)
         end) l w = (w', Ok (root_entry <$> kts))
      ∧ (λ e, (e.1, erase e.2)) <$> kts = l ∧ allocated w w' kts.*2).
    { clear w. induction IH as [|[k e] l He _ IHl]; intros w.
      - exists w, []. split; [done|]. split; [done|]. apply allocated_nil.
      - destruct (He w) as (w1 & t & Ht & Et & At).
        destruct (IHl w1) as (w2 & kts & Hts & Ets & Ats).
        exists w2, ((k, t) :: kts). msimpl. cbn in Ht. rewrite Ht.
        unfold mbind, M_mbind, M_bind in Hts. rewrite Hts.
        split; [done|]. split; [cbn in *; by rewrite Et, Ets|].
        by eapply allocated_cons. }
    destruct (Hgo w) as (w1 & kts & Hts & Ets & Ats).
    exists {| store := store w1 ++ [ODict (root_entry <$> kts)]; log := log w1 |},
           (TDict (length (store w1)) kts).
    cbn [alloc_json]. msimpl. unfold mbind, M_mbind, M_bind in Hts. rewrite Hts.
    unfold alloc. split; [done|]. split; [cbn; by rewrite Ets|].
    apply (allocated_node _ _ _ kts.*2); [by rewrite addrs_dict| |done].
    intros h Hh Hd. by apply in_heap_dict'.
Qed.

(** *** request_from_date on a tree *)

Lemma request_from_date_tree limit t date maxcc cc w w' r :
  in_heap (store w) t → NoDup (addrs t) →
  int_of_float (maxcc * float_100)%float = Ok cc →
  request_from_date limit (root t) date maxcc w = (w', Ok r) →
  ∃ t', root t' = r
        ∧ in_heap (store w') t'
        ∧ erase t' = json_request_from_date date cc (erase t)
        ∧ (∀ a, (a < length (store w))%nat → store w' !! a = store w !! a)
        ∧ log w' = log w.
Proof.
  intros Ht Hnd Hcc. unfold request_from_date. msimpl.
  destruct (Datetime.add date _) as [date_to|] eqn:Hadd; [|discriminate].
  assert (date_to = date + Datetime.seconds 1) as ->.
  { unfold Datetime.add in Hadd. cbn zeta in Hadd.
    destruct (decide _); [by injection Hadd | discriminate]. }
  unfold deepcopy. msimpl.
  destruct (deepcopy_memo limit (root t) ∅ w) as [w0 [[copy memo]|]] eqn:Hcopy;
    [|discriminate].
  cbn [fst].
  apply deepcopy_memo_tree in Hcopy as (c & <- & C); [|done|done|intros; apply lookup_empty].
  destruct C as (E & Hc & N & B & _ & U & _ & G).
  cbn in E, N, B. rewrite app_nil_r in N, B. rewrite Forall_singleton in Hc.
  injection E as E.
  destruct (getitem (root c) "input" w0) as [w1 [iv|]] eqn:Hinput; [|discriminate].
  apply (getitem_tree c) in Hinput as (-> & a & es & input & -> & Hgi & <-); [|done].
  destruct (in_heap_entry _ _ _ _ _ Hc N Hgi) as [Hi Ni].
  destruct (getitem (root input) "data" w0) as [w1 [dv|]] eqn:Hdata; [|discriminate].
  apply (getitem_tree input) in Hdata as (-> & a2 & es2 & datas & -> & Hgd & <-); [|done].
  destruct (in_heap_entry _ _ _ _ _ Hi Ni Hgd) as [Hd Nd].
  destruct (iterate (root datas) w0) as [w1 [vs|]] eqn:Hiter; [|discriminate].
  destruct (for_each vs _ w1) as [w2 [[]|]] eqn:Hloop; [|discriminate].
  intros [= <- <-].
  set (F := tree_specialise (Datetime.isoformat date +:+ "Z")
              (Datetime.isoformat (date + Datetime.seconds 1) +:+ "Z") cc).
  assert (Ed : evolves (store w0) (store w2) datas (tree_each F datas)
               ∧ log w2 = log w0).
  { destruct (iterate_tree datas w0 w1 vs Hd Hiter)
      as (-> & [(a3 & l & -> & ->) | [Hnl Hstr]]).
    - apply (for_each_tree F _ a3 [] l) in Hloop; [done| |done|done].
      intros d wa wb ? ? ?. by apply (specialise_data_tree _ _ maxcc).
    - apply for_each_strings in Hloop as [_ ->]; [|done].
      split; [|done]. replace (tree_each F datas) with datas; [by apply evolves_refl|].
      destruct datas; try done. by destruct (Hnl a0 elems). }
  destruct Ed as [Ed Gd].
  assert (Ei : evolves (store w0) (store w2) (TDict a2 es2)
                 (tree_update "data" (tree_each F) (TDict a2 es2))).
  { apply (evolves_update _ _ _ _ _ datas); [done|done|by exists a2, es2|exact Ed]. }
  assert (Ec : evolves (store w0) (store w2) (TDict a es)
                 (tree_update "input" (tree_update "data" (tree_each F)) (TDict a es))).
  { apply (evolves_update _ _ _ _ _ (TDict a2 es2)); [done|done|by exists a, es|exact Ei]. }
  eexists. split; [|split; [apply Ec|split; [|split]]].
  - done.
  - unfold json_request_from_date. rewrite <- E.
    apply erase_tree_update. intros i. apply erase_tree_update. intros d.
    apply erase_tree_each. intros x. apply erase_tree_specialise.
  - intros a0 Ha0. destruct Ec as (_ & _ & _ & Hoff).
    rewrite Hoff; [by apply U|]. intros ?%B. lia.
  - congruence.
Qed.

Lemma result_mapM_reify limit h ts js :
  Forall (in_heap h) ts →
  result_mapM (reify limit h) (root <$> ts) = Ok js →
  js = erase <$> ts.
Proof.
  intros Hall. revert js. induction Hall as [|t ts Ht _ IH]; intros js;
    cbn [result_mapM fmap list_fmap].
  - by intros [= <-].
  - destruct (reify limit h (root t)) as [j|] eqn:Hj; [|done].
    cbn. destruct (result_mapM _ _) as [js0|]; [|done].
    cbn. intros [= <-]. cbn. f_equal; [by eapply reify_tree | by apply IH].
Qed.

(** One request per date from one template in the store. *)
Lemma mapM_request_tree limit t maxcc cc dates w w' rs :
  in_heap (store w) t → NoDup (addrs t) →
  int_of_float (maxcc * float_100)%float = Ok cc →
  mapM (λ date, request_from_date limit (root t) date maxcc) dates w = (w', Ok rs) →
  (∀ a, (a < length (store w))%nat → store w' !! a = store w !! a)
  ∧ (length (store w) ≤ length (store w'))%nat
  ∧ log w' = log w
  ∧ ∃ ts, rs = root <$> ts
          ∧ Forall (in_heap (store w')) ts
          ∧ erase <$> ts = (λ d, json_request_from_date d cc (erase t)) <$> dates.
Proof.
  intros Ht Hnd Hcc. revert w rs Ht.
  induction dates as [|d dates IH]; intros w rs Ht; cbn [mapM].
  { intros [= <- <-]. do 3 (split; [done|]). by exists []. }
  msimpl.
  destruct (request_from_date limit (root t) d maxcc w) as [w1 [r|]] eqn:H1;
    [|discriminate].
  destruct (mapM _ dates w1) as [w2 [rs'|]] eqn:H2; [|discriminate].
  intros [= <- <-].
  pose proof (request_from_date_frame limit (root t) d maxcc w) as [P1 _].
  rewrite H1 in P1. cbn in P1. apply prefix_length in P1.
  apply (request_from_date_tree _ _ _ _ cc) in H1 as (t1 & <- & Ht1 & E1 & U1 & G1);
    [|done..].
  apply IH in H2 as (U2 & L2 & G2 & ts & -> & Hts & Ets);
    [|by eapply in_heap_unchanged].
  split; [|split; [lia|split; [congruence|]]].
  - intros a Ha. rewrite U2 by lia. by apply U1.
  - exists (t1 :: ts). split; [done|]. split.
    + apply Forall_cons. split; [by eapply in_heap_unchanged | done].
    + cbn. by rewrite E1, Ets.
Qed.

Lemma get_dates_world (env : services) self bb ti w w' dates :
  get_dates env self bb ti w = (w', Ok dates) →
  store w' = store w
  ∧ log w' = log w ++ [WfsQuery bb ti (data_source self) (maxcc self)].
Proof.
  unfold get_dates. msimpl.
  destruct (wfs_get_dates _ _ _ _ _) as [ds|]; [|discriminate].
  destruct (decide _); [discriminate|]. msimpl.
  destruct (first_item _); [|discriminate].
  destruct (later_dates _ _); [|discriminate]. by intros [= <- _].
Qed.

(** X19: the request that [request_from_date] returns for a body put in
    the store serialises to the body with the time range and the cloud
    coverage of every element of input.data set and nothing else
    changed. *)
Theorem request_from_date_refines (limit limit' : nat) (body payload : json)
    (date : Z) (maxcc : float) (cc : Z) (w0 w w' : world) (request r : value) :
  alloc_json body w0 = (w, Ok request) →
  request_from_date limit request date maxcc w = (w', Ok r) →
  int_of_float (maxcc * float_100)%float = Ok cc →
  reify limit' (store w') r = Ok payload →
  payload = json_request_from_date date cc body.
Proof.
  intros Halloc Hrun Hcc Hpay.
  destruct (alloc_json_tree body w0) as (w1 & t & Ht & <- & (Hin & Hnd & _)).
  rewrite Ht in Halloc. injection Halloc as -> <-.
  rewrite Forall_singleton in Hin. cbn in Hnd. rewrite app_nil_r in Hnd.
  apply (request_from_date_tree _ _ _ _ cc) in Hrun as (t' & <- & Ht' & <- & _);
    [|done..].
  by eapply reify_tree.
Qed.

Lemma request_from_date_refines_witness :
  ∃ w' r payload,
    request_from_date 10 Example.template_ref (Example.day 1) 0.5%float
      Example.template_world = (w', Ok r)
    ∧ reify 10 (store w') r = Ok payload
    ∧ payload = json_request_from_date (Example.day 1) 50 Example.template.
Proof.
  destruct (request_from_date 10 Example.template_ref (Example.day 1) 0.5%float
              Example.template_world) as [w' [r|e]] eqn:Hrun;
    [|vm_compute in Hrun; discriminate].
  destruct (reify 10 (store w') r) as [payload|e] eqn:Hpay.
  - exists w', r, payload. split; [done|]. split; [done|].
    apply (request_from_date_refines 10 10 Example.template payload (Example.day 1)
             0.5%float 50 Example.start Example.template_world w'
             Example.template_ref r);
      [by vm_compute | exact Hrun | by vm_compute | exact Hpay].
  - exfalso. vm_compute in Hrun. injection Hrun as <- <-. vm_compute in Hpay.
    discriminate.
Defined.

(** X20: a run that returns has sent the download client one payload per
    timestamp, in the order of the timestamps: the body that [shr.body]
    built from the bounding box, the data source, the output size and the
    evalscript, with the time range of that date and the cloud coverage set
    in every element of input.data: a payload carries its own date only. *)
Theorem execute_payloads `{Float32} (env : services) self eopatch bbox ti
    (w w' : world) (p : EOPatch) (cc : Z) :
  execute env self eopatch bbox ti w = (w', Ok p) →
  int_of_float (maxcc self * float_100)%float = Ok cc →
  ∃ bb size_x size_y evalscript,
    bbox = Some bb
    ∧ resolve_size self bbox = Ok (Some (size_x, size_y))
    ∧ generate_evalscript self = Ok evalscript
    ∧ log w'
      = log w
        ++ [WfsQuery bb ti (data_source self) (maxcc self);
            Download
              ((λ date,
                  json_request_from_date date cc
                    (shr_body env
                       (shr_bounds env (crs_opengis_string bb) (bbox_list bb))
                       [shr_data env (ds_api_identifier (data_source self))]
                       (shr_output env size_x size_y
                          [shr_response env "default" "image/tiff";
                           shr_response env "userdata" "application/json"])
                       evalscript))
               <$> timestamp p)].
Proof.
  intros Hrun Hcc. revert Hrun. unfold execute. msimpl.
  destruct (resolve_size self bbox) as [sizes|] eqn:Hsize; [|discriminate].
  destruct bbox as [bb|]; [|discriminate].
  destruct sizes as [[size_x size_y]|]; [|discriminate].
  destruct (generate_evalscript self) as [script|] eqn:Hscript; [|discriminate].
  match goal with |- context [alloc_json ?j w] =>
    destruct (alloc_json_tree j w) as (w1 & t & -> & Ebody & (Hin & Hnd & _ & _ & G1)) end.
  rewrite Forall_singleton in Hin. cbn in Hnd. rewrite app_nil_r in Hnd.
  destruct (get_dates env self bb ti w1) as [w2 [dates|]] eqn:Hdates; [|discriminate].
  apply get_dates_world in Hdates as [S2 G2].
  destruct (mapM _ dates w2) as [w3 [requests|]] eqn:Hreqs; [|discriminate].
  apply (mapM_request_tree _ _ _ cc) in Hreqs as (_ & _ & G3 & ts & -> & Hts & Ets);
    [|by rewrite S2|done|done].
  destruct (result_mapM _ (root <$> ts)) as [payloads|] eqn:Hpay; [|discriminate].
  apply result_mapM_reify in Hpay as ->; [|done].
  destruct (client_download env _) as [images|]; [|discriminate].
  destruct (store_all_additional _ _ _ _ _) as [p1|] eqn:Hp1; [|discriminate].
  destruct (store_bands _ _ _ _) as [p2|] eqn:Hp2; [|discriminate].
  intros [= <- <-]. cbn.
  apply store_all_additional_inv in Hp1 as (Ht1 & _).
  apply store_bands_inv in Hp2 as (Ht2 & _).
  exists bb, size_x, size_y, script. do 3 (split; [done|]).
  rewrite G3, G2, G1, <- app_assoc, Ht2, Ht1, Ets, Ebody. done.
Qed.

Lemma execute_payloads_witness :
  ∃ w' p,
    execute
      (Example.env_with [Example.day 3; Example.day 1]
         [Example.with_factor (Example.image3 1 2 0 4 5 1) (PyInt 2);
          Example.with_factor (Example.image3 7 8 1 9 10 0) (PyFloat 0.5)])
      (Example.task (Some ["B04"; "B08"]) (Some [(MASK, "CLM")]) (TdTimedelta 0))
      None (Some Example.bbox) Example.january Example.start = (w', Ok p)
    ∧ ∃ bb size_x size_y evalscript body,
        log w'
        = [WfsQuery bb Example.january Example.S2L1C 1%float;
           Download [json_request_from_date (Example.day 1) 100 body;
                     json_request_from_date (Example.day 3) 100 body]]
        ∧ body
          = Example.body_dict
              (Example.bounds_dict (crs_opengis_string bb) (bbox_list bb))
              [Example.data_dict "S2L1C"]
              (Example.output_dict size_x size_y
                 [Example.response_dict "default" "image/tiff";
                  Example.response_dict "userdata" "application/json"])
              evalscript.
Proof.
  destruct (execute
      (Example.env_with [Example.day 3; Example.day 1]
         [Example.with_factor (Example.image3 1 2 0 4 5 1) (PyInt 2);
          Example.with_factor (Example.image3 7 8 1 9 10 0) (PyFloat 0.5)])
      (Example.task (Some ["B04"; "B08"]) (Some [(MASK, "CLM")]) (TdTimedelta 0))
      None (Some Example.bbox) Example.january Example.start)
    as [w' [p|e]] eqn:Hrun; [|vm_compute in Hrun; discriminate].
  exists w', p. split; [done|].
  destruct (execute_payloads _ _ _ _ _ _ _ _ 100 Hrun eq_refl)
    as (bb & size_x & size_y & evalscript & _ & _ & _ & Hlog).
  exists bb, size_x, size_y, evalscript. eexists. split; [|reflexivity].
  rewrite Hlog. vm_compute in Hrun. injection Hrun as _ <-. reflexivity.
Defined.

(** X21: for a date in the last second of the year 9999 the end of the time
    range cannot be computed: [request_from_date] raises OverflowError
    before it copies anything, whatever the request is. *)
Theorem request_from_date_overflow (limit : nat) (request : value) (date : Z)
    (maxcc : float) (w : world) :
  Datetime.MAXORDINAL * Datetime.us_per_day - Datetime.seconds 1 ≤ date →
  request_from_date limit request date maxcc w
  = (w, Raise (OverflowError "date value out of range")).
Proof.
  intros Hlast. unfold request_from_date, Datetime.add. msimpl.
  rewrite decide_False by lia. reflexivity.
Qed.

Lemma request_from_date_overflow_witness :
  request_from_date 1000 Example.template_ref
    (Datetime.make 9999 12 31 23 59 59 + 1) 1%float Example.template_world
  = (Example.template_world, Raise (OverflowError "date value out of range")).
Proof.
  apply (request_from_date_overflow 1000 Example.template_ref
           (Datetime.make 9999 12 31 23 59 59 + 1) 1%float Example.template_world).
  vm_compute. discriminate.
Defined.

(** *** Requests that can be specialised: the run returns *)

Lemma foldr_max_le {A} (f : A → nat) (l : list A) (m : nat) :
  (foldr (λ e n, Nat.max (f e) n) 0 l ≤ m)%nat ↔ Forall (λ e, (f e ≤ m)%nat) l.
Proof.
  induction l as [|e l IH]; cbn [foldr].
  - split; [constructor | lia].
  - rewrite Forall_cons, <- IH. lia.
Qed.

Lemma json_depth_list l limit :
  (json_depth (JList l) ≤ S limit)%nat ↔ Forall (λ e, (json_depth e ≤ limit)%nat) l.
Proof. cbn [json_depth]. rewrite <- foldr_max_le. lia. Qed.

Lemma json_depth_dict es limit :
  (json_depth (JDict es) ≤ S limit)%nat
  ↔ Forall (λ e, (json_depth e.2 ≤ limit)%nat) es.
Proof.
  cbn [json_depth]. rewrite <- (foldr_max_le (λ e, json_depth e.2)). lia.
Qed.

Lemma json_depth_pos j : (1 ≤ json_depth j)%nat.
Proof. destruct j; cbn; lia. Qed.

(** With enough levels of recursion a tree in the store serialises. *)
Lemma reify_total limit h t :
  in_heap h t → (json_depth (erase t) ≤ limit)%nat →
  reify limit h (root t) = Ok (erase t).
Proof.
  revert t. induction limit as [|limit IH]; intros t Ht Hdepth.
  { pose proof (json_depth_pos (erase t)). lia. }
  destruct t as [| | | | |a l|a es]; cbn [reify root erase]; try done.
  - apply in_heap_list in Ht as [-> Hall]. cbn [erase] in Hdepth.
    apply json_depth_list, Forall_fmap in Hdepth.
    assert (result_mapM (reify limit h) (root <$> l) = Ok (erase <$> l)) as ->; [|done].
    induction Hall as [|e l He _ IHl]; [done|].
    apply Forall_cons in Hdepth as [Hd Hdepth].
    cbn [result_mapM fmap list_fmap]. rewrite IH by done. cbn.
    by rewrite IHl.
  - apply in_heap_dict in Ht as [-> Hall]. cbn [erase] in Hdepth.
    apply json_depth_dict, Forall_fmap in Hdepth.
    assert (result_mapM (λ e, j ← reify limit h e.2; Ok (e.1, j)) (root_entry <$> es)
            = Ok ((λ e, (e.1, erase e.2)) <$> es)) as ->; [|done].
    induction Hall as [|e l He _ IHl]; [done|].
    apply Forall_cons in Hdepth as [Hd Hdepth].
    cbn [result_mapM fmap list_fmap root_entry fst snd]. rewrite IH by done. cbn.
    by rewrite IHl.
Qed.

Lemma copy_items_total {K} limit (kts : list (K * tree)) memo w :
  (∀ t memo w,
     in_heap (store w) t → NoDup (addrs t) →
     (∀ a, a ∈ addrs t → memo !! a = None) →
     (json_depth (erase t) ≤ limit)%nat →
     ∃ w' v memo', deepcopy_memo limit (root t) memo w = (w', Ok (v, memo'))) →
  Forall (in_heap (store w)) kts.*2 →
  NoDup (concat (addrs <$> kts.*2)) →
  (∀ a, a ∈ concat (addrs <$> kts.*2) → memo !! a = None) →
  Forall (λ t, (json_depth (erase t) ≤ limit)%nat) kts.*2 →
  ∃ w' r memo',
    copy_items (deepcopy_memo limit) ((λ e, (e.1, root e.2)) <$> kts) memo w
    = (w', Ok (r, memo')).
Proof.
  intros IH. revert memo w.
  induction kts as [|[k t] kts IHk]; intros memo w Hall Hnd Hmemo Hdepth;
    cbn [copy_items fmap list_fmap fst snd].
  { by eexists _, _, _. }
  apply Forall_cons in Hall as [Ht Hall]. apply Forall_cons in Hdepth as [Hd Hdepth].
  cbn in Hnd, Hmemo. apply NoDup_app in Hnd as (Nt & Dt & Nts).
  destruct (IH t memo w) as (w1 & v1 & memo1 & H1); [done|done| |done|].
  { intros a Ha. apply Hmemo, elem_of_app. by left. }
  pose proof H1 as C1.
  apply deepcopy_memo_tree in C1 as (t1 & _ & (_ & _ & _ & _ & M1 & U1 & _));
    [|done|done|].
  2:{ intros a Ha. apply Hmemo, elem_of_app. by left. }
  destruct (IHk memo1 w1) as (w2 & rs & memo2 & H2); [| |  |done|].
  - eapply Forall_impl; [exact Hall|]. intros t0 Ht0. by eapply in_heap_unchanged.
  - done.
  - intros a Ha. destruct (decide (memo1 !! a = memo !! a)) as [Heq|Hne].
    + rewrite Heq. apply Hmemo, elem_of_app. by right.
    + apply M1 in Hne. cbn in Hne. rewrite app_nil_r in Hne. by destruct (Dt a).
  - msimpl. rewrite H1. cbn [fst snd]. rewrite H2. by eexists _, _, _.
Qed.

(** With enough levels of recursion [deepcopy] of a tree returns. *)
Lemma deepcopy_memo_total limit t memo w :
  in_heap (store w) t → NoDup (addrs t) →
  (∀ a, a ∈ addrs t → memo !! a = None) →
  (json_depth (erase t) ≤ limit)%nat →
  ∃ w' v memo', deepcopy_memo limit (root t) memo w = (w', Ok (v, memo')).
Proof.
  revert t memo w.
  induction limit as [|limit IH]; intros t memo w Ht Hnd Hmemo Hdepth.
  { pose proof (json_depth_pos (erase t)). lia. }
  destruct t as [| |n|x|s|a l|a es]; cbn [deepcopy_memo root];
    try (by eexists _, _, _).
  - rewrite (Hmemo a) by (apply elem_of_addrs_list; by left).
    apply in_heap_list in Ht as [Ha Hall].
    cbn [addrs] in Hnd, Hmemo. apply NoDup_cons in Hnd as [Hna Hnd].
    cbn [erase] in Hdepth. apply json_depth_list, Forall_fmap in Hdepth.
    unfold load, alloc, save. msimpl. rewrite Ha. cbn beta iota.
    assert (Hshape : (λ v, (tt, v)) <$> (root <$> l)
                     = (λ e : unit * tree, (e.1, root e.2)) <$> ((λ t, (tt, t)) <$> l))
      by (by rewrite <- !list_fmap_compose).
    rewrite Hshape.
    destruct (copy_items_total limit ((λ t, (tt, t)) <$> l) (<[a:=length (store w)]> memo)
                {| store := store w ++ [OList []]; log := log w |} IH)
      as (w2 & r & memo2 & ->); rewrite ?snd_tagged; cbn [store].
    + eapply Forall_impl; [exact Hall|]. intros t0 Ht0.
      by apply (in_heap_prefix (store w)); [apply prefix_app_r|].
    + done.
    + intros a0 Ha0. rewrite lookup_insert_ne; [|by intros <-].
      apply Hmemo, elem_of_cons. by right.
    + done.
    + by eexists _, _, _.
  - rewrite (Hmemo a) by (apply elem_of_addrs_dict; by left).
    apply in_heap_dict' in Ht as [Ha Hall].
    rewrite addrs_dict in Hnd, Hmemo. apply NoDup_cons in Hnd as [Hna Hnd].
    cbn [erase] in Hdepth. apply json_depth_dict, Forall_fmap in Hdepth.
    unfold load, alloc, save. msimpl. rewrite Ha. cbn beta iota.
    unfold root_entry at 1.
    destruct (copy_items_total limit es (<[a:=length (store w)]> memo)
                {| store := store w ++ [ODict []]; log := log w |} IH)
      as (w2 & r & memo2 & ->); cbn [store].
    + eapply Forall_impl; [exact Hall|]. intros t0 Ht0.
      by apply (in_heap_prefix (store w)); [apply prefix_app_r|].
    + done.
    + intros a0 Ha0. rewrite lookup_insert_ne; [|by intros <-].
      apply Hmemo, elem_of_cons. by right.
    + apply Forall_fmap. eapply Forall_impl; [exact Hdepth|]. by intros [k t0].
    + by eexists _, _, _.
Qed.

Lemma getitem_tree_ok a es k c w :
  in_heap (store w) (TDict a es) → entries_get k es = Some c →
  getitem (VRef a) k w = (w, Ok (root c)).
Proof.
  intros [Ha _]%in_heap_dict Hget. unfold getitem, load. msimpl. rewrite Ha.
  cbn beta iota. rewrite dict_get_entries. unfold root_entry.
  by rewrite (entries_get_fmap root), Hget.
Qed.

Lemma setitem_tree_ok a es k v w :
  in_heap (store w) (TDict a es) → ∃ w', setitem (VRef a) k v w = (w', Ok tt).
Proof.
  intros [Ha _]%in_heap_dict. unfold setitem, load, save. msimpl. rewrite Ha.
  by eexists.
Qed.

Lemma erase_get k t j :
  json_get k (erase t) = Some j →
  ∃ a es c, t = TDict a es ∧ entries_get k es = Some c ∧ erase c = j.
Proof.
  destruct t as [| | | | | |a es]; try done. cbn [erase json_get].
  rewrite (entries_get_fmap erase).
  destruct (entries_get k es) as [c|] eqn:Hc; [|done]. intros [= <-].
  by exists a, es, c.
Qed.

Lemma erase_is_dict t es : erase t = JDict es → ∃ a es', t = TDict a es'.
Proof. destruct t; try done. by eexists _, _. Qed.

Lemma erase_is_list t l : erase t = JList l → ∃ a l', t = TList a l' ∧ erase <$> l' = l.
Proof. destruct t; try done. intros [= <-]. by eexists _, _. Qed.

Lemma specialise_data_total tf tu maxcc cc d w :
  in_heap (store w) d → NoDup (addrs d) →
  specialisable (erase d) = true →
  int_of_float (maxcc * float_100)%float = Ok cc →
  ∃ w', specialise_data tf tu maxcc (root d) w = (w', Ok tt).
Proof.
  intros Hd Hnd Hspec Hcc. unfold specialisable in Hspec.
  destruct (json_get "dataFilter" (erase d)) as [dfj|] eqn:H1; [|done].
  destruct (json_get "timeRange" dfj) as [[| | | | | |trj]|] eqn:H2; try done.
  apply erase_get in H1 as (a & es & df & -> & Hget & <-).
  apply erase_get in H2 as (a2 & es2 & tr & -> & Hget2 & Etr).
  apply erase_is_dict in Etr as (a3 & es3 & ->).
  destruct (in_heap_entry _ _ _ _ _ Hd Hnd Hget) as [Hdf Hnddf].
  destruct (in_heap_entry _ _ _ _ _ Hdf Hnddf Hget2) as [Htr Hndtr].
  unfold specialise_data. msimpl. cbn [root].
  rewrite (getitem_tree_ok a es _ (TDict a2 es2)) by done. cbn [root].
  rewrite (getitem_tree_ok a2 es2 _ (TDict a3 es3)) by done. cbn [root].
  destruct (setitem_tree_ok a3 es3 "from" (VStr tf) w Htr) as [w1 Hfrom].
  rewrite Hfrom.
  apply (setitem_tree (TDict a3 es3) "from" (TStr tf)) in Hfrom as [E1 _]; [|done..].
  destruct (setitem_tree_ok a3 _ "to" (VStr tu) w1 (proj1 E1)) as [w2 Hto].
  rewrite Hto.
  apply (setitem_tree (tree_set "from" (TStr tf) (TDict a3 es3)) "to" (TStr tu))
    in Hto as [E2 _]; [|apply E1|by eapply sublist_NoDup, E1|done].
  pose proof (evolves_trans _ _ _ _ _ _ E1 E2) as E12.
  rewrite Hcc. msimpl.
  set (g := λ time_range, tree_set "to" (TStr tu) (tree_set "from" (TStr tf) time_range)).
  assert (Edf : evolves (store w) (store w2) (TDict a2 es2)
                  (tree_update "timeRange" g (TDict a2 es2))).
  { apply (evolves_update _ _ _ _ _ (TDict a3 es3));
      [done|done|by exists a2, es2|exact E12]. }
  assert (Ed : evolves (store w) (store w2) (TDict a es)
                 (tree_update "dataFilter" (tree_update "timeRange" g) (TDict a es))).
  { apply (evolves_update _ _ _ _ _ (TDict a2 es2)); [done|done|by exists a, es|exact Edf]. }
  rewrite (getitem_tree_ok a _ "dataFilter" (tree_update "timeRange" g (TDict a2 es2))
             w2 (proj1 Ed)) by (by rewrite entries_get_update, Hget).
  cbn [tree_update root].
  apply (setitem_tree_ok a2 _ "maxCloudCoverage" (VInt cc) w2 (proj1 Edf)).
Qed.

Lemma for_each_tree_total (f : tree → tree) (body : value → M unit) (Q : tree → Prop)
    a done rest w :
  (∀ c w, in_heap (store w) c → NoDup (addrs c) → Q c →
     ∃ w', body (root c) w = (w', Ok tt)) →
  (∀ c w w', in_heap (store w) c → NoDup (addrs c) →
     body (root c) w = (w', Ok tt) →
     evolves (store w) (store w') c (f c) ∧ log w' = log w) →
  in_heap (store w) (TList a (done ++ rest)) →
  NoDup (addrs (TList a (done ++ rest))) →
  Forall Q rest →
  ∃ w', for_each (root <$> rest) body w = (w', Ok tt).
Proof.
  intros Hbody Hev. revert done w.
  induction rest as [|c rest IH]; intros done w Ht Hnd HQ; [by eexists|].
  apply Forall_cons in HQ as [Hc HQ].
  assert (Hin : in_heap (store w) c ∧ NoDup (addrs c)).
  { apply in_heap_list in Ht as [_ Hall].
    apply Forall_app in Hall as [_ [? _]%Forall_cons]. split; [done|].
    cbn [addrs] in Hnd. rewrite fmap_app, fmap_cons, concat_app in Hnd. cbn in Hnd.
    by apply NoDup_cons in Hnd as [_ (_ & _ & (? & _ & _)%NoDup_app)%NoDup_app]. }
  destruct (Hbody c w (proj1 Hin) (proj2 Hin) Hc) as [w1 Hb].
  destruct (Hev c w w1 (proj1 Hin) (proj2 Hin) Hb) as [Ec _].
  pose proof (evolves_elem _ _ a done c (f c) rest Ht Hnd Ec) as E1.
  destruct (IH (done ++ [f c]) w1) as [w2 Hloop].
  - rewrite <- app_assoc. apply E1.
  - rewrite <- app_assoc. eapply sublist_NoDup; [exact Hnd | apply E1].
  - done.
  - exists w2. cbn [for_each fmap list_fmap]. msimpl. by rewrite Hb.
Qed.

(** The request of a body that can be specialised is returned. *)
Lemma request_from_date_total limit t date maxcc cc w :
  in_heap (store w) t → NoDup (addrs t) →
  well_formed_body (erase t) = true →
  (json_depth (erase t) ≤ limit)%nat →
  0 ≤ date + Datetime.seconds 1 < Datetime.MAXORDINAL * Datetime.us_per_day →
  int_of_float (maxcc * float_100)%float = Ok cc →
  ∃ w' r, request_from_date limit (root t) date maxcc w = (w', Ok r).
Proof.
  intros Ht Hnd Hwf Hdepth Hdate Hcc.
  unfold request_from_date, Datetime.add. msimpl. cbn zeta.
  rewrite decide_True by done. cbn beta iota.
  unfold deepcopy. msimpl.
  destruct (deepcopy_memo_total limit t ∅ w) as (w0 & v & memo & Hcopy);
    [done|done|intros; apply lookup_empty|done|].
  rewrite Hcopy. cbn [fst].
  apply deepcopy_memo_tree in Hcopy as (c & <- & C);
    [|done|done|intros; apply lookup_empty].
  destruct C as (E & Hc & N & _). cbn in E, N. rewrite app_nil_r in N.
  rewrite Forall_singleton in Hc. injection E as E.
  unfold well_formed_body in Hwf. rewrite <- E in Hwf.
  destruct (json_get "input" (erase c)) as [ij|] eqn:Hi; [|done].
  destruct (json_get "data" ij) as [[| | | | |ds|]|] eqn:Hd; try done.
  apply erase_get in Hi as (a & es & input & -> & Hgi & <-).
  apply erase_get in Hd as (a2 & es2 & datas & -> & Hgd & Ed).
  apply erase_is_list in Ed as (a3 & l & -> & <-).
  destruct (in_heap_entry _ _ _ _ _ Hc N Hgi) as [Hin Nin].
  destruct (in_heap_entry _ _ _ _ _ Hin Nin Hgd) as [Hl Nl].
  cbn [root]. rewrite (getitem_tree_ok a es _ (TDict a2 es2)) by done. cbn [root].
  rewrite (getitem_tree_ok a2 es2 _ (TList a3 l)) by done. cbn [root].
  unfold iterate, load. msimpl. rewrite (proj1 (proj1 (in_heap_list _ _ _) Hl)).
  cbn beta iota.
  destruct (for_each_tree_total
              (tree_specialise (Datetime.isoformat date +:+ "Z")
                 (Datetime.isoformat (date + Datetime.seconds 1) +:+ "Z") cc)
              (specialise_data (Datetime.isoformat date +:+ "Z")
                 (Datetime.isoformat (date + Datetime.seconds 1) +:+ "Z") maxcc)
              (λ d, specialisable (erase d) = true) a3 [] l w0) as [w1 Hloop].
  - intros d wa ? ? ?. by apply (specialise_data_total _ _ _ cc).
  - intros d wa wb ? ? ?. by apply (specialise_data_tree _ _ maxcc).
  - done.
  - done.
  - apply Forall_forall. intros d Hd'. rewrite forallb_forall in Hwf.
    apply Hwf, list_elem_of_In, list_elem_of_fmap. by exists d.
  - rewrite Hloop. by eexists _, _.
Qed.

Lemma mapM_request_total limit t maxcc cc dates w :
  in_heap (store w) t → NoDup (addrs t) →
  well_formed_body (erase t) = true →
  (json_depth (erase t) ≤ limit)%nat →
  Forall (λ date,
            0 ≤ date + Datetime.seconds 1 < Datetime.MAXORDINAL * Datetime.us_per_day)
         dates →
  int_of_float (maxcc * float_100)%float = Ok cc →
  ∃ w' rs, mapM (λ date, request_from_date limit (root t) date maxcc) dates w
           = (w', Ok rs).
Proof.
  intros Ht Hnd Hwf Hdepth Hdates Hcc. revert w Ht.
  induction Hdates as [|d dates Hd _ IH]; intros w Ht; cbn [mapM]; [by eexists _, _|].
  destruct (request_from_date_total limit t d maxcc cc w) as (w1 & r & H1); [done..|].
  msimpl. rewrite H1.
  apply (request_from_date_tree _ _ _ _ cc) in H1 as (_ & _ & _ & _ & U1 & _); [|done..].
  destruct (IH w1) as (w2 & rs & ->); [by eapply in_heap_unchanged|].
  by eexists _, _.
Qed.

Lemma depth_entries_set k x (es : list (string * json)) :
  (foldr (λ e n, Nat.max (json_depth e.2) n) 0 (entries_set k x es)
   ≤ Nat.max (foldr (λ e n, Nat.max (json_depth e.2) n) 0 es) (json_depth x))%nat.
Proof.
  induction es as [|[k' x'] es IH]; cbn [entries_set foldr snd]; [lia|].
  destruct (decide (k' = k)); cbn [foldr snd]; lia.
Qed.

Lemma depth_entries_update k f (es : list (string * json)) c :
  (∀ y, (json_depth (f y) ≤ Nat.max (json_depth y) c)%nat) →
  (foldr (λ e n, Nat.max (json_depth e.2) n) 0 (entries_update k f es)
   ≤ Nat.max (foldr (λ e n, Nat.max (json_depth e.2) n) 0 es) c)%nat.
Proof.
  intros Hf. induction es as [|[k' x'] es IH]; cbn [entries_update foldr snd]; [lia|].
  destruct (decide (k' = k)); cbn [foldr snd]; [specialize (Hf x')|]; lia.
Qed.

Lemma json_depth_set k x j :
  (json_depth (json_set k x j) ≤ Nat.max (json_depth j) (S (json_depth x)))%nat.
Proof.
  destruct j as [| | | | | |es]; cbn [json_set]; try lia.
  cbn [json_depth]. pose proof (depth_entries_set k x es). lia.
Qed.

Lemma json_depth_update k f j c :
  (∀ y, (json_depth (f y) ≤ Nat.max (json_depth y) c)%nat) →
  (json_depth (json_update k f j) ≤ Nat.max (json_depth j) (S c))%nat.
Proof.
  intros Hf. destruct j as [| | | | | |es]; cbn [json_update]; try lia.
  cbn [json_depth]. pose proof (depth_entries_update k f es c Hf). lia.
Qed.

Lemma json_depth_each f j c :
  (∀ y, (json_depth (f y) ≤ Nat.max (json_depth y) c)%nat) →
  (json_depth (json_each f j) ≤ Nat.max (json_depth j) (S c))%nat.
Proof.
  intros Hf. destruct j as [| | | | |l|]; cbn [json_each]; try lia.
  cbn [json_depth].
  assert (foldr (λ e n, Nat.max (json_depth e) n) 0 (f <$> l)
          ≤ Nat.max (foldr (λ e n, Nat.max (json_depth e) n) 0 l) c)%nat; [|lia].
  induction l as [|y l IH]; cbn [fmap list_fmap foldr]; [lia|].
  specialize (Hf y). cbn [fmap list_fmap] in IH. lia.
Qed.

(** Specialising a request adds at most scalars at its seventh level. *)
Lemma json_depth_request date cc body :
  (json_depth (json_request_from_date date cc body) ≤ Nat.max (json_depth body) 7)%nat.
Proof.
  unfold json_request_from_date, json_specialise.
  apply json_depth_update. intros input.
  apply json_depth_update. intros datas.
  apply json_depth_each. intros data.
  apply json_depth_update. intros df.
  etrans; [apply json_depth_set|]. cbn [json_depth].
  assert (json_depth (json_update "timeRange"
            (λ time_range,
               json_set "to" (JStr (Datetime.isoformat (date + Datetime.seconds 1) +:+ "Z"))
                 (json_set "from" (JStr (Datetime.isoformat date +:+ "Z")) time_range)) df)
          ≤ Nat.max (json_depth df) 3)%nat; [|lia].
  apply json_depth_update. intros tr.
  etrans; [apply json_depth_set|]. cbn [json_depth].
  pose proof (json_depth_set "from" (JStr (Datetime.isoformat date +:+ "Z")) tr) as Hs.
  cbn [json_depth] in Hs. lia.
Qed.

Lemma result_mapM_reify_total limit h ts :
  Forall (in_heap h) ts →
  Forall (λ t, (json_depth (erase t) ≤ limit)%nat) ts →
  result_mapM (reify limit h) (root <$> ts) = Ok (erase <$> ts).
Proof.
  intros Hall. induction Hall as [|t ts Ht _ IH]; intros Hdepth; [done|].
  apply Forall_cons in Hdepth as [Hd Hdepth].
  cbn [result_mapM fmap list_fmap]. rewrite reify_total by done. cbn.
  by rewrite IH.
Qed.

(** X22: for a body whose input.data is a list of elements with a time
    range, a date before the last second of the year 9999, a cloud coverage
    that is a number and enough levels of recursion, [request_from_date]
    returns; the request it returns serialises to the specialised body and
    the template still serialises to the body. *)
Theorem request_from_date_returns (limit : nat) (body : json) (date : Z)
    (maxcc : float) (cc : Z) (w0 w : world) (request : value) :
  alloc_json body w0 = (w, Ok request) →
  well_formed_body body = true →
  (Nat.max (json_depth body) 7 ≤ limit)%nat →
  0 ≤ date + Datetime.seconds 1 < Datetime.MAXORDINAL * Datetime.us_per_day →
  int_of_float (maxcc * float_100)%float = Ok cc →
  ∃ w' r,
    request_from_date limit request date maxcc w = (w', Ok r)
    ∧ reify limit (store w') r = Ok (json_request_from_date date cc body)
    ∧ reify limit (store w') request = Ok body.
Proof.
  intros Halloc Hwf Hdepth Hdate Hcc.
  destruct (alloc_json_tree body w0) as (w1 & t & Ht & <- & (Hin & Hnd & _)).
  rewrite Ht in Halloc. injection Halloc as -> <-.
  rewrite Forall_singleton in Hin. cbn in Hnd. rewrite app_nil_r in Hnd.
  destruct (request_from_date_total limit t date maxcc cc w) as (w' & r & Hrun);
    [done|done|done|lia|done|done|].
  exists w', r. split; [done|].
  apply (request_from_date_tree _ _ _ _ cc) in Hrun as (t' & <- & Ht' & E' & U & _);
    [|done..].
  split.
  - rewrite <- E'. apply reify_total; [done|]. rewrite E'.
    pose proof (json_depth_request date cc (erase t)). lia.
  - apply reify_total; [by eapply in_heap_unchanged | lia].
Qed.

Lemma request_from_date_returns_witness :
  ∃ w' r,
    request_from_date 10 Example.template_ref (Example.day 1) 0.5%float
      Example.template_world = (w', Ok r)
    ∧ reify 10 (store w') r
      = Ok (json_request_from_date (Example.day 1) 50 Example.template)
    ∧ reify 10 (store w') Example.template_ref = Ok Example.template.
Proof.
  apply (request_from_date_returns 10 Example.template (Example.day 1) 0.5%float 50
           Example.start Example.template_world Example.template_ref).
  - by vm_compute.
  - by vm_compute.
  - vm_compute. lia.
  - vm_compute. split; [discriminate | reflexivity].
  - by vm_compute.
Defined.

Lemma store_all_additional_total `{Float32} self (images : list (ndarray Z * pynumber))
    (h wd : nat) (fts : list feature) (p : EOPatch) :
  Forall (λ im, three_dimensional h wd (length (all_bands self)) im.1) images →
  (∀ ft, ft ∈ fts → ft ∈ additional_data self ∧ feature_ndim ft.1 = 4%nat) →
  ∃ p', store_all_additional self images
          [Z.of_nat (length images); Z.of_nat h; Z.of_nat wd] fts p = Ok p'.
Proof.
  intros Himages. revert p. induction fts as [|[f_type f_name] fts IH]; intros p Hin;
    cbn [store_all_additional]; [by eexists|].
  destruct (store_additional_3d self images h wd f_type f_name p Himages)
    as (idx & _ & _ & _ & ->); [apply Hin; by left | apply (Hin (f_type, f_name)); by left|].
  cbn [mbind result_mbind result_bind]. apply IH. intros ft ?. apply Hin. by right.
Qed.

(** X23: a run returns when the size is set, the bands feature and the
    additional features are of a type that holds arrays of four axes (DATA
    or MASK), the date query gives dates before the last second of the year
    9999, the cloud coverage is a number, the request body has a list of
    elements with a time range at input.data and fits the recursion limit,
    and the download gives one image per date with the rows and columns of
    the size and one channel per band. It
    returns a patch with the cleaned dates as timestamps and, when there are
    bands, the bands feature holding the leading channels of every image as
    32-bit floats times the image's factor, rounded to four decimals. *)
Theorem execute_returns `{Float32} (env : services) self eopatch bb ti (w : world)
    (h wd : nat) (dates : list Z) (cc : Z) (evalscript : string) (body : json)
    (resps : list response) :
  size self = Some (Z.of_nat wd, Z.of_nat h) →
  Forall (λ ft, feature_ndim ft.1 = 4%nat) (additional_data self) →
  (∀ ft, bands_feature self = Some ft → feature_ndim ft.1 = 4%nat) →
  generate_evalscript self = Ok evalscript →
  body = shr_body env
           (shr_bounds env (crs_opengis_string bb) (bbox_list bb))
           [shr_data env (ds_api_identifier (data_source self))]
           (shr_output env (Z.of_nat wd) (Z.of_nat h)
              [shr_response env "default" "image/tiff";
               shr_response env "userdata" "application/json"])
           evalscript →
  well_formed_body body = true →
  (Nat.max (json_depth body) 7 ≤ recursion_limit env)%nat →
  (get_dates env self bb ti w).2 = Ok dates →
  Forall (λ date,
            0 ≤ date + Datetime.seconds 1 < Datetime.MAXORDINAL * Datetime.us_per_day)
         dates →
  int_of_float (maxcc self * float_100)%float = Ok cc →
  client_download env ((λ date, json_request_from_date date cc body) <$> dates)
  = Ok resps →
  length resps = length dates →
  Forall (λ r, three_dimensional h wd (length (all_bands self)) (default_tif r)) resps →
  ∃ w' p,
    execute env self eopatch (Some bb) ti w = (w', Ok p)
    ∧ timestamp p = dates
    ∧ patch_bbox p = Some bb
    ∧ (bands self ≠ [] →
       ∃ ft, bands_feature self = Some ft
             ∧ features p !! ft
               = Some (Float32Array
                   {| shape := [length dates; h; wd; length (bands self)];
                      items :=
                        f32_round 4
                        <$> concat
                              ((λ r,
                                  (λ x, f32_mul x (norm_factor_of (userdata_json r)))
                                  <$> (f32_of_uint16
                                       <$> leading_channels h wd
                                             (length (all_bands self))
                                             (length (bands self)) (default_tif r)))
                               <$> resps) |})).
Proof.
  intros Hsize Hmasks Hbf Hscript -> Hwf Hdepth Hdates Hrange Hcc Hdl Hlen Himg.
  unfold execute, resolve_size. rewrite Hsize. msimpl. rewrite Hscript. msimpl.
  match goal with |- context [alloc_json ?j w] =>
    destruct (alloc_json_tree j w) as (w1 & t & -> & Ebody & (Hin & Hnd & _ & _ & G1)) end.
  rewrite Forall_singleton in Hin. cbn in Hnd. rewrite app_nil_r in Hnd.
  rewrite <- Ebody in Hwf, Hdepth, Hdl.
  destruct (get_dates env self bb ti w1) as [w2 r2] eqn:Hd.
  assert (r2 = Ok dates) as ->.
  { rewrite <- Hdates, (get_dates_result env self bb ti w w1). by rewrite Hd. }
  apply get_dates_world in Hd as [S2 G2].
  destruct (mapM_request_total (recursion_limit env) t (maxcc self) cc dates w2)
    as (w3 & rs & Hm); [by rewrite S2|done|done|lia|done|done|].
  rewrite Hm.
  apply (mapM_request_tree _ _ _ cc) in Hm as (_ & _ & G3 & ts & -> & Hts & Ets);
    [|by rewrite S2|done|done].
  rewrite result_mapM_reify_total; [|done|].
  2:{ assert (Hd : Forall (λ j, (json_depth j ≤ recursion_limit env)%nat) (erase <$> ts)).
      { rewrite Ets. apply Forall_fmap, Forall_true. intros d. cbn.
        pose proof (json_depth_request d cc (erase t)). lia. }
      by apply Forall_fmap in Hd. }
  rewrite Ets, Hdl. cbn beta iota.
  set (images := (λ r, (default_tif r, norm_factor_of (userdata_json r))) <$> resps).
  assert (Himages : Forall (λ im, three_dimensional h wd (length (all_bands self)) im.1)
                      images).
  { apply Forall_fmap. eapply Forall_impl; [exact Himg|]. by intros r. }
  assert (Hn : length dates = length images) by (unfold images; by rewrite length_fmap).
  rewrite Hn.
  destruct (store_all_additional_total self images h wd (additional_data self)
              (set_bbox bb (set_timestamp dates (default empty_patch eopatch))) Himages)
    as [p1 Hp1].
  { intros ft Hft. split; [done|]. rewrite Forall_forall in Hmasks. by apply Hmasks. }
  rewrite Hp1. cbn beta iota.
  pose proof (store_all_additional_inv _ _ _ _ _ _ _ _ Hp1) as (Ht1 & _).
  pose proof (store_all_additional_rest _ _ _ _ _ _ Hp1) as (Hb1 & _).
  destruct (bands self) as [|b bs] eqn:Hbands.
  - unfold store_bands. rewrite Hbands. cbn beta iota.
    eexists _, _. split; [reflexivity|]. cbn. by rewrite Ht1, Hb1.
  - assert (Hft : ∃ ft, bands_feature self = Some ft).
    { unfold bands in Hbands. destruct (bands_feature self); [by eexists | done]. }
    destruct Hft as [ft Hft].
    rewrite (store_bands_3d self images h wd ft p1 Himages);
      [|by rewrite Hbands|done|by apply Hbf].
    cbn beta iota. eexists _, _. split; [reflexivity|]. cbn.
    split; [done|]. split; [done|]. intros _. exists ft. split; [done|].
    rewrite lookup_insert_eq. rewrite Hbands, <- Hn. unfold images.
    do 4 f_equal. rewrite <- list_fmap_compose. done.
Qed.

Lemma execute_returns_witness :
  ∃ w' p,
    execute
      (Example.env_with [Example.day 3; Example.day 1]
         [Example.with_factor (Example.image3 1 2 0 4 5 1) (PyInt 2);
          Example.with_factor (Example.image3 7 8 1 9 10 0) (PyFloat 0.5)])
      (Example.task (Some ["B04"; "B08"]) (Some [(MASK, "CLM")]) (TdTimedelta 0))
      None (Some Example.bbox) Example.january Example.start = (w', Ok p)
    ∧ timestamp p = [Example.day 1; Example.day 3]
    ∧ patch_bbox p = Some Example.bbox.
Proof.
  destruct (generate_evalscript_ok
              (Example.task (Some ["B04"; "B08"]) (Some [(MASK, "CLM")]) (TdTimedelta 0)))
    as [evalscript Hscript].
  destruct (execute_returns
              (Example.env_with [Example.day 3; Example.day 1]
                 [Example.with_factor (Example.image3 1 2 0 4 5 1) (PyInt 2);
                  Example.with_factor (Example.image3 7 8 1 9 10 0) (PyFloat 0.5)])
              (Example.task (Some ["B04"; "B08"]) (Some [(MASK, "CLM")]) (TdTimedelta 0))
              None Example.bbox Example.january Example.start 1 2
              [Example.day 1; Example.day 3] 100 evalscript _
              [Example.with_factor (Example.image3 1 2 0 4 5 1) (PyInt 2);
               Example.with_factor (Example.image3 7 8 1 9 10 0) (PyFloat 0.5)]
              eq_refl
              ltac:(repeat constructor) ltac:(by intros ft [= <-]) Hscript eq_refl)
    as (w' & p & Hrun & Ht & Hb & _).
  - by vm_compute.
  - vm_compute. lia.
  - by vm_compute.
  - repeat constructor; vm_compute; discriminate || reflexivity.
  - by vm_compute.
  - reflexivity.
  - reflexivity.
  - repeat constructor.
  - exists w', p. split; [exact Hrun|]. split; [exact Ht | exact Hb].
Defined.






